(** * Support distribution machines (sdm.py): kernel construction, PSD
    projection, parameter tuning and the train/predict protocols.

    The numerical code is modelled in exact real arithmetic ([R] stands for
    numpy's float64; the one effect of the floating point that is kept is
    the underflow of [np.exp] to zero), arrays carry their shape, Python
    exceptions are an
    explicit outcome, and every call to an external collaborator
    (divergence estimator, [scipy.linalg.eigh], the SVM solver, the worker
    pool, the fold shuffler) is recorded in a trace together with its
    arguments. Status messages and progress bars ([status_fn],
    [progressbar]) have no effect on any value computed and are left out. *)

From Stdlib Require Import Reals Lra Lia List ZArith Bool Arith PeanoNat.
From Stdlib Require Import Permutation.
From Stdlib Require String.
Import ListNotations.
Import String.StringSyntax.
Delimit Scope string_scope with string.

Local Open Scope R_scope.

(** ** Outcomes of a call *)

Inductive exn : Type :=
| AssertionError
| IndexError
| ValueError
| TypeError
| AttributeError
| LinAlgError
| SolverError (code : nat)   (* whatever the SVM solver raised *)
| CacheError                 (* check_h5_settings rejected the cache file *)
| BadReference               (* an array handle that is not on the heap *)
| NotANumber                 (* a nan was produced where the model has only reals *)
| Unmodelled.                (* the run leaves the fragment of Python modelled here *)

Inductive res (A : Type) : Type :=
| Ok (a : A)
| Raise (e : exn).
Arguments Ok {A} a.
Arguments Raise {A} e.

Definition res_bind {A B} (r : res A) (k : A -> res B) : res B :=
  match r with
  | Ok a => k a
  | Raise e => Raise e
  end.

(** A float that may be nan (scores and accuracies). *)
Inductive npfloat : Type :=
| Fin (r : R)
| NaN.

(** ** numpy arrays *)

(** A two-dimensional float array: its shape and its entries. *)
Record ndarray2 : Type := mk2 { rows : nat; cols : nat; entry : nat -> nat -> R }.

Definition same_array (a b : ndarray2) : Prop :=
  rows a = rows b /\ cols a = cols b /\
  forall i j, (i < rows a)%nat -> (j < cols a)%nat -> entry a i j = entry b i j.

Definition transpose (a : ndarray2) : ndarray2 :=
  mk2 (cols a) (rows a) (fun i j => entry a j i).

(** A one-dimensional array broadcasts as a single row. *)
Definition as_row (v : list R) : ndarray2 :=
  mk2 1 (length v) (fun _ j => nth j v 0).

(** numpy's broadcasting rule for one axis. *)
Definition broadcast_dim (a b : nat) : res nat :=
  if (a =? b)%nat then Ok a
  else if (a =? 1)%nat then Ok b
  else if (b =? 1)%nat then Ok a
  else Raise ValueError.

Definition bidx (dim i : nat) : nat := if (dim =? 1)%nat then 0%nat else i.

(** [a + b] with broadcasting. *)
Definition badd (a b : ndarray2) : res ndarray2 :=
  res_bind (broadcast_dim (rows a) (rows b)) (fun r =>
  res_bind (broadcast_dim (cols a) (cols b)) (fun c =>
  Ok (mk2 r c (fun i j =>
        entry a (bidx (rows a) i) (bidx (cols a) j)
        + entry b (bidx (rows b) i) (bidx (cols b) j))))).

(** [a += b]: the sum has to fit the shape of [a]. *)
Definition iadd (a b : ndarray2) : res ndarray2 :=
  res_bind (badd a b) (fun s =>
  if ((rows s =? rows a) && (cols s =? cols a))%nat%bool then Ok s
  else Raise ValueError).

(** Elementwise operations with a scalar. *)
Definition amap (f : R -> R) (a : ndarray2) : ndarray2 :=
  mk2 (rows a) (cols a) (fun i j => f (entry a i j)).

Definition adiv (a : ndarray2) (c : R) : ndarray2 := amap (fun x => x / c) a.
Definition asqr (a : ndarray2) : ndarray2 := amap (fun x => x ^ 2) a.

(** [np.exp] on a float64. The least positive float64 is 2^-1074, and a
    result at or below half of it is returned as [0.0]: the exponential
    underflows, from an argument of about -745 downwards. The rounding of
    the results above that threshold is left out, they are the exact
    exponential here. *)
Definition np_exp (x : R) : R :=
  if Rle_dec (exp x) (/ 2 ^ 1075) then 0 else exp x.

Definition aexp (a : ndarray2) : ndarray2 := amap np_exp a.

Fixpoint sum_n (f : nat -> R) (n : nat) : R :=
  match n with
  | O => 0
  | S k => sum_n f k + f k
  end.

(** [np.dot] of two matrices. *)
Definition dot (a b : ndarray2) : res ndarray2 :=
  if (cols a =? rows b)%nat then
    Ok (mk2 (rows a) (cols b)
          (fun i j => sum_n (fun k => entry a i k * entry b k j) (cols a)))
  else Raise ValueError.

(** [np.diag] of a vector. *)
Definition diag (v : list R) : ndarray2 :=
  mk2 (length v) (length v) (fun i j => if (i =? j)%nat then nth i v 0 else 0).

(** [np.maximum(vals, c)]. *)
Definition maximum (vals : list R) (c : R) : list R :=
  map (fun v => Rmax v c) vals.

(** [vals.min()]; numpy refuses an empty array. *)
Definition array_min (vals : list R) : res R :=
  match vals with
  | [] => Raise ValueError
  | v :: rest => Ok (fold_left Rmin rest v)
  end.

(** Row-major list of the entries. *)
Definition flatten (a : ndarray2) : list R :=
  flat_map (fun i => map (entry a i) (seq 0 (cols a))) (seq 0 (rows a)).

(** [a[np.ix_(ridx, cidx)]]: the sub-block on the given row and column
    indices; an index out of range raises. *)
Definition in_range (n : nat) (idx : list nat) : bool :=
  forallb (fun i => (i <? n)%nat) idx.

Definition ix_ (a : ndarray2) (ridx cidx : list nat) : res ndarray2 :=
  if (in_range (rows a) ridx && in_range (cols a) cidx)%bool then
    Ok (mk2 (length ridx) (length cidx)
          (fun i j => entry a (nth i ridx 0%nat) (nth j cidx 0%nat)))
  else Raise IndexError.

(** Fancy indexing of a one-dimensional array, [v[idx]]. *)
Definition take {A} (v : list A) (idx : list nat) : res (list A) :=
  fold_right (fun i acc =>
      res_bind acc (fun t =>
        match nth_error v i with
        | Some x => Ok (x :: t)
        | None => Raise IndexError
        end)) (Ok []) idx.

(** Python slice bounds: a negative bound counts from the end, and every
    bound is clipped to the axis. *)
Definition slice_bound (n : nat) (k : Z) : nat :=
  if (k <? 0)%Z then Z.to_nat (Z.max 0 (Z.of_nat n + k))
  else Nat.min (Z.to_nat k) n.

(** [a[k:, :]] *)
Definition rows_from (a : ndarray2) (k : Z) : ndarray2 :=
  let s := slice_bound (rows a) k in
  mk2 (rows a - s) (cols a) (fun i j => entry a (s + i) j).

(** [a[:k, :]] *)
Definition rows_to (a : ndarray2) (k : Z) : ndarray2 :=
  mk2 (slice_bound (rows a) k) (cols a) (entry a).

(** [a[:, :k]] *)
Definition cols_to (a : ndarray2) (k : Z) : ndarray2 :=
  mk2 (rows a) (slice_bound (cols a) k) (entry a).

(** [a[:, k]]: one column as a one-dimensional array; the index has to be
    in range after the negative ones are wrapped. *)
Definition col_at (a : ndarray2) (k : Z) : res (list R) :=
  let k' := (if (k <? 0)%Z then Z.of_nat (cols a) + k else k)%Z in
  if ((0 <=? k') && (k' <? Z.of_nat (cols a)))%Z%bool then
    Ok (map (fun i => entry a i (Z.to_nat k')) (seq 0 (rows a)))
  else Raise IndexError.

(** [np.median(divs[divs > 0])]: the strictly positive entries in row-major
    order, sorted; the middle one, or the mean of the two middle ones. The
    median of an empty selection is nan. *)
Definition positive_entries (divs : ndarray2) : list R :=
  filter (fun x => if Rlt_dec 0 x then true else false) (flatten divs).

Fixpoint insert_sorted (x : R) (l : list R) : list R :=
  match l with
  | [] => [x]
  | y :: t => if Rle_dec x y then x :: y :: t else y :: insert_sorted x t
  end.

Definition sort (l : list R) : list R := fold_right insert_sorted [] l.

Definition median (l : list R) : res R :=
  let s := sort l in
  let n := length s in
  if (n =? 0)%nat then Raise NotANumber
  else if Nat.even n then Ok ((nth (n / 2 - 1) s 0 + nth (n / 2) s 0) / 2)
  else Ok (nth (n / 2) s 0).

(** [np.mean] over flags and over floats; the mean of nothing is nan, and a
    nan among the terms makes the mean nan. *)
Definition count_true (l : list bool) : nat := length (filter (fun b => b) l).

Definition mean_bool (l : list bool) : npfloat :=
  match l with
  | [] => NaN
  | _ => Fin (INR (count_true l) / INR (length l))
  end.

(** [preds == labels] on integer vectors; vectors of different lengths
    compare as the single flag [False]. *)
Definition eq_flags (a b : list Z) : list bool :=
  if (length a =? length b)%nat then map (fun p => Z.eqb (fst p) (snd p)) (combine a b)
  else [false].

Fixpoint sum_floats (l : list npfloat) : npfloat :=
  match l with
  | [] => Fin 0
  | NaN :: _ => NaN
  | Fin x :: t => match sum_floats t with
                  | Fin s => Fin (x + s)
                  | NaN => NaN
                  end
  end.

(** [arr.mean()]. The sum and the quotient are exact here; numpy rounds
    each partial sum to a float64, so two means that are equal here can
    differ in their last bit there. Nothing below depends on which of two
    equal means comes out larger. *)
Definition np_mean (l : list npfloat) : npfloat :=
  match l with
  | [] => NaN
  | _ => match sum_floats l with
         | Fin s => Fin (s / INR (length l))
         | NaN => NaN
         end
  end.

(** [np.argmax] of a flat array: the first nan if there is one, otherwise
    the first position of the largest value. *)
Fixpoint argmax_from (l : list npfloat) (i best : nat) (bestv : R) : nat :=
  match l with
  | [] => best
  | NaN :: _ => i
  | Fin v :: t => if Rlt_dec bestv v then argmax_from t (S i) i v
                  else argmax_from t (S i) best bestv
  end.

Definition np_argmax (l : list npfloat) : res nat :=
  match l with
  | [] => Raise ValueError
  | NaN :: _ => Ok 0%nat
  | Fin v :: t => Ok (argmax_from t 1%nat 0%nat v)
  end.

(** [seq[i]] on a one-dimensional array or a sequence. *)
Definition item {A} (l : list A) (i : nat) : res A :=
  match nth_error l i with
  | Some x => Ok x
  | None => Raise IndexError
  end.

Fixpoint update {A} (l : list A) (i : nat) (x : A) : list A :=
  match l, i with
  | [], _ => []
  | _ :: t, O => x :: t
  | y :: t, S k => y :: update t k x
  end.

(** ** Python values handed around by reference *)

(** A grid of candidates as the caller passes it: a tuple or list of floats
    (from which [np.asarray] builds a fresh array), or a float ndarray that
    lives on the heap (which [np.asarray] returns as it is). *)
Inductive pyvals : Type :=
| PySeq (l : list R)
| NdArray (a : nat).

(** Sequences of bags: a list, a tuple, or a single bag where a sequence was
    expected ([itemgetter] with one index gives the item itself). *)
Inductive bagseq (bag : Type) : Type :=
| BagList (l : list bag)
| BagTuple (l : list bag)
| OneBag (b : bag).
Arguments BagList {bag} l.
Arguments BagTuple {bag} l.
Arguments OneBag {bag} b.

(** The boolean mask of index pairs handed to the divergence estimator. *)
Record mask : Type := mkMask { mask_n : nat; mask_at : nat -> nat -> bool }.

(** What the divergence estimator is asked for. *)
Record div_request (bag fixmode : Type) : Type := mkRequest {
  rq_bags : bagseq bag;
  rq_mask : option mask;
  rq_spec : String.string;
  rq_K : nat;
  rq_n_proc : option nat;
  rq_fix_mode : fixmode;
  rq_tail : R;
  rq_min_dist : option R
}.
Arguments mkRequest {bag fixmode}.
Arguments rq_bags {bag fixmode}.
Arguments rq_mask {bag fixmode}.
Arguments rq_fix_mode {bag fixmode}.

(** The keyword arguments of [svm.SVC]; the kernel is always precomputed. *)
Record svc_params : Type := mkSvc {
  svc_C : R;
  svc_cache_size : R;
  svc_class_weight_auto : bool;
  svc_tol : R;
  svc_max_iter : Z;
  svc_shrinking : bool
}.

(** ** External collaborators *)

Class Externals : Type := {
  bag : Type;
  bag_rows : bag -> nat;                  (* bag.shape[0] *)
  bag_dim : bag -> nat;                   (* bag.shape[1] *)
  fixmode : Type;
  FIX_MODE_DEFAULT : fixmode;             (* from get_divs *)
  TAIL_DEFAULT : R;                       (* from get_divs *)
  classifier : Type;
  (* np.squeeze(get_divs(...)): one div_func and one K *)
  get_divs : div_request bag fixmode -> ndarray2;
  (* the divergence cache file: os.path.exists, check_h5_settings, lookup *)
  cache_exists : String.string -> bool;
  check_h5_settings :
    String.string -> nat -> nat -> fixmode -> R -> option R -> bool;
  cache_get : String.string -> String.string -> nat -> option ndarray2;
  (* scipy.linalg.eigh: eigenvalues and the matrix of eigenvectors *)
  eigh : ndarray2 -> res (list R * ndarray2);
  (* svm.SVC(...).fit(kernel, labels) and clf.predict(kernel), one label
     for every row of the kernel; the labels predicted are integers, so the
     assertion preds == round(preds) of the callers holds *)
  svc_fit : svc_params -> ndarray2 -> list Z -> res classifier;
  svc_predict : classifier -> ndarray2 -> res (nat -> Z);
  (* the permutation of arange(n) that the k-th shuffle draws *)
  shuffle : nat -> nat -> list nat
}.

(** ** The program *)

Section Program.
Context {E : Externals}.

(** Calls that leave the process, in the order they are made. *)
Inductive event : Type :=
| EvGetDivs (rq : div_request bag fixmode)
| EvCacheLoad (file : String.string)
| EvCacheSave (file div_func : String.string) (K : nat) (divs : ndarray2)
| EvEigh (mat : ndarray2)
| EvKFold (n n_folds : nat)
| EvPool (n_proc : option nat)
| EvSubmit (C_idx sigma_idx f_idx : nat)
| EvSvcFit (params : svc_params) (train_km : ndarray2) (labels : list Z)
| EvSvcPredict (clf : classifier) (test_km : ndarray2).

(** The state a call runs in: the float arrays that callers hold references
    to, the number of shuffles drawn so far, and the trace. *)
Record state : Type := mkState {
  heap : list (list R);
  rng : nat;
  trace : list event
}.

Definition M (A : Type) : Type := state -> res A * state.

Definition ret {A} (a : A) : M A := fun st => (Ok a, st).

Definition bind {A B} (c : M A) (k : A -> M B) : M B :=
  fun st => match c st with
            | (Ok a, st') => k a st'
            | (Raise e, st') => (Raise e, st')
            end.

Definition raise {A} (e : exn) : M A := fun st => (Raise e, st).

Definition lift {A} (r : res A) : M A := fun st => (r, st).

Definition log (ev : event) : M unit :=
  fun st => (Ok tt, mkState (heap st) (rng st) (trace st ++ [ev])).

Definition assert_ (b : bool) : M unit :=
  if b then ret tt else raise AssertionError.

Notation "x <- c1 ;; c2" := (bind c1 (fun x => c2))
  (at level 61, c1 at next level, right associativity).
Notation "' pat <- c1 ;; c2" := (bind c1 (fun x => match x with pat => c2 end))
  (at level 61, pat pattern, c1 at next level, right associativity).
Notation "c1 ;; c2" := (bind c1 (fun _ => c2))
  (at level 61, right associativity).

Fixpoint for_each {A S} (l : list A) (body : A -> S -> M S) (s : S) : M S :=
  match l with
  | [] => ret s
  | x :: t => s' <- body x s ;; for_each t body s'
  end.

Fixpoint map_M {A B} (f : A -> M B) (l : list A) : M (list B) :=
  match l with
  | [] => ret []
  | x :: t => y <- f x ;; ys <- map_M f t ;; ret (y :: ys)
  end.

(** *** Arrays on the heap *)

Definition asarray (v : pyvals) : M nat :=
  fun st => match v with
            | NdArray a => (Ok a, st)
            | PySeq l => (Ok (length (heap st)),
                          mkState (heap st ++ [l]) (rng st) (trace st))
            end.

Definition load (a : nat) : M (list R) :=
  fun st => match nth_error (heap st) a with
            | Some l => (Ok l, st)
            | None => (Raise BadReference, st)
            end.

(** [arr *= c], in place. *)
Definition imul (a : nat) (c : R) : M unit :=
  fun st => match nth_error (heap st) a with
            | Some l => (Ok tt, mkState (update (heap st) a (map (fun x => x * c) l))
                                   (rng st) (trace st))
            | None => (Raise BadReference, st)
            end.

(** *** PSD projection and friends *)

Definition call_eigh (mat : ndarray2) : M (list R * ndarray2) :=
  log (EvEigh mat) ;; lift (eigh mat).

(** The value that [project_psd] returns. With [destroy] unset the work is
    done on a copy; with [destroy] set, lines 73 to 76 symmetrize the
    caller's matrix in place, and the caller's array holds [(mat + mat.T) / 2]
    afterwards. The matrices of the callers are values here and not cells
    of the heap, so this write to the argument is not represented: the
    definition gives the returned matrix, which is the same for both values
    of [destroy], and no statement below is about what a call leaves in its
    argument. *)
Definition project_psd (mat : ndarray2) (min_eig : R) (destroy : bool) : M ndarray2 :=
  mat <- lift (iadd mat (transpose mat)) ;;
  let mat := adiv mat 2 in
  '(vals, vecs) <- call_eigh mat ;;
  vmin <- lift (array_min vals) ;;
  if Rlt_dec vmin min_eig then
    inner <- lift (dot (diag (maximum vals min_eig)) (transpose vecs)) ;;
    mat <- lift (dot vecs inner) ;;
    mat <- lift (iadd mat (transpose mat)) ;;
    ret (adiv mat 2)
  else ret mat.

(** The first four lines of [make_km] (and the same four in [predict]):
    pass through a Gaussian. *)
Definition pass_through_gaussian (divs : ndarray2) (sigma : R) : ndarray2 :=
  aexp (adiv (asqr (adiv divs sigma)) (-2)).

Definition make_km (divs : ndarray2) (sigma : R) : M ndarray2 :=
  project_psd (pass_through_gaussian divs sigma) 0 true.

Definition split_km (km : ndarray2) (train_idx test_idx : list nat)
  : res (ndarray2 * ndarray2) :=
  res_bind (ix_ km train_idx train_idx) (fun train_km =>
  res_bind (ix_ km test_idx train_idx) (fun test_km =>
  Ok (train_km, test_km))).

(** *** Bag sequences *)

Definition len (X : bagseq bag) : nat :=
  match X with
  | BagList l | BagTuple l => length l
  | OneBag b => bag_rows b
  end.

(** [a + b] on sequences: lists with lists and tuples with tuples. *)
Definition concat_bags (a b : bagseq bag) : res (bagseq bag) :=
  match a, b with
  | BagList l, BagList l' => Ok (BagList (l ++ l'))
  | BagTuple l, BagTuple l' => Ok (BagTuple (l ++ l'))
  | BagList _, BagTuple _ | BagTuple _, BagList _ => Raise TypeError
  | _, _ => Raise Unmodelled
  end.

(** [bags[0].shape[1]] *)
Definition first_dim (X : bagseq bag) : res nat :=
  match X with
  | BagList (b :: _) | BagTuple (b :: _) => Ok (bag_dim b)
  | BagList [] | BagTuple [] => Raise IndexError
  | OneBag _ => Raise IndexError
  end.

(** [itemgetter] on the unpacked indices, applied to [bags]: no index is a TypeError, one index gives the
    bag itself, several give a tuple. *)
Definition itemgetter (idx : list nat) (bags : bagseq bag) : res (bagseq bag) :=
  match bags with
  | OneBag _ => Raise Unmodelled
  | BagList l | BagTuple l =>
      match idx with
      | [] => Raise TypeError
      | [i] => res_bind (item l i) (fun b => Ok (OneBag b))
      | _ => res_bind (take l idx) (fun bs => Ok (BagTuple bs))
      end
  end.

(** [np.squeeze] of a label vector, followed by the shape assertion
    [labels.shape == (n,)]: a vector of length one is squeezed to a scalar,
    whose shape is [()]. *)
Definition squeezed_shape_is (labels : list Z) (n : nat) : bool :=
  ((length labels =? n) && negb (length labels =? 1))%nat%bool.

(** *** Cached divs helper *)

Definition truthy (s : option String.string) : option String.string :=
  match s with
  | Some String.EmptyString => None
  | other => other
  end.

Definition call_get_divs (rq : div_request bag fixmode) : M ndarray2 :=
  log (EvGetDivs rq) ;; ret (get_divs rq).

Definition get_divs_cache (bags : bagseq bag) (div_func : String.string) (K : nat)
    (cache_filename : option String.string) (n_proc : option nat)
    (fix_mode : fixmode) (tail : R) (min_dist : option R) : M ndarray2 :=
  let compute :=
    divs <- call_get_divs
              (mkRequest bags None div_func K n_proc fix_mode tail min_dist) ;;
    match truthy cache_filename with
    | Some file => log (EvCacheSave file div_func K divs) ;; ret divs
    | None => ret divs
    end in
  match truthy cache_filename with
  | Some file =>
      if cache_exists file then
        dim <- lift (first_dim bags) ;;
        (if check_h5_settings file (len bags) dim fix_mode tail min_dist
         then ret tt else raise CacheError) ;;
        match cache_get file div_func K with
        | Some divs => log (EvCacheLoad file) ;; ret divs
        | None => compute
        end
      else compute
  | None => compute
  end.

(** *** Parameter tuning *)

Definition call_svc_fit (params : svc_params) (km : ndarray2) (labels : list Z)
  : M classifier :=
  log (EvSvcFit params km labels) ;; lift (svc_fit params km labels).

(** [clf.predict(km)] as a vector: one label per row of [km]. *)
Definition call_svc_predict (clf : classifier) (km : ndarray2) : M (list Z) :=
  log (EvSvcPredict clf km) ;;
  f <- lift (svc_predict clf km) ;;
  ret (map f (seq 0 (rows km))).

Definition try_params (km : ndarray2) (labels : list Z)
    (train_idx test_idx : list nat) (C : R) (params : R -> svc_params) : M npfloat :=
  '(train_km, test_km) <- lift (split_km km train_idx test_idx) ;;
  train_labels <- lift (take labels train_idx) ;;
  clf <- call_svc_fit (params C) train_km train_labels ;;
  preds <- call_svc_predict clf test_km ;;
  test_labels <- lift (take labels test_idx) ;;
  ret (mean_bool (eq_flags preds test_labels)).

(** The table of scores, indexed by C, sigma and fold. *)
Definition score_table : Type := nat -> nat -> nat -> npfloat.

Definition _assign_score (scores : score_table) (C_idx sigma_idx f_idx : nat)
    (val : npfloat) : score_table :=
  fun c s f =>
    if ((c =? C_idx) && (s =? sigma_idx) && (f =? f_idx))%nat%bool then val
    else scores c s f.

(** [sklearn.cross_validation.KFold(n, n_folds, shuffle=True)], as a list
    of (train, test) index arrays: the shuffled indices are cut into
    [n_folds] consecutive chunks, the first [n mod n_folds] of them one
    longer; a fold tests on one chunk and trains on the rest, both in
    increasing order. *)
Definition fold_sizes (n n_folds : nat) : list nat :=
  map (fun f => (n / n_folds + (if f <? n mod n_folds then 1 else 0))%nat)
      (seq 0 n_folds).

Fixpoint chunks (idxs : list nat) (sizes : list nat) : list (list nat) :=
  match sizes with
  | [] => []
  | s :: t => firstn s idxs :: chunks (skipn s idxs) t
  end.

Definition in_chunk (chunk : list nat) (i : nat) : bool :=
  existsb (Nat.eqb i) chunk.

Definition fold_of (n : nat) (chunk : list nat) : list nat * list nat :=
  (filter (fun i => negb (in_chunk chunk i)) (seq 0 n),
   filter (in_chunk chunk) (seq 0 n)).

Definition kfold_splits (n n_folds : nat) (idxs : list nat)
  : list (list nat * list nat) :=
  map (fold_of n) (chunks idxs (fold_sizes n n_folds)).

Definition draw_shuffle (n : nat) : M (list nat) :=
  fun st => (Ok (shuffle (rng st) n), mkState (heap st) (S (rng st)) (trace st)).

Definition KFold (n n_folds : nat) : M (list (list nat * list nat)) :=
  log (EvKFold n n_folds) ;;
  if (n_folds =? 0)%nat then raise ValueError
  else if (n <? n_folds)%nat then raise ValueError
  else idxs <- draw_shuffle n ;; ret (kfold_splits n n_folds idxs).

(** [enumerate(l)] *)
Definition enumerate {A} (l : list A) : list (nat * A) :=
  combine (seq 0 (length l)) l.

(** The dict [sigma_kms], keyed by the value of sigma. *)
Fixpoint dict_set (d : list (R * ndarray2)) (k : R) (v : ndarray2)
  : list (R * ndarray2) :=
  match d with
  | [] => [(k, v)]
  | (k', v') :: t => if Req_dec_T k' k then (k, v) :: t else (k', v') :: dict_set t k v
  end.

Fixpoint dict_get (d : list (R * ndarray2)) (k : R) : res ndarray2 :=
  match d with
  | [] => Raise IndexError
  | (k', v) :: t => if Req_dec_T k' k then Ok v else dict_get t k
  end.

(** Modelled from the spec: [get_pool] of mp_utils, which is not among the
    sources, and the [apply_async] of the pool it yields. In the words of
    the spec, the results of the tasks are collected through completion
    callbacks into the table of accuracies, the selection runs only after
    all tasks have completed, and a failing SVM fit for a single task aborts
    the whole tuning run: any exception of a worker aborts the entire
    tuning call, with no partial result salvaged and no retry. So
    [pool.apply_async(f, args, callback=cb)] hands the result of a task that
    completes to the callback, and an exception raised by a task ends the
    call of [tune_params] with that exception. Each task writes its own
    cell of the table, so the order in which the workers finish does not
    matter for a run that returns, and the tasks are run here in the order
    of submission. *)
Definition apply_async {A S} (task : M A) (callback : A -> S -> S) (s : S) : M S :=
  fun st => match task st with
            | (Ok v, st') => (Ok (callback v s), st')
            | (Raise e, st') => (Raise e, st')
            end.

Definition nan_table : score_table := fun _ _ _ => NaN.

(** [scores.mean(axis=-1)], row-major over (C, sigma). *)
Definition cv_means (scores : score_table) (n_C n_sigma num_folds : nat)
  : list npfloat :=
  flat_map (fun c =>
      map (fun s => np_mean (map (scores c s) (seq 0 num_folds))) (seq 0 n_sigma))
    (seq 0 n_C).

Definition tune_params (divs : ndarray2) (labels : list Z) (num_folds : nat)
    (n_proc : option nat) (C_vals sigma_vals : pyvals) (scale_sigma : bool)
    (weight_classes : bool) (cache_size svm_tol : R) (svm_max_iter : Z)
    (svm_shrinking : bool) : M (R * R) :=
  C_arr <- asarray C_vals ;;
  sigma_arr <- asarray sigma_vals ;;
  (if scale_sigma then
     m <- lift (median (positive_entries divs)) ;; imul sigma_arr m
   else ret tt) ;;
  Cs <- load C_arr ;;
  sigmas <- load sigma_arr ;;
  if ((length Cs <=? 1) && (length sigmas <=? 1))%nat%bool then
    (* no tuning necessary *)
    c0 <- lift (item Cs 0) ;;
    s0 <- lift (item sigmas 0) ;;
    ret (c0, s0)
  else
    let num_bags := rows divs in
    assert_ (cols divs =? num_bags)%nat ;;
    assert_ (length labels =? num_bags)%nat ;;
    let svm_params := fun C =>
      mkSvc C cache_size weight_classes svm_tol svm_max_iter svm_shrinking in
    (* get kernel matrices for the sigma vals we're trying *)
    sigma_kms <- for_each sigmas
                   (fun sigma d => km <- make_km divs sigma ;; ret (dict_set d sigma km))
                   [] ;;
    (* try each sigma/C combination and see how they do *)
    folds <- KFold num_bags num_folds ;;
    log (EvPool n_proc) ;;
    scores <- for_each (list_prod (enumerate Cs) (enumerate sigmas))
                (fun '((C_idx, C), (sigma_idx, sigma)) scores =>
                   for_each (enumerate folds)
                     (fun '(f_idx, (train, test)) scores =>
                        km <- lift (dict_get sigma_kms sigma) ;;
                        log (EvSubmit C_idx sigma_idx f_idx) ;;
                        apply_async
                          (try_params km labels train test C svm_params)
                          (fun val sc => _assign_score sc C_idx sigma_idx f_idx val)
                          scores)
                     scores)
                nan_table ;;
    (* figure out which ones were best *)
    let means := cv_means scores (length Cs) (length sigmas) num_folds in
    best <- lift (np_argmax means) ;;
    let best_C := (best / length sigmas)%nat in
    let best_sigma := (best mod length sigmas)%nat in
    s <- lift (item sigmas best_sigma) ;;
    c <- lift (item Cs best_C) ;;
    ret (s, c).

(** *** Main dealio *)

(** The keyword arguments that [crossvalidate] collects in [opts] and hands
    on: to [transduct], or to the constructor of the estimator. *)
Record options : Type := mkOptions {
  opt_div_func : String.string;
  opt_K : nat;
  opt_tuning_folds : nat;
  opt_n_proc : option nat;
  opt_C_vals : pyvals;
  opt_sigma_vals : pyvals;
  opt_scale_sigma : bool;
  opt_weight_classes : bool;
  opt_cache_size : R;
  opt_tuning_cache_size : R;
  opt_svm_tol : R;
  opt_tuning_svm_tol : R;
  opt_svm_max_iter : Z;
  opt_tuning_svm_max_iter : Z;
  opt_svm_shrinking : bool;
  opt_fix_mode : fixmode;
  opt_tail : R
}.

(** The estimator object: its parameters, and the attributes that [fit]
    sets. *)
Record SupportDistributionMachine : Type := mkSDM {
  div_func : String.string;
  K : nat;
  tuning_folds : nat;
  n_proc : option nat;
  C_vals : pyvals;
  sigma_vals : pyvals;
  scale_sigma : bool;
  weight_classes : bool;
  cache_size : R;
  tuning_cache_size : R;
  svm_tol : R;
  tuning_svm_tol : R;
  svm_max_iter : Z;
  tuning_svm_max_iter : Z;
  svm_shrinking : bool;
  fix_mode : fixmode;
  tail : R;
  min_dist : option R;
  train_bags_ : option (list bag);
  sigma_ : option R;
  C_ : option R;
  svm_ : option classifier
}.

Definition __init__ (o : options) (min_dist : option R) : SupportDistributionMachine :=
  mkSDM (opt_div_func o) (opt_K o) (opt_tuning_folds o) (opt_n_proc o)
        (opt_C_vals o) (opt_sigma_vals o) (opt_scale_sigma o)
        (opt_weight_classes o) (opt_cache_size o) (opt_tuning_cache_size o)
        (opt_svm_tol o) (opt_tuning_svm_tol o) (opt_svm_max_iter o)
        (opt_tuning_svm_max_iter o) (opt_svm_shrinking o)
        FIX_MODE_DEFAULT (opt_tail o) min_dist
        None None None None.

(** [self] after the four assignments of [fit]. *)
Definition fitted (self : SupportDistributionMachine) (train_bags : list bag)
    (sigma C : R) (clf : classifier) : SupportDistributionMachine :=
  mkSDM (div_func self) (K self) (tuning_folds self) (n_proc self)
        (C_vals self) (sigma_vals self) (scale_sigma self)
        (weight_classes self) (cache_size self) (tuning_cache_size self)
        (svm_tol self) (tuning_svm_tol self) (svm_max_iter self)
        (tuning_svm_max_iter self) (svm_shrinking self)
        (fix_mode self) (tail self) (min_dist self)
        (Some train_bags) (Some sigma) (Some C) (Some clf).

(** Indexing with a boolean mask: the positions that are set, and the items
    there. *)
Definition nonzero (m : list bool) : list nat :=
  map fst (filter snd (enumerate m)).

Definition select {A} (m : list bool) (l : list A) : list A :=
  map snd (filter fst (combine m l)).

Definition attr {A} (a : option A) : M A :=
  match a with
  | Some x => ret x
  | None => raise AttributeError
  end.

(** [fit] returns the estimator with its fitted attributes; an estimator
    whose [fit] raised is not used again by any caller here. *)
Definition fit (self : SupportDistributionMachine) (X : bagseq bag) (y : list Z)
    (divs : option ndarray2) (divs_cache : option String.string)
  : M SupportDistributionMachine :=
  let n_bags := len X in
  assert_ (squeezed_shape_is y n_bags) ;;
  assert_ (forallb (fun v => (-1 <=? v)%Z) y) ;;
  let train_idx := map (fun v => negb (v =? -1)%Z) y in
  let train_y := select train_idx y in
  assert_ (2 <=? length train_y)%nat ;;
  train_bags <- lift (match X with
                      | BagList l | BagTuple l => Ok (select train_idx l)
                      | OneBag _ => Raise Unmodelled
                      end) ;;
  (* get divergences *)
  divs <- match divs with
          | None => get_divs_cache X (div_func self) (K self) divs_cache
                      (n_proc self) (fix_mode self) (tail self) (min_dist self)
          | Some d => assert_ ((rows d =? n_bags) && (cols d =? n_bags))%nat%bool ;;
                      ret d
          end ;;
  (* tune params *)
  sub <- lift (ix_ divs (nonzero train_idx) (nonzero train_idx)) ;;
  '(sigma, C) <- tune_params sub train_y (tuning_folds self) (n_proc self)
                   (C_vals self) (sigma_vals self) (scale_sigma self)
                   (weight_classes self) (tuning_cache_size self)
                   (tuning_svm_tol self) (tuning_svm_max_iter self)
                   (svm_shrinking self) ;;
  (* project the final Gram matrix *)
  km <- make_km divs sigma ;;
  train_km <- lift (ix_ km (nonzero train_idx) (nonzero train_idx)) ;;
  (* train the selected SVM *)
  clf <- call_svc_fit
           (mkSvc C (cache_size self) (weight_classes self) (svm_tol self)
                  (svm_max_iter self) (svm_shrinking self))
           train_km train_y ;;
  ret (fitted self train_bags sigma C clf).

(** The mask of [predict]: the two cross blocks between the first [n_train]
    and the last [n_test] bags. *)
Definition cross_mask (n_train n_test : nat) : mask :=
  let n := (n_train + n_test)%nat in
  let from := slice_bound n (- Z.of_nat n_test) in
  let to := slice_bound n (Z.of_nat n_train) in
  mkMask n (fun i j =>
    (((i <? to) && (from <=? j)) || ((from <=? i) && (j <? to)))%nat%bool).

(** Line 379: [(divs[-n_test:, :n_train] + divs[:n_train, -n_test].T) / 2].
    The second operand is indexed with [-n_test], not sliced: it is one
    column, a one-dimensional array, which its transpose leaves alone and
    which the sum broadcasts along the rows. *)
Definition cross_block (divs : ndarray2) (n_train n_test : nat) : res ndarray2 :=
  let lower := cols_to (rows_from divs (- Z.of_nat n_test)) (Z.of_nat n_train) in
  res_bind (col_at (rows_to divs (Z.of_nat n_train)) (- Z.of_nat n_test))
    (fun column =>
  res_bind (badd lower (as_row column)) (fun s =>
  Ok (adiv s 2))).

Definition predict (self : SupportDistributionMachine) (data : bagseq bag)
    (divs : option ndarray2) : M (list Z) :=
  train_bags <- attr (train_bags_ self) ;;
  let n_train := length train_bags in
  let n_test := len data in
  divs <- match divs with
          | None =>
              all_bags <- lift (concat_bags (BagList train_bags) data) ;;
              d <- call_get_divs
                     (mkRequest all_bags (Some (cross_mask n_train n_test))
                        (div_func self) (K self) (n_proc self)
                        (fix_mode self) (tail self) (min_dist self)) ;;
              lift (cross_block d n_train n_test)
          | Some d => assert_ ((rows d =? n_test) && (cols d =? n_train))%nat%bool ;;
                      ret d
          end ;;
  (* pass divs through a gaussian kernel *)
  sigma <- attr (sigma_ self) ;;
  let km := pass_through_gaussian divs sigma in
  clf <- attr (svm_ self) ;;
  call_svc_predict clf km.

(** [transduct] with [return_config]: the configuration is returned along
    with the predictions, and a caller that did not ask for it drops it. *)
Definition transduct (train_bags : bagseq bag) (train_labels : list Z)
    (test_bags : bagseq bag) (o : options) (min_dist : option R)
    (divs : option ndarray2) (divs_cache : option String.string)
  : M (list Z * (R * R)) :=
  let num_train := len train_bags in
  assert_ (squeezed_shape_is train_labels num_train) ;;
  divs <- match divs with
          | None =>
              all_bags <- lift (concat_bags train_bags test_bags) ;;
              get_divs_cache all_bags (opt_div_func o) (opt_K o) divs_cache
                (opt_n_proc o) (opt_fix_mode o) (opt_tail o) min_dist
          | Some d =>
              let n_bags := (len train_bags + len test_bags)%nat in
              assert_ ((rows d =? n_bags) && (cols d =? n_bags))%nat%bool ;;
              ret d
          end ;;
  '(sigma, C) <- tune_params
                   (cols_to (rows_to divs (Z.of_nat num_train)) (Z.of_nat num_train))
                   train_labels (opt_tuning_folds o) (opt_n_proc o)
                   (opt_C_vals o) (opt_sigma_vals o) (opt_scale_sigma o)
                   (opt_weight_classes o) (opt_tuning_cache_size o)
                   (opt_tuning_svm_tol o) (opt_tuning_svm_max_iter o)
                   (opt_svm_shrinking o) ;;
  km <- make_km divs sigma ;;
  '(train_km, test_km) <- lift (split_km km (seq 0 num_train)
                                  (seq num_train (rows divs - num_train))) ;;
  clf <- call_svc_fit
           (mkSvc C (opt_cache_size o) (opt_weight_classes o) (opt_svm_tol o)
                  (opt_svm_max_iter o) (opt_svm_shrinking o))
           train_km train_labels ;;
  preds <- call_svc_predict clf test_km ;;
  ret (preds, (sigma, C)).

(** *** Cross-validation helper *)

(** [preds[idx] = vals]: as many values as indices, or a single value for
    all of them. *)
Definition assign (preds : list Z) (idx : list nat) (vals : list Z) : res (list Z) :=
  if negb (in_range (length preds) idx) then Raise IndexError
  else if (length vals =? length idx)%nat then
    Ok (fold_left (fun p iv => update p (fst iv) (snd iv)) (combine idx vals) preds)
  else match vals with
       | [v] => Ok (fold_left (fun p i => update p i v) idx preds)
       | _ => Raise ValueError
       end.

Definition bag_ok (dim : nat) (b : bag) : bool :=
  ((bag_dim b =? dim) && (0 <? bag_rows b))%nat%bool.

Definition bags_ok (dim : nat) (bags : bagseq bag) : res bool :=
  match bags with
  | BagList l | BagTuple l => Ok (forallb (bag_ok dim) l)
  | OneBag _ => Raise Unmodelled
  end.

(** [min_dist] is not among the options handed on: the folds run with its
    default, [None]. *)
Definition crossvalidate (bags : bagseq bag) (labels : list Z) (num_folds : nat)
    (project_all : bool) (o : options) (min_dist : option R)
    (divs : option ndarray2) (divs_cache : option String.string)
  : M (npfloat * list Z) :=
  let num_bags := len bags in
  dim <- lift (first_dim bags) ;;
  ok <- lift (bags_ok dim bags) ;;
  assert_ ok ;;
  assert_ (squeezed_shape_is labels num_bags) ;;
  divs <- match divs with
          | None => get_divs_cache bags (opt_div_func o) (opt_K o) divs_cache
                      None (opt_fix_mode o) (opt_tail o) min_dist
          | Some d => assert_ ((rows d =? num_bags) && (cols d =? num_bags))%nat%bool ;;
                      ret d
          end ;;
  folds <- KFold num_bags num_folds ;;
  preds <- for_each folds
             (fun '(train, test) preds =>
                train_bags <- lift (itemgetter train bags) ;;
                train_labels <- lift (take labels train) ;;
                test_bags <- lift (itemgetter test bags) ;;
                let both := train ++ test in
                if project_all then
                  sub <- lift (ix_ divs both both) ;;
                  '(p, _) <- transduct train_bags train_labels test_bags o None
                               (Some sub) None ;;
                  lift (assign preds test p)
                else
                  let clf := __init__ o None in
                  sub <- lift (ix_ divs train train) ;;
                  clf <- fit clf train_bags train_labels (Some sub) None ;;
                  p <- predict clf test_bags None ;;
                  lift (assign preds test p))
             (repeat (-1)%Z num_bags) ;;
  ret (mean_bool (eq_flags preds labels), preds).

End Program.

Arguments event {E}.
Arguments state {E}.

(** ** Concrete collaborators for worked examples *)

(** A matrix written out by rows. *)
Definition of_rows (l : list (list R)) : ndarray2 :=
  mk2 (length l) (length (hd [] l)) (fun i j => nth j (nth i l []) 0).

Definition identity (n : nat) : ndarray2 :=
  mk2 n n (fun i j => if (i =? j)%nat then 1 else 0).

(** Collaborators for the examples: a bag is known by its number of points,
    the divergence estimator answers with one fixed matrix, there is no
    cache file, a fitted classifier is the one label it predicts for every
    row, and the shuffle is given. *)
Definition example_world (divs : ndarray2)
    (eig : ndarray2 -> res (list R * ndarray2))
    (solver : svc_params -> ndarray2 -> list Z -> res Z)
    (perm : nat -> nat -> list nat) : Externals :=
  {| bag := nat;
     bag_rows := fun b => b;
     bag_dim := fun _ => 2%nat;
     fixmode := bool;
     FIX_MODE_DEFAULT := false;
     TAIL_DEFAULT := 0;
     classifier := Z;
     get_divs := fun _ => divs;
     cache_exists := fun _ => false;
     check_h5_settings := fun _ _ _ _ _ _ => true;
     cache_get := fun _ _ _ => None;
     eigh := eig;
     svc_fit := solver;
     svc_predict := fun clf _ => Ok (fun _ => clf);
     shuffle := perm |}.

(** An eigendecomposition that is right for the identity matrix. *)
Definition eig_identity (m : ndarray2) : res (list R * ndarray2) :=
  Ok (repeat 1 (rows m), identity (rows m)).

(** A solver that always answers with the classifier predicting [0]. *)
Definition solver_zero (_ : svc_params) (_ : ndarray2) (_ : list Z) : res Z := Ok 0%Z.

Definition no_shuffle (_ n : nat) : list nat := seq 0 n.

Definition plain_world : Externals :=
  example_world (of_rows [[0; 1]; [1; 0]]) eig_identity solver_zero no_shuffle.

(** ** Vocabulary of the statements *)

(** Every event that a computation appends to the trace satisfies [P]; the
    earlier part of the trace stays. *)
Definition emits `{E : Externals} {A} (P : event -> Prop) (c : M A) : Prop :=
  forall st r st', c st = (r, st') ->
    exists evs, trace st' = trace st ++ evs /\ Forall P evs.

(** The options with another [fix_mode]. *)
Definition with_fix_mode `{E : Externals} (o : options) (fm : fixmode) : options :=
  mkOptions (opt_div_func o) (opt_K o) (opt_tuning_folds o) (opt_n_proc o)
    (opt_C_vals o) (opt_sigma_vals o) (opt_scale_sigma o) (opt_weight_classes o)
    (opt_cache_size o) (opt_tuning_cache_size o) (opt_svm_tol o)
    (opt_tuning_svm_tol o) (opt_svm_max_iter o) (opt_tuning_svm_max_iter o)
    (opt_svm_shrinking o) fm (opt_tail o).

(** A request to the divergence estimator made with the default fix mode. *)
Definition default_fix_mode `{E : Externals} (ev : event) : Prop :=
  match ev with
  | EvGetDivs rq => rq_fix_mode rq = FIX_MODE_DEFAULT
  | _ => True
  end.

(** A divergence matrix over two training and two test bags, directional:
    [D[i][j]] differs from [D[j][i]]. *)
Definition example_cross_divs : ndarray2 :=
  of_rows [[0; 1; 2; 3];
           [1; 0; 4; 5];
           [6; 7; 0; 1];
           [8; 9; 1; 0]].

Definition cross_world : Externals :=
  example_world example_cross_divs eig_identity solver_zero no_shuffle.

(** An estimator of [cross_world] after a [fit] on two bags that selected
    sigma = 1 and C = 1. *)
Definition example_options : options (E := cross_world) :=
  mkOptions (E := cross_world) "renyi:.9"%string 3 3 None (PySeq [1]) (PySeq [1])
    false false 1000 1000 (1 / 1000) (1 / 1000) 1000000%Z 1000%Z true false 0.

Definition example_fitted : SupportDistributionMachine (E := cross_world) :=
  fitted (E := cross_world) (__init__ example_options None) [20%nat; 20%nat] 1 1 0%Z.

(** The heap is left as it was. *)
Definition keeps_heap `{E : Externals} {A} (c : M A) : Prop :=
  forall st r st', c st = (r, st') -> heap st' = heap st.

(** Two bags at divergence 3 from each other; the median of the positive
    divergences is 3. *)
Definition example_pair_divs : ndarray2 := of_rows [[0; 3]; [3; 0]].

(** A caller that holds its sigma grid as an ndarray: the array [[2.0]] at
    address 0 of the heap. *)
Definition example_heap_state : state (E := plain_world) :=
  mkState (E := plain_world) [[2]] 0 [].

(** The heap after [np.asarray(v)], and the handle of the array. *)
Definition after_asarray (v : pyvals) (h : list (list R)) : nat * list (list R) :=
  match v with
  | NdArray a => (a, h)
  | PySeq l => (length h, h ++ [l])
  end.

(** The heap after the first lines of [tune_params] (171 to 174). *)
Definition after_scaling (C_vals sigma_vals : pyvals) (scale_sigma : bool)
    (divs : ndarray2) (h : list (list R)) : list (list R) :=
  let (_, h1) := after_asarray C_vals h in
  let (sigma_arr, h2) := after_asarray sigma_vals h1 in
  if scale_sigma then
    match median (positive_entries divs), nth_error h2 sigma_arr with
    | Ok m, Some l => update h2 sigma_arr (map (fun x => x * m) l)
    | _, _ => h2
    end
  else h2.

(** Four bags, 0 and 1 of one class and 2 and 3 of the other: divergence 1
    within a class and 3 across. *)
Definition example_four_divs : ndarray2 :=
  of_rows [[0; 1; 3; 3];
           [1; 0; 3; 3];
           [3; 3; 0; 1];
           [3; 3; 1; 0]].



Definition four_world : Externals :=
  example_world example_four_divs eig_identity solver_zero no_shuffle.

(** *** Matrices as quadratic forms *)

Definition symmetric (a : ndarray2) : Prop :=
  rows a = cols a /\
  forall i j, (i < rows a)%nat -> (j < rows a)%nat -> entry a i j = entry a j i.

(** [x^T a x] and [x^T x], for [x] of the size of [a]. *)
Definition quad_form (a : ndarray2) (x : nat -> R) : R :=
  sum_n (fun i => sum_n (fun j => x i * entry a i j * x j) (rows a)) (rows a).

Definition norm2 (n : nat) (x : nat -> R) : R := sum_n (fun i => x i * x i) n.

(** [a x = lam x] for a vector [x] that is not zero. *)
Definition eigenpair (a : ndarray2) (lam : R) (x : nat -> R) : Prop :=
  (exists i, (i < rows a)%nat /\ x i <> 0) /\
  forall i, (i < rows a)%nat ->
    sum_n (fun j => entry a i j * x j) (rows a) = lam * x i.

Definition positive_semidefinite (a : ndarray2) : Prop :=
  forall x, 0 <= quad_form a x.

(** What [scipy.linalg.eigh] promises for a symmetric [a]: as many
    eigenvalues as rows, an orthogonal matrix of eigenvectors, and
    [a = vecs diag(vals) vecs^T]. *)
Definition eigh_contract (a : ndarray2) (vals : list R) (vecs : ndarray2) : Prop :=
  let n := rows a in
  length vals = n /\ rows vecs = n /\ cols vecs = n /\
  (forall i j, (i < n)%nat -> (j < n)%nat ->
     sum_n (fun k => entry vecs i k * entry vecs j k) n
     = if (i =? j)%nat then 1 else 0) /\
  (forall i j, (i < n)%nat -> (j < n)%nat ->
     sum_n (fun k => entry vecs k i * entry vecs k j) n
     = if (i =? j)%nat then 1 else 0) /\
  (forall i j, (i < n)%nat -> (j < n)%nat ->
     entry a i j
     = sum_n (fun k => entry vecs i k * nth k vals 0 * entry vecs j k) n).

(** [vecs diag(max(vals, floor)) vecs^T] at (i, j). *)
Definition clamped_entry (vals : list R) (vecs : ndarray2) (floor : R) (n i j : nat) : R :=
  sum_n (fun k => entry vecs i k * Rmax (nth k vals 0) floor * entry vecs j k) n.

(** An eigendecomposition that is right for diagonal 2 x 2 matrices. *)
Definition eig_diagonal (m : ndarray2) : res (list R * ndarray2) :=
  Ok ([entry m 0 0; entry m 1 1], identity 2).

Definition diagonal_world : Externals :=
  example_world (of_rows [[0; 1]; [1; 0]]) eig_diagonal solver_zero no_shuffle.

(** A symmetric matrix with a negative eigenvalue, and one without. *)
Definition example_indefinite : ndarray2 := of_rows [[-1; 0]; [0; 2]].
Definition example_definite : ndarray2 := of_rows [[1; 0]; [0; 2]].

Definition diagonal_start : state (E := diagonal_world) :=
  mkState (E := diagonal_world) [] 0 [].

(** *** Folds and predictions *)

(** How many of the folds test on index [i]. *)
Definition tests_containing (folds : list (list nat * list nat)) (i : nat) : nat :=
  length (filter (fun fold => existsb (Nat.eqb i) (snd fold)) folds).

(** The loop of [crossvalidate] seen from the outside: fold after fold, a
    vector of predictions is assigned at the test indices of the fold. *)
Inductive filled : list (list nat * list nat) -> list Z -> list Z -> Prop :=
| filled_nil (preds : list Z) : filled [] preds preds
| filled_cons (train test : list nat) (rest : list (list nat * list nat))
    (preds vals preds' preds'' : list Z) :
    assign preds test vals = Ok preds' ->
    filled rest preds' preds'' ->
    filled ((train, test) :: rest) preds preds''.

(** The number of positions at which two label vectors agree. *)
Definition agreements (preds labels : list Z) : nat :=
  length (filter (fun p => (fst p =? snd p)%Z) (combine preds labels)).

(** Options with one candidate in each grid and no rescaling. *)
Definition four_options : options (E := four_world) :=
  mkOptions (E := four_world) "renyi:.9"%string 3 3 None (PySeq [1]) (PySeq [1])
    false false 1000 1000 (1 / 1000) (1 / 1000) 1000000%Z 1000%Z true false 0.

Definition four_bags : bagseq (bag (Externals := four_world)) :=
  BagList [20%nat; 20%nat; 20%nat; 20%nat].

Definition four_start : state (E := four_world) := mkState (E := four_world) [] 0 [].

(** A fit never sees a sentinel label. *)
Definition no_sentinel_fit `{E : Externals} (ev : event) : Prop :=
  match ev with
  | EvSvcFit _ _ labels => Forall (fun v => v <> (-1)%Z) labels
  | _ => True
  end.

(** Every eigendecomposition in the trace is of a matrix over the labeled
    bags alone. *)
Definition projects_labeled_only `{E : Externals} (y : list Z) (tr : list event) : Prop :=
  forall m, In (EvEigh m) tr ->
    rows m = length (select (map (fun v => negb (v =? -1)%Z) y) y).

(** Three bags, the last one unlabeled. *)
Definition example_three_divs : ndarray2 :=
  of_rows [[0; 1; 2];
           [1; 0; 2];
           [2; 2; 0]].

Definition three_world : Externals :=
  example_world example_three_divs eig_identity solver_zero no_shuffle.

Definition three_options : options (E := three_world) :=
  mkOptions (E := three_world) "renyi:.9"%string 3 3 None (PySeq [1]) (PySeq [1])
    false false 1000 1000 (1 / 1000) (1 / 1000) 1000000%Z 1000%Z true false 0.

Definition three_bags : bagseq (bag (Externals := three_world)) :=
  BagList [20%nat; 21%nat; 22%nat].

Definition three_start : state (E := three_world) := mkState (E := three_world) [] 0 [].

(** [y != -1]: the mask of the labeled bags. *)
Definition labeled (y : list Z) : list bool := map (fun v => negb (v =? -1)%Z) y.



(** Four bags at divergence 3 within a class and 5 across, and a caller of
    [crossvalidate] that holds its sigma grid as the ndarray [[2.0, 4.0]]
    at address 0 of the heap and asks for rescaling. *)
Definition example_drift_divs : ndarray2 :=
  of_rows [[0; 3; 5; 5];
           [3; 0; 5; 5];
           [5; 5; 0; 3];
           [5; 5; 3; 0]].

Definition drift_world : Externals :=
  example_world example_drift_divs eig_identity solver_zero no_shuffle.

Definition drift_options : options (E := drift_world) :=
  mkOptions (E := drift_world) "renyi:.9"%string 3 2 None (PySeq [1]) (NdArray 0)
    true false 1000 1000 (1 / 1000) (1 / 1000) 1000000%Z 1000%Z true false 0.

Definition drift_bags : bagseq (bag (Externals := drift_world)) :=
  BagList [20%nat; 20%nat; 20%nat; 20%nat].

Definition drift_start : state (E := drift_world) :=
  mkState (E := drift_world) [[2; 4]] 0 [].

(** *** The tuner on grids passed as sequences *)

(** The sigma candidates after line 174. *)
Definition scaled_sigmas (scale_sigma : bool) (divs : ndarray2) (sigma_vals : list R)
  : res (list R) :=
  if scale_sigma then
    res_bind (median (positive_entries divs))
      (fun m => Ok (map (fun x => x * m) sigma_vals))
  else Ok sigma_vals.

(** [tune_params] from line 176 on, as a function of the two arrays it has
    loaded. *)
Definition tune_params_body `{E : Externals} (divs : ndarray2) (labels : list Z)
    (num_folds : nat) (n_proc : option nat) (Cs sigmas : list R)
    (weight_classes : bool) (cache_size svm_tol : R) (svm_max_iter : Z)
    (svm_shrinking : bool) : M (R * R) :=
  if ((length Cs <=? 1) && (length sigmas <=? 1))%nat%bool then
    bind (lift (item Cs 0)) (fun c0 =>
    bind (lift (item sigmas 0)) (fun s0 =>
    ret (c0, s0)))
  else
    let num_bags := rows divs in
    bind (assert_ (cols divs =? num_bags)%nat) (fun _ =>
    bind (assert_ (length labels =? num_bags)%nat) (fun _ =>
    let svm_params := fun C =>
      mkSvc C cache_size weight_classes svm_tol svm_max_iter svm_shrinking in
    bind (for_each sigmas
            (fun sigma d => bind (make_km divs sigma)
                              (fun km => ret (dict_set d sigma km)))
            []) (fun sigma_kms =>
    bind (KFold num_bags num_folds) (fun folds =>
    bind (log (EvPool n_proc)) (fun _ =>
    bind (for_each (list_prod (enumerate Cs) (enumerate sigmas))
            (fun '((C_idx, C), (sigma_idx, sigma)) scores =>
               for_each (enumerate folds)
                 (fun '(f_idx, (train, test)) scores =>
                    bind (lift (dict_get sigma_kms sigma)) (fun km =>
                    bind (log (EvSubmit C_idx sigma_idx f_idx)) (fun _ =>
                    apply_async
                      (try_params km labels train test C svm_params)
                      (fun val sc => _assign_score sc C_idx sigma_idx f_idx val)
                      scores)))
                 scores)
            nan_table) (fun scores =>
    let means := cv_means scores (length Cs) (length sigmas) num_folds in
    bind (lift (np_argmax means)) (fun best =>
    let best_C := (best / length sigmas)%nat in
    let best_sigma := (best mod length sigmas)%nat in
    bind (lift (item sigmas best_sigma)) (fun s =>
    bind (lift (item Cs best_C)) (fun c =>
    ret (s, c)))))))))).

(** The value of a computation does not depend on the state it runs in. *)
Definition stateless `{E : Externals} {A} (c : M A) : Prop :=
  forall st1 st2, fst (c st1) = fst (c st2).

(** The shuffle counter is left as it was. *)
Definition keeps_rng `{E : Externals} {A} (c : M A) : Prop :=
  forall st r st', c st = (r, st') -> rng st' = rng st.

(** A state with nothing on the heap, no shuffle drawn and an empty trace. *)
Definition fresh_state `{E : Externals} : state := mkState [] 0 [].

(** The kernel that [make_km] returns for a bandwidth, and the score that
    [try_params] returns for a task: neither depends on the state of the
    run. A task that raises has no score, and nan stands in for it here;
    in a run of the tuner that returns, every task has returned one. *)
Definition kernel_of `{E : Externals} (divs : ndarray2) (sigma : R) : res ndarray2 :=
  fst (make_km divs sigma fresh_state).

Definition task_score `{E : Externals} (km : ndarray2) (labels : list Z)
    (train test : list nat) (C : R) (params : R -> svc_params) : npfloat :=
  match fst (try_params km labels train test C params fresh_state) with
  | Ok v => v
  | Raise _ => NaN
  end.

(** The score that the table should hold at (C index, sigma index, fold
    index) once every task has reported. *)
Definition expected_score `{E : Externals} (divs : ndarray2) (labels : list Z)
    (folds : list (list nat * list nat)) (Cs sigmas : list R)
    (params : R -> svc_params) (c s f : nat) : npfloat :=
  match nth_error Cs c, nth_error sigmas s, nth_error folds f with
  | Some C, Some sigma, Some (train, test) =>
      match kernel_of divs sigma with
      | Ok km => task_score km labels train test C params
      | Raise _ => NaN
      end
  | _, _, _ => NaN
  end.

(** The mean at [best] is the largest of the means. *)
Definition a_maximum (means : list npfloat) (best : nat) : Prop :=
  exists v, nth_error means best = Some (Fin v) /\
    forall j w, nth_error means j = Some (Fin w) -> w <= v.

(** [x] is the largest of the means, and the first to be so. *)
Definition first_maximum (means : list npfloat) (best : nat) : Prop :=
  exists v, nth_error means best = Some (Fin v) /\
    forall j w, nth_error means j = Some (Fin w) ->
      w <= v /\ ((j < best)%nat -> w < v).

Definition first_nan (means : list npfloat) (best : nat) : Prop :=
  nth_error means best = Some NaN /\
  forall j, (j < best)%nat -> nth_error means j <> Some NaN.

(** The (C index, sigma index, fold index) triples of the tasks submitted,
    in the order of submission. *)
Definition submitted `{E : Externals} (tr : list event) : list (nat * nat * nat) :=
  flat_map (fun ev => match ev with
                      | EvSubmit c s f => [(c, s, f)]
                      | _ => []
                      end) tr.

(** The matrices handed to [eigh], in order. *)
Definition decomposed `{E : Externals} (tr : list event) : list ndarray2 :=
  flat_map (fun ev => match ev with
                      | EvEigh m => [m]
                      | _ => []
                      end) tr.

(** The requests made to the divergence estimator, in order. *)
Definition requested `{E : Externals} (tr : list event)
  : list (div_request bag fixmode) :=
  flat_map (fun ev => match ev with
                      | EvGetDivs rq => [rq]
                      | _ => []
                      end) tr.

(** *** One candidate in each grid *)

(** Options with the single candidates C = 2 and sigma = 5. *)
Definition swap_options : options (E := three_world) :=
  mkOptions (E := three_world) "renyi:.9"%string 3 3 None (PySeq [2]) (PySeq [5])
    false false 1000 1000 (1 / 1000) (1 / 1000) 1000000%Z 1000%Z true false 0.

(** *** Requests to the divergence estimator *)

(** A computation sends no request to the divergence estimator, however it
    ends. *)
Definition asks_nothing `{E : Externals} {A} (c : M A) : Prop :=
  forall st r st', c st = (r, st') ->
    requested (trace st') = requested (trace st).

(** A computation sends at most one request, and if it sends one it is
    [rq]. *)
Definition asks_at_most `{E : Externals} {A} (rq : div_request bag fixmode)
    (c : M A) : Prop :=
  forall st r st', c st = (r, st') ->
    requested (trace st') = requested (trace st) \/
    requested (trace st') = requested (trace st) ++ [rq].

(** Two bags whose divergence is 40 times a bandwidth of 1. *)
Definition example_far_divs : ndarray2 :=
  of_rows [[0; 40];
           [40; 0]].

(** One fold of [crossvalidate] with [project_all] set, lines 542 to 550:
    the bags and the labels of the fold are picked, [transduct] runs on
    them with the block of the divergences over the training indices
    followed by the test indices, and answers with the predictions [pv]. *)
Definition fold_predicts `{E : Externals} (bags : bagseq bag) (labels : list Z)
    (o : options) (divs : ndarray2) (train test : list nat) (pv : list Z) : Prop :=
  exists train_bags train_labels test_bags sub cfg st1 st2,
    itemgetter train bags = Ok train_bags /\
    take labels train = Ok train_labels /\
    itemgetter test bags = Ok test_bags /\
    ix_ divs (train ++ test) (train ++ test) = Ok sub /\
    transduct train_bags train_labels test_bags o None (Some sub) None st1
    = (Ok (pv, cfg), st2).

(** The loop of [crossvalidate] with what each fold assigns:
    [Q train test vals] holds of the values assigned at the test indices
    of a fold. *)
Inductive filled_by (Q : list nat -> list nat -> list Z -> Prop)
  : list (list nat * list nat) -> list Z -> list Z -> Prop :=
| filled_by_nil (preds : list Z) : filled_by Q [] preds preds
| filled_by_cons (train test : list nat) (rest : list (list nat * list nat))
    (preds vals preds' preds'' : list Z) :
    Q train test vals ->
    assign preds test vals = Ok preds' ->
    filled_by Q rest preds' preds'' ->
    filled_by Q ((train, test) :: rest) preds preds''.

(** * Properties *)

(** ** The Gaussian transform *)

Lemma gaussian_entry (divs : ndarray2) (sigma : R) (i j : nat) :
  entry (pass_through_gaussian divs sigma) i j
  = np_exp (- ((entry divs i j / sigma) ^ 2) / 2).
Proof.
  unfold pass_through_gaussian, aexp, adiv, asqr, amap; simpl.
  f_equal. generalize ((entry divs i j / sigma) ^ 2). intros q. lra.
Qed.

Lemma gaussian_shape (divs : ndarray2) (sigma : R) :
  rows (pass_through_gaussian divs sigma) = rows divs /\
  cols (pass_through_gaussian divs sigma) = cols divs.
Proof. split; reflexivity. Qed.

Lemma exp_neg_range (x : R) : 0 <= x -> 0 < exp (- x) <= 1.
Proof.
  intros Hx. split; [apply exp_pos|].
  destruct (Req_dec x 0) as [->|Hne].
  - rewrite Ropp_0, exp_0. lra.
  - rewrite <- exp_0. left. apply exp_increasing. lra.
Qed.

Lemma exp_neg_lower (x : R) : 1 - x <= exp (- x).
Proof.
  destruct (Req_dec x 0) as [->|Hne].
  - rewrite Ropp_0, exp_0. lra.
  - pose proof (exp_ineq1 (- x)) as H. lra.
Qed.

Lemma half_square_nonneg (d sigma : R) : 0 <= (d / sigma) ^ 2 / 2.
Proof. pose proof (pow2_ge_0 (d / sigma)). lra. Qed.

Lemma gaussian_near_one (sigma eps : R) :
  0 < sigma -> 0 < eps ->
  exists delta, 0 < delta /\
    forall d, 0 <= d < delta -> 1 - eps < exp (- ((d / sigma) ^ 2) / 2).
Proof.
  intros Hs He.
  exists (sigma * Rmin 1 eps). split.
  - apply Rmult_lt_0_compat; [lra|]. apply Rmin_glb_lt; lra.
  - intros d [Hd0 Hd].
    assert (Hq : 0 <= d / sigma < Rmin 1 eps).
    { split.
      - apply Rmult_le_pos; [lra|]. left. now apply Rinv_0_lt_compat.
      - apply (Rmult_lt_reg_r sigma); [lra|].
        unfold Rdiv. rewrite Rmult_assoc, Rinv_l by lra. lra. }
    set (q := d / sigma) in *.
    pose proof (Rmin_l 1 eps). pose proof (Rmin_r 1 eps).
    assert (Hsq : q ^ 2 <= q) by nra.
    pose proof (exp_neg_lower (q ^ 2 / 2)) as Hl.
    replace (- q ^ 2 / 2) with (- (q ^ 2 / 2)) by lra.
    lra.
Qed.

(** ** Underflow of [np.exp] *)

Lemma np_exp_exact (x : R) : / 2 ^ 1075 < exp x -> np_exp x = exp x.
Proof. intros H. unfold np_exp. destruct (Rle_dec _ _); [lra|reflexivity]. Qed.

Lemma np_exp_underflow (x : R) : exp x <= / 2 ^ 1075 -> np_exp x = 0.
Proof. intros H. unfold np_exp. destruct (Rle_dec _ _); [reflexivity|lra]. Qed.

Lemma np_exp_range (x : R) : 0 <= x -> 0 <= np_exp (- x) <= 1.
Proof.
  intros Hx. pose proof (exp_neg_range x Hx).
  unfold np_exp. destruct (Rle_dec _ _); lra.
Qed.

Lemma least_float_below_half : / 2 ^ 1075 < 1 / 2.
Proof.
  change (2 ^ 1075) with (2 * 2 ^ 1074).
  assert (H : 1 < 2 ^ 1074) by (apply Rlt_pow_R1; [lra|lia]).
  assert (Hp : 0 < 2 * 2 ^ 1074) by lra.
  apply (Rmult_lt_reg_r (2 * 2 ^ 1074)); [exact Hp|].
  rewrite Rinv_l by lra. lra.
Qed.

Lemma exp_times (x : R) (n : nat) : exp (INR n * x) = exp x ^ n.
Proof.
  induction n as [|n IH].
  - simpl. rewrite Rmult_0_l. apply exp_0.
  - rewrite S_INR, Rmult_plus_distr_r, Rmult_1_l, exp_plus, IH. simpl. ring.
Qed.

(** exp(800) is above 2^1075: exp(1/8) > 9/8, so exp(8) > (9/8)^64 > 1876,
    and 1876^100 > 2^1075. *)
Lemma exp_8_large : 1876 <= exp 8.
Proof.
  replace 8 with (INR 64 * (1 / 8)) at 1.
  2:{ rewrite INR_IZR_INZ. change (Z.of_nat 64) with 64%Z. lra. }
  rewrite exp_times.
  assert (H98 : 9 / 8 <= exp (1 / 8)).
  { pose proof (exp_ineq1 (1 / 8)). lra. }
  apply Rle_trans with ((9 / 8) ^ 64); [|apply pow_incr; lra].
  assert (Hpow : (9 / 8) ^ 64 = 9 ^ 64 / 8 ^ 64).
  { unfold Rdiv. rewrite Rpow_mult_distr, pow_inv. reflexivity. }
  rewrite Hpow.
  assert (H8 : 0 < 8 ^ 64) by (apply pow_lt; lra).
  apply (Rmult_le_reg_r (8 ^ 64)); [exact H8|].
  unfold Rdiv. rewrite Rmult_assoc, Rinv_l by lra. rewrite Rmult_1_r.
  rewrite !pow_IZR, <- mult_IZR. apply IZR_le.
  vm_compute. discriminate.
Qed.

Lemma exp_800_large : 2 ^ 1075 <= exp 800.
Proof.
  replace 800 with (INR 100 * 8).
  2:{ rewrite INR_IZR_INZ. change (Z.of_nat 100) with 100%Z. lra. }
  rewrite exp_times.
  apply Rle_trans with (1876 ^ 100); [|apply pow_incr; pose proof exp_8_large; lra].
  rewrite !pow_IZR. apply IZR_le. vm_compute. discriminate.
Qed.

Lemma exp_800_underflows : exp (- 800) <= / 2 ^ 1075.
Proof.
  replace (exp (- 800)) with (/ exp 800)
    by (rewrite <- exp_Ropp; f_equal; lra).
  apply Rinv_le_contravar; [apply pow_lt; lra|apply exp_800_large].
Qed.

(** The claim C8 fails at two bags whose divergence is 40 times the
    bandwidth: the inputs satisfy its hypotheses, -(40/1)^2/2 = -800 is
    computed exactly, and [np.exp(-800)] is [0.0], so the entry off the
    diagonal is 0: it is outside (0, 1] and it is not exp(-800). *)
Lemma make_km_gaussian_underflows_to_zero :
  0 < 1 /\
  (forall i j, (i < rows example_far_divs)%nat -> (j < cols example_far_divs)%nat ->
     0 <= entry example_far_divs i j) /\
  entry (pass_through_gaussian example_far_divs 1) 0 1 = 0 /\
  entry (pass_through_gaussian example_far_divs 1) 0 1
    <> exp (- ((entry example_far_divs 0 1 / 1) ^ 2) / 2) /\
  ~ (0 < entry (pass_through_gaussian example_far_divs 1) 0 1 <= 1).
Proof.
  assert (H0 : entry (pass_through_gaussian example_far_divs 1) 0 1 = 0).
  { rewrite gaussian_entry. apply np_exp_underflow.
    replace (- (entry example_far_divs 0 1 / 1) ^ 2 / 2) with (- 800)
      by (simpl; lra).
    apply exp_800_underflows. }
  split; [lra|]. split; [|split; [exact H0|split]].
  - intros i j Hi Hj. simpl in Hi, Hj.
    destruct i as [|[|i]]; [| |lia]; (destruct j as [|[|j]]; [| |lia]); simpl; lra.
  - rewrite H0. intros H. pose proof (exp_pos (- (entry example_far_divs 0 1 / 1) ^ 2 / 2)). lra.
  - rewrite H0. lra.
Qed.

(** C8, amended: for a divergence matrix with non-negative entries and
    sigma > 0, the kernel that [make_km] hands to the projection has every
    entry equal to np.exp(-(D/sigma)^2/2), which lies in [0, 1]: it is
    exp(-(D/sigma)^2/2), in (0, 1], as long as that is above 2^-1075, and 0
    otherwise; and a diagonal entry is as close to 1 as wanted once the
    divergence on the diagonal is close enough to 0. *)
Theorem make_km_gaussian_range_up_to_underflow {E : Externals}
    (divs : ndarray2) (sigma : R) :
  0 < sigma ->
  (forall i j, (i < rows divs)%nat -> (j < cols divs)%nat -> 0 <= entry divs i j) ->
  make_km divs sigma = project_psd (pass_through_gaussian divs sigma) 0 true /\
  (forall i j, (i < rows divs)%nat -> (j < cols divs)%nat ->
     let x := exp (- ((entry divs i j / sigma) ^ 2) / 2) in
     entry (pass_through_gaussian divs sigma) i j
       = np_exp (- ((entry divs i j / sigma) ^ 2) / 2) /\
     0 <= entry (pass_through_gaussian divs sigma) i j <= 1 /\
     (/ 2 ^ 1075 < x ->
        entry (pass_through_gaussian divs sigma) i j = x /\
        0 < entry (pass_through_gaussian divs sigma) i j) /\
     (x <= / 2 ^ 1075 -> entry (pass_through_gaussian divs sigma) i j = 0)) /\
  (forall eps, 0 < eps ->
     exists delta, 0 < delta /\
       forall (d : ndarray2) (i : nat), 0 <= entry d i i < delta ->
         1 - eps < entry (pass_through_gaussian d sigma) i i <= 1).
Proof.
  intros Hs Hpos. split; [reflexivity|]. split.
  - intros i j Hi Hj x. subst x. rewrite gaussian_entry.
    split; [reflexivity|]. split; [|split].
    + replace (- (entry divs i j / sigma) ^ 2 / 2)
        with (- ((entry divs i j / sigma) ^ 2 / 2)) by lra.
      apply np_exp_range, half_square_nonneg.
    + intros Hx. rewrite (np_exp_exact _ Hx). split; [reflexivity|apply exp_pos].
    + intros Hx. exact (np_exp_underflow _ Hx).
  - intros eps He.
    assert (He' : 0 < Rmin eps (1 / 2)) by (apply Rmin_glb_lt; lra).
    destruct (gaussian_near_one sigma _ Hs He') as (delta & Hd & Hlim).
    exists delta. split; [exact Hd|].
    intros d i Hdi. rewrite gaussian_entry.
    pose proof (Hlim _ Hdi) as Hl.
    pose proof (Rmin_l eps (1 / 2)). pose proof (Rmin_r eps (1 / 2)).
    pose proof least_float_below_half.
    rewrite np_exp_exact by lra.
    split; [lra|].
    replace (- (entry d i i / sigma) ^ 2 / 2)
      with (- ((entry d i i / sigma) ^ 2 / 2)) by lra.
    apply exp_neg_range, half_square_nonneg.
Qed.

Lemma make_km_gaussian_range_up_to_underflow_example :
  0 < 1 /\
  forall i j, (i < 2)%nat -> (j < 2)%nat ->
    0 <= entry (pass_through_gaussian (of_rows [[0; 1]; [1; 0]]) 1) i j <= 1.
Proof.
  split; [lra|].
  intros i j Hi Hj.
  refine (proj1 (proj2 (proj1 (proj2
    (make_km_gaussian_range_up_to_underflow (E := plain_world)
       (of_rows [[0; 1]; [1; 0]]) 1 _ _)) i j Hi Hj))).
  - lra.
  - intros a b Ha Hb. simpl in Ha, Hb.
    destruct a as [|[|a]]; [| |lia]; (destruct b as [|[|b]]; [| |lia]); simpl; lra.
Defined.

(** ** Arrays on the heap *)

Lemma nth_error_snoc {A} (h : list A) (x : A) :
  nth_error (h ++ [x]) (length h) = Some x.
Proof. rewrite nth_error_app2 by lia. now rewrite Nat.sub_diag. Qed.

Lemma nth_error_snoc2 {A} (h : list A) (x y : A) :
  nth_error ((h ++ [x]) ++ [y]) (length h) = Some x.
Proof.
  rewrite nth_error_app1 by (rewrite length_app; simpl; lia).
  apply nth_error_snoc.
Qed.

Lemma update_snoc {A} (h : list A) (x y : A) :
  update (h ++ [x]) (length h) y = h ++ [y].
Proof. induction h as [|a h IH]; simpl; [reflexivity|]. now rewrite IH. Qed.

Lemma update_length {A} (l : list A) (i : nat) (x : A) :
  length (update l i x) = length l.
Proof.
  revert i. induction l as [|a l IH]; intros [|i]; simpl; auto.
Qed.

Lemma nth_error_update_same {A} (l : list A) (i : nat) (x y : A) :
  nth_error l i = Some y -> nth_error (update l i x) i = Some x.
Proof.
  revert i. induction l as [|a l IH]; intros [|i]; simpl; try discriminate; auto.
Qed.

Lemma nth_error_update_other {A} (l : list A) (i j : nat) (x : A) :
  i <> j -> nth_error (update l i x) j = nth_error l j.
Proof.
  revert i j. induction l as [|a l IH]; intros [|i] [|j] H; simpl; auto.
  contradiction.
Qed.

(** The degenerate path of [tune_params] on grids passed as sequences:
    nothing is logged, and the pair comes back with C first. *)
Lemma tune_params_single {E : Externals} divs labels num_folds n_proc
    (c s : R) (scale : bool) (m : R) wc cs tol mi sh (st : state) :
  (scale = true -> median (positive_entries divs) = Ok m) ->
  tune_params divs labels num_folds n_proc (PySeq [c]) (PySeq [s]) scale
    wc cs tol mi sh st
  = (Ok (c, if scale then s * m else s),
     mkState (heap st ++ [[c]; [if scale then s * m else s]]) (rng st) (trace st)).
Proof.
  intros Hm. unfold tune_params, bind, asarray. simpl.
  destruct scale.
  - rewrite (Hm eq_refl). unfold lift, imul, load, ret. simpl.
    rewrite nth_error_snoc. simpl.
    rewrite update_snoc.
    rewrite nth_error_snoc2. simpl. rewrite nth_error_snoc. simpl.
    rewrite <- app_assoc. reflexivity.
  - unfold lift, load, ret. simpl.
    rewrite nth_error_snoc2. simpl. rewrite nth_error_snoc. simpl.
    rewrite <- app_assoc. reflexivity.
Qed.

(** C1: with one candidate in each grid [tune_params] returns at once,
    leaving the trace as it was: no pool, no cross-validation. The pair it
    returns is (C, sigma), with sigma rescaled first when [scale_sigma] is
    set; for C = 2 and sigma = 5 that is (2, 5), not the
    (best_sigma, best_C) = (5, 2) of the contract and of the other return of
    the function. *)
Theorem tune_params_degenerate_returns_C_first {E : Externals}
    divs labels num_folds n_proc wc cs tol mi sh (st : state) :
  (forall c s,
     exists st',
       tune_params divs labels num_folds n_proc (PySeq [c]) (PySeq [s]) false
         wc cs tol mi sh st = (Ok (c, s), st') /\
       trace st' = trace st /\ rng st' = rng st) /\
  (forall c s m,
     median (positive_entries divs) = Ok m ->
     exists st',
       tune_params divs labels num_folds n_proc (PySeq [c]) (PySeq [s]) true
         wc cs tol mi sh st = (Ok (c, s * m), st') /\
       trace st' = trace st /\ rng st' = rng st) /\
  (exists st',
     tune_params divs labels num_folds n_proc (PySeq [2]) (PySeq [5]) false
       wc cs tol mi sh st = (Ok (2, 5), st')) /\
  (2, 5) <> (5, 2).
Proof.
  split; [|split; [|split]].
  - intros c s. eexists. split.
    + apply (tune_params_single divs labels num_folds n_proc c s false 0).
      discriminate.
    + split; reflexivity.
  - intros c s m Hm. eexists. split.
    + apply (tune_params_single divs labels num_folds n_proc c s true m).
      intros _. exact Hm.
    + split; reflexivity.
  - eexists.
    apply (tune_params_single divs labels num_folds n_proc 2 5 false 0).
    discriminate.
  - intros H. injection H as H _. lra.
Qed.

(** ** What a computation logs *)

Section Emits.
Context {E : Externals}.
Variable P : event -> Prop.

Lemma emits_ret {A} (a : A) : emits P (ret a).
Proof.
  intros st r st' H. inversion H; subst. exists []. now rewrite app_nil_r.
Qed.

Lemma emits_raise {A} (e : exn) : emits P (@raise E A e).
Proof.
  intros st r st' H. inversion H; subst. exists []. now rewrite app_nil_r.
Qed.

Lemma emits_lift {A} (x : res A) : emits P (lift x).
Proof.
  intros st r st' H. inversion H; subst. exists []. now rewrite app_nil_r.
Qed.

Lemma emits_assert (b : bool) : emits P (assert_ b).
Proof. destruct b; [apply emits_ret | apply emits_raise]. Qed.

Lemma emits_attr {A} (a : option A) : emits P (attr a).
Proof. destruct a; [apply emits_ret | apply emits_raise]. Qed.

Lemma emits_log (ev : event) : P ev -> emits P (log ev).
Proof.
  intros Hev st r st' H. inversion H; subst. exists [ev]. split; auto.
Qed.

Lemma emits_bind {A B} (c : M A) (k : A -> M B) :
  emits P c -> (forall a, emits P (k a)) -> emits P (bind c k).
Proof.
  intros Hc Hk st r st' H. unfold bind in H.
  destruct (c st) as [[a|e] st1] eqn:Hcst.
  - destruct (Hc _ _ _ Hcst) as (evs1 & Ht1 & HP1).
    destruct (Hk a _ _ _ H) as (evs2 & Ht2 & HP2).
    exists (evs1 ++ evs2). split.
    + now rewrite Ht2, Ht1, app_assoc.
    + apply Forall_app; auto.
  - inversion H; subst. eapply Hc; eauto.
Qed.

Lemma emits_bind_lift {A B} (x : res A) (k : A -> M B) :
  (forall a, x = Ok a -> emits P (k a)) -> emits P (bind (lift x) k).
Proof.
  intros Hk st r st' H. unfold bind, lift in H.
  destruct x as [a|e].
  - eapply Hk; eauto.
  - inversion H; subst. exists []. now rewrite app_nil_r.
Qed.

Lemma emits_for_each {A S} (l : list A) (body : A -> S -> M S) (s : S) :
  (forall x s', emits P (body x s')) -> emits P (for_each l body s).
Proof.
  intros Hb. revert s. induction l as [|x l IH]; intros s; simpl.
  - apply emits_ret.
  - apply emits_bind; auto.
Qed.

Lemma emits_apply_async {A S} (task : M A) (cb : A -> S -> S) (s : S) :
  emits P task -> emits P (apply_async task cb s).
Proof.
  intros Ht st r st' H. unfold apply_async in H.
  destruct (task st) as [[a|e] st1] eqn:Hts; inversion H; subst;
    eapply Ht; eauto.
Qed.

Lemma emits_asarray (v : pyvals) : emits P (asarray v).
Proof.
  intros st r st' H. destruct v; inversion H; subst; exists [];
    now rewrite app_nil_r.
Qed.

Lemma emits_load (a : nat) : emits P (load a).
Proof.
  intros st r st' H. unfold load in H.
  destruct (nth_error (heap st) a); inversion H; subst; exists [];
    now rewrite app_nil_r.
Qed.

Lemma emits_imul (a : nat) (c : R) : emits P (imul a c).
Proof.
  intros st r st' H. unfold imul in H.
  destruct (nth_error (heap st) a); inversion H; subst; exists [];
    now rewrite app_nil_r.
Qed.

Lemma emits_draw_shuffle (n : nat) : emits P (draw_shuffle n).
Proof.
  intros st r st' H. inversion H; subst. exists []. now rewrite app_nil_r.
Qed.

End Emits.

Lemma emits_weaken {E : Externals} {A} (P Q : event -> Prop) (c : M A) :
  (forall ev, P ev -> Q ev) -> emits P c -> emits Q c.
Proof.
  intros HPQ Hc st r st' H. destruct (Hc _ _ _ H) as (evs & Ht & HP).
  exists evs. split; auto. eapply Forall_impl; eauto.
Qed.

Ltac emits_go :=
  repeat match goal with
  | |- emits _ (ret _) => apply emits_ret
  | |- emits _ (raise _) => apply emits_raise
  | |- emits _ (lift _) => apply emits_lift
  | |- emits _ (assert_ _) => apply emits_assert
  | |- emits _ (attr _) => apply emits_attr
  | |- emits _ (asarray _) => apply emits_asarray
  | |- emits _ (load _) => apply emits_load
  | |- emits _ (imul _ _) => apply emits_imul
  | |- emits _ (draw_shuffle _) => apply emits_draw_shuffle
  | |- emits _ (log _) => apply emits_log; solve [auto]
  | |- emits _ (bind (lift _) _) => apply emits_bind_lift; intros ? ?
  | |- emits _ (bind _ _) => apply emits_bind; [| intros ?]
  | |- emits _ (for_each _ _ _) => apply emits_for_each; intros ? ?
  | |- emits _ (apply_async _ _ _) => apply emits_apply_async
  | |- emits _ (match ?x with _ => _ end) => destruct x eqn:?
  | |- emits _ ((match ?x with _ => _ end) _) => destruct x
  end.

Section EmitsProgram.
Context {E : Externals}.
Variable P : event -> Prop.

Lemma take_incl {A} (v : list A) (idx : list nat) (l : list A) :
  take v idx = Ok l -> incl l v.
Proof.
  revert l. induction idx as [|i idx IH]; simpl; intros l H.
  - inversion H. intros x [].
  - destruct (take v idx) as [t|e]; simpl in H; [|discriminate].
    destruct (nth_error v i) as [x|] eqn:Hx; inversion H; subst.
    intros y [<-|Hy].
    + eapply nth_error_In; eauto.
    + eapply IH; eauto.
Qed.

Lemma emits_project_psd mat min_eig destroy :
  (forall m, P (EvEigh m)) -> emits P (project_psd mat min_eig destroy).
Proof. intros H. unfold project_psd, call_eigh. emits_go. Qed.

Lemma emits_make_km divs sigma :
  (forall m, P (EvEigh m)) -> emits P (make_km divs sigma).
Proof. intros H. now apply emits_project_psd. Qed.

Lemma emits_call_svc_predict clf km :
  P (EvSvcPredict clf km) -> emits P (call_svc_predict clf km).
Proof. intros H. unfold call_svc_predict. emits_go. Qed.

Lemma emits_call_svc_fit params km ys :
  P (EvSvcFit params km ys) -> emits P (call_svc_fit params km ys).
Proof. intros H. unfold call_svc_fit. emits_go. Qed.

Lemma emits_try_params km labels train test C params :
  (forall p k ys, incl ys labels -> P (EvSvcFit p k ys)) ->
  (forall clf k, P (EvSvcPredict clf k)) ->
  emits P (try_params km labels train test C params).
Proof.
  intros Hf Hp. unfold try_params. emits_go.
  - apply emits_call_svc_fit, Hf. eapply take_incl; eauto.
  - now apply emits_call_svc_predict.
Qed.

Lemma emits_KFold n n_folds :
  P (EvKFold n n_folds) -> emits P (KFold n n_folds).
Proof. intros H. unfold KFold. emits_go. Qed.

Lemma emits_tune_params divs labels num_folds n_proc Cv Sv scale wc cs tol mi sh :
  (forall m, P (EvEigh m)) ->
  (forall n k, P (EvKFold n k)) ->
  (forall np, P (EvPool np)) ->
  (forall c s f, P (EvSubmit c s f)) ->
  (forall p k ys, incl ys labels -> P (EvSvcFit p k ys)) ->
  (forall clf k, P (EvSvcPredict clf k)) ->
  emits P (tune_params divs labels num_folds n_proc Cv Sv scale wc cs tol mi sh).
Proof.
  intros He Hk Hp Hs Hf Hpr. unfold tune_params. cbv zeta. emits_go.
  - now apply emits_make_km.
  - now apply emits_KFold.
  - now apply emits_try_params.
Qed.

Lemma emits_call_get_divs rq :
  P (EvGetDivs rq) -> emits P (call_get_divs rq).
Proof. intros H. unfold call_get_divs. emits_go. Qed.

Lemma emits_get_divs_cache bags df k file np fm tl md :
  (forall rq, rq_fix_mode rq = fm -> rq_mask rq = None -> P (EvGetDivs rq)) ->
  (forall f, P (EvCacheLoad f)) ->
  (forall f d k' m, P (EvCacheSave f d k' m)) ->
  emits P (get_divs_cache bags df k file np fm tl md).
Proof.
  intros Hg Hl Hs. unfold get_divs_cache. cbv zeta.
  emits_go; apply emits_call_get_divs, Hg; reflexivity.
Qed.

End EmitsProgram.

(** ** Successful runs, step by step *)

Section Inversion.
Context {E : Externals}.

Lemma bind_ok {A B} (c : M A) (k : A -> M B) st b st' :
  bind c k st = (Ok b, st') ->
  exists a st1, c st = (Ok a, st1) /\ k a st1 = (Ok b, st').
Proof.
  unfold bind. destruct (c st) as [[a|e] st1]; intros H; [eauto|discriminate].
Qed.

Lemma lift_ok {A} (x : res A) st a st' :
  lift x st = (Ok a, st') -> x = Ok a /\ st' = st.
Proof. unfold lift. intros H. inversion H; auto. Qed.

Lemma ret_ok {A} (x : A) st a st' :
  ret x st = (Ok a, st') -> a = x /\ st' = st.
Proof. unfold ret. intros H. inversion H; auto. Qed.

Lemma assert_ok (b : bool) st u st' :
  assert_ b st = (Ok u, st') -> b = true /\ st' = st.
Proof.
  destruct b; simpl; unfold ret, raise; intros H; inversion H; auto.
Qed.

Lemma attr_ok {A} (o : option A) st a st' :
  attr o st = (Ok a, st') -> o = Some a /\ st' = st.
Proof.
  destruct o; simpl; unfold ret, raise; intros H; inversion H; auto.
Qed.

Lemma log_ok ev st u st' :
  log ev st = (Ok u, st') ->
  st' = mkState (heap st) (rng st) (trace st ++ [ev]).
Proof. unfold log. intros H. inversion H; auto. Qed.

End Inversion.

Ltac bind_inv H :=
  let a := fresh "a" in
  let st := fresh "st" in
  let H1 := fresh "H" in
  apply bind_ok in H; destruct H as (a & st & H1 & H).

Ltac step_inv H :=
  lazymatch type of H with
  | bind (lift _) _ _ = (Ok _, _) =>
      let a := fresh "a" in let st := fresh "st" in let H1 := fresh "H" in
      apply bind_ok in H; destruct H as (a & st & H1 & H);
      apply lift_ok in H1; destruct H1 as [H1 ->]
  | bind (assert_ _) _ _ = (Ok _, _) =>
      let a := fresh "a" in let st := fresh "st" in let H1 := fresh "H" in
      apply bind_ok in H; destruct H as (a & st & H1 & H);
      apply assert_ok in H1; destruct H1 as [H1 ->]
  | bind (attr _) _ _ = (Ok _, _) =>
      let a := fresh "a" in let st := fresh "st" in let H1 := fresh "H" in
      apply bind_ok in H; destruct H as (a & st & H1 & H);
      apply attr_ok in H1; destruct H1 as [H1 ->]
  | bind _ _ _ = (Ok _, _) => bind_inv H
  end.

Section EstimatorFacts.
Context {E : Externals}.

Lemma fit_result self X y divs cache st est st' :
  fit self X y divs cache st = (Ok est, st') ->
  exists tb sigma C clf, est = fitted self tb sigma C clf.
Proof.
  unfold fit. cbv zeta. intros H.
  repeat step_inv H.
  destruct a5 as [sigma C].
  repeat step_inv H.
  apply ret_ok in H. destruct H as [-> _]. eauto.
Qed.

Lemma emits_fit (P : event -> Prop) self X y divs cache :
  (forall rq, rq_fix_mode rq = fix_mode self -> rq_mask rq = None -> P (EvGetDivs rq)) ->
  (forall f, P (EvCacheLoad f)) ->
  (forall f d k m, P (EvCacheSave f d k m)) ->
  (forall m, P (EvEigh m)) ->
  (forall n k, P (EvKFold n k)) ->
  (forall np, P (EvPool np)) ->
  (forall c s f, P (EvSubmit c s f)) ->
  (forall p k ys,
     incl ys (select (map (fun v => negb (v =? -1)%Z) y) y) -> P (EvSvcFit p k ys)) ->
  (forall clf k, P (EvSvcPredict clf k)) ->
  emits P (fit self X y divs cache).
Proof.
  intros Hg Hl Hs He Hk Hp Hsub Hf Hpr. unfold fit. cbv zeta. emits_go.
  all: try (now apply emits_get_divs_cache).
  all: try (now apply emits_tune_params).
  all: try (now apply emits_make_km).
  all: apply emits_call_svc_fit, Hf, incl_refl.
Qed.

Lemma emits_predict (P : event -> Prop) self data divs :
  (forall rq, rq_fix_mode rq = fix_mode self -> P (EvGetDivs rq)) ->
  (forall clf k, P (EvSvcPredict clf k)) ->
  emits P (predict self data divs).
Proof.
  intros Hg Hpr. unfold predict. cbv zeta. emits_go.
  all: try (now apply emits_call_svc_predict).
  all: apply emits_call_get_divs, Hg; reflexivity.
Qed.

End EstimatorFacts.

(** C10: whatever [fix_mode] the constructor is given, the estimator stores
    [FIX_MODE_DEFAULT]: two estimators built from options that differ in
    [fix_mode] only are the same estimator, so [fit] (and [predict] after it)
    run identically, and every request they send to the divergence estimator
    carries [FIX_MODE_DEFAULT]. *)
Theorem fix_mode_argument_is_ignored {E : Externals}
    (o : options) (fm1 fm2 : fixmode) (md : option R) :
  fix_mode (__init__ (with_fix_mode o fm1) md) = FIX_MODE_DEFAULT /\
  __init__ (with_fix_mode o fm1) md = __init__ (with_fix_mode o fm2) md /\
  (forall X y divs cache,
     fit (__init__ (with_fix_mode o fm1) md) X y divs cache
     = fit (__init__ (with_fix_mode o fm2) md) X y divs cache) /\
  (forall X y divs cache,
     emits default_fix_mode (fit (__init__ (with_fix_mode o fm1) md) X y divs cache)) /\
  (forall X y divs cache st est st',
     fit (__init__ (with_fix_mode o fm1) md) X y divs cache st = (Ok est, st') ->
     fix_mode est = FIX_MODE_DEFAULT /\
     forall data divs', emits default_fix_mode (predict est data divs')).
Proof.
  split; [reflexivity|]. split; [reflexivity|]. split; [reflexivity|]. split.
  - intros X y divs cache. apply emits_fit; simpl; auto.
  - intros X y divs cache st est st' H.
    apply fit_result in H. destruct H as (tb & sigma & C & clf & ->).
    split; [reflexivity|].
    intros data divs'. apply emits_predict; simpl; auto.
Qed.

(** ** The cross block of [predict] *)

Lemma broadcast_dim_same (a : nat) : broadcast_dim a a = Ok a.
Proof. unfold broadcast_dim. now rewrite Nat.eqb_refl. Qed.

Lemma broadcast_dim_one_r (a : nat) : broadcast_dim a 1 = Ok a.
Proof.
  unfold broadcast_dim. destruct (a =? 1)%nat eqn:H.
  - apply Nat.eqb_eq in H. now subst.
  - reflexivity.
Qed.

Lemma bidx_lt (dim i : nat) : (i < dim)%nat -> bidx dim i = i.
Proof.
  unfold bidx. destruct (dim =? 1)%nat eqn:H; [|reflexivity].
  apply Nat.eqb_eq in H. lia.
Qed.

Lemma slice_bound_neg (n k : nat) :
  (1 <= k <= n)%nat -> slice_bound n (- Z.of_nat k) = (n - k)%nat.
Proof.
  intros H. unfold slice_bound.
  destruct (- Z.of_nat k <? 0)%Z eqn:Hk; [|apply Z.ltb_ge in Hk; lia].
  lia.
Qed.

Lemma slice_bound_pos (n k : nat) :
  (k <= n)%nat -> slice_bound n (Z.of_nat k) = k.
Proof.
  intros H. unfold slice_bound.
  destruct (Z.of_nat k <? 0)%Z eqn:Hk; [apply Z.ltb_lt in Hk; lia|].
  rewrite Nat2Z.id. lia.
Qed.

(** What line 379 computes: entry (i, j) averages the divergence from test
    bag i to training bag j with the divergence from training bag j to the
    FIRST test bag. *)
Lemma cross_block_entries (D : ndarray2) (n_train n_test : nat) :
  rows D = (n_train + n_test)%nat -> cols D = (n_train + n_test)%nat ->
  (1 <= n_test)%nat ->
  exists B, cross_block D n_train n_test = Ok B /\
    rows B = n_test /\ cols B = n_train /\
    forall i j, (i < n_test)%nat -> (j < n_train)%nat ->
      entry B i j = (entry D (n_train + i) j + entry D j n_train) / 2.
Proof.
  intros Hr Hc Ht. unfold cross_block, col_at. simpl.
  rewrite Hc.
  assert (Hk : ((- Z.of_nat n_test <? 0) = true)%Z) by (apply Z.ltb_lt; lia).
  rewrite Hk.
  assert (Hin : ((0 <=? Z.of_nat (n_train + n_test) + - Z.of_nat n_test)
                 && (Z.of_nat (n_train + n_test) + - Z.of_nat n_test
                     <? Z.of_nat (n_train + n_test)))%Z%bool = true).
  { apply andb_true_iff. split; [apply Z.leb_le | apply Z.ltb_lt]; lia. }
  rewrite Hin. simpl.
  unfold badd. simpl.
  rewrite Hr, Hc, length_map, length_seq.
  rewrite slice_bound_neg, !slice_bound_pos by lia.
  replace (n_train + n_test - (n_train + n_test - n_test))%nat with n_test by lia.
  rewrite broadcast_dim_one_r, broadcast_dim_same. simpl.
  eexists. split; [reflexivity|]. simpl.
  split; [reflexivity|]. split; [reflexivity|].
  intros i j Hi Hj.
  rewrite !bidx_lt by lia.
  replace (n_train + n_test - n_test + i)%nat with (n_train + i)%nat by lia.
  f_equal. f_equal.
  rewrite (nth_indep _ 0 (entry D 0%nat (Z.to_nat (Z.of_nat (n_train + n_test) + - Z.of_nat n_test))))
    by (rewrite length_map, length_seq; lia).
  rewrite (map_nth (fun i0 => entry D i0 _)).
  rewrite seq_nth by lia. simpl. f_equal. lia.
Qed.

(** [predict] without precomputed divergences: one request to the
    divergence estimator, then the SVM's predict on the Gaussian of the
    cross block; no eigendecomposition, so no projection, in between. *)
Lemma predict_trace {E : Externals} (self : SupportDistributionMachine)
    (tb : list bag) (sigma : R) (clf : classifier) (data : list bag)
    (st : state) (B : ndarray2) :
  train_bags_ self = Some tb -> sigma_ self = Some sigma -> svm_ self = Some clf ->
  cross_block
    (get_divs (mkRequest (BagList (tb ++ data))
                 (Some (cross_mask (length tb) (length data)))
                 (div_func self) (K self) (n_proc self)
                 (fix_mode self) (tail self) (min_dist self)))
    (length tb) (length data) = Ok B ->
  trace (snd (predict self (BagList data) None st))
  = trace st ++
      [EvGetDivs (mkRequest (BagList (tb ++ data))
                    (Some (cross_mask (length tb) (length data)))
                    (div_func self) (K self) (n_proc self)
                    (fix_mode self) (tail self) (min_dist self));
       EvSvcPredict clf (pass_through_gaussian B sigma)].
Proof.
  intros Htb Hs Hc HB. unfold predict. rewrite Htb, Hs, Hc.
  unfold bind, attr, ret, lift, call_get_divs, call_svc_predict, log, bind; simpl.
  rewrite HB. simpl.
  destruct (svc_predict clf (pass_through_gaussian B sigma)); simpl;
    now rewrite <- app_assoc.
Qed.

(** C2: [predict] on two new bags after a fit on two bags. The matrix that
    goes through the Gaussian and then, unprojected, to the SVM has at
    (test 1, train 0) the value (D[3][0] + D[0][2]) / 2 = 5: the second term
    is the divergence to test bag 0. The elementwise average of the
    claim would be (D[3][0] + D[0][3]) / 2 = 11/2. *)
Theorem predict_averages_with_first_test_column :
  exists (B : ndarray2) (rq : div_request (bag (Externals := cross_world))
                                (fixmode (Externals := cross_world))),
    (forall st : state (E := cross_world),
       trace (snd (predict example_fitted (BagList [20%nat; 20%nat]) None st))
       = trace st ++ [EvGetDivs rq;
                      EvSvcPredict (E := cross_world) 0%Z (pass_through_gaussian B 1)]) /\
    rows B = 2%nat /\ cols B = 2%nat /\
    entry B 1 0 = (entry example_cross_divs 3 0 + entry example_cross_divs 0 2) / 2 /\
    entry B 1 0 = 5 /\
    (entry example_cross_divs 3 0 + entry example_cross_divs 0 3) / 2 = 11 / 2.
Proof.
  destruct (cross_block_entries example_cross_divs 2 2) as (B & HB & Hr & Hc & He);
    try reflexivity; try lia.
  exists B. eexists. split; [|split; [exact Hr|split; [exact Hc|]]].
  - intros st.
    apply (predict_trace (E := cross_world) example_fitted [20%nat; 20%nat] 1 0%Z
             [20%nat; 20%nat] st B); try reflexivity.
    exact HB.
  - rewrite (He 1%nat 0%nat) by lia. simpl. split; [reflexivity|]. split; lra.
Qed.

(** ** The caller's arrays *)

Section KeepsHeap.
Context {E : Externals}.

Lemma keeps_ret {A} (a : A) : keeps_heap (ret a).
Proof. intros st r st' H. now inversion H. Qed.

Lemma keeps_raise {A} (e : exn) : keeps_heap (@raise E A e).
Proof. intros st r st' H. now inversion H. Qed.

Lemma keeps_lift {A} (x : res A) : keeps_heap (lift x).
Proof. intros st r st' H. now inversion H. Qed.

Lemma keeps_assert (b : bool) : keeps_heap (assert_ b).
Proof. destruct b; [apply keeps_ret | apply keeps_raise]. Qed.

Lemma keeps_attr {A} (a : option A) : keeps_heap (attr a).
Proof. destruct a; [apply keeps_ret | apply keeps_raise]. Qed.

Lemma keeps_log (ev : event) : keeps_heap (log ev).
Proof. intros st r st' H. now inversion H. Qed.

Lemma keeps_load (a : nat) : keeps_heap (load a).
Proof.
  intros st r st' H. unfold load in H.
  destruct (nth_error (heap st) a); now inversion H.
Qed.

Lemma keeps_draw_shuffle (n : nat) : keeps_heap (draw_shuffle n).
Proof. intros st r st' H. now inversion H. Qed.

Lemma keeps_bind {A B} (c : M A) (k : A -> M B) :
  keeps_heap c -> (forall a, keeps_heap (k a)) -> keeps_heap (bind c k).
Proof.
  intros Hc Hk st r st' H. unfold bind in H.
  destruct (c st) as [[a|e] st1] eqn:Hcst.
  - rewrite (Hk a _ _ _ H). eapply Hc; eauto.
  - inversion H; subst. eapply Hc; eauto.
Qed.

Lemma keeps_for_each {A S} (l : list A) (body : A -> S -> M S) (s : S) :
  (forall x s', keeps_heap (body x s')) -> keeps_heap (for_each l body s).
Proof.
  intros Hb. revert s. induction l as [|x l IH]; intros s; simpl.
  - apply keeps_ret.
  - apply keeps_bind; auto.
Qed.

Lemma keeps_apply_async {A S} (task : M A) (cb : A -> S -> S) (s : S) :
  keeps_heap task -> keeps_heap (apply_async task cb s).
Proof.
  intros Ht st r st' H. unfold apply_async in H.
  destruct (task st) as [[a|e] st1] eqn:Hts; inversion H; subst;
    eapply Ht; eauto.
Qed.

End KeepsHeap.

Ltac keeps_go :=
  repeat match goal with
  | |- keeps_heap (ret _) => apply keeps_ret
  | |- keeps_heap (raise _) => apply keeps_raise
  | |- keeps_heap (lift _) => apply keeps_lift
  | |- keeps_heap (assert_ _) => apply keeps_assert
  | |- keeps_heap (attr _) => apply keeps_attr
  | |- keeps_heap (load _) => apply keeps_load
  | |- keeps_heap (log _) => apply keeps_log
  | |- keeps_heap (draw_shuffle _) => apply keeps_draw_shuffle
  | |- keeps_heap (bind _ _) => apply keeps_bind; [| intros ?]
  | |- keeps_heap (for_each _ _ _) => apply keeps_for_each; intros ? ?
  | |- keeps_heap (apply_async _ _ _) => apply keeps_apply_async
  | |- keeps_heap (match ?x with _ => _ end) => destruct x eqn:?
  | |- keeps_heap ((match ?x with _ => _ end) _) => destruct x
  end.

Section KeepsHeapProgram.
Context {E : Externals}.

Lemma keeps_project_psd mat min_eig destroy :
  keeps_heap (project_psd mat min_eig destroy).
Proof. unfold project_psd, call_eigh. keeps_go. Qed.

Lemma keeps_make_km divs sigma : keeps_heap (make_km divs sigma).
Proof. apply keeps_project_psd. Qed.

Lemma keeps_call_svc_fit p km ys : keeps_heap (call_svc_fit p km ys).
Proof. unfold call_svc_fit. keeps_go. Qed.

Lemma keeps_call_svc_predict clf km : keeps_heap (call_svc_predict clf km).
Proof. unfold call_svc_predict. keeps_go. Qed.

Lemma keeps_try_params km labels train test C params :
  keeps_heap (try_params km labels train test C params).
Proof.
  unfold try_params. keeps_go.
  - apply keeps_call_svc_fit.
  - apply keeps_call_svc_predict.
Qed.

Lemma keeps_KFold n k : keeps_heap (KFold n k).
Proof. unfold KFold. keeps_go. Qed.

End KeepsHeapProgram.

Lemma bind_any {E : Externals} {A B} (c : M A) (k : A -> M B) st r st' :
  bind c k st = (r, st') ->
  (exists a st1, c st = (Ok a, st1) /\ k a st1 = (r, st')) \/
  (exists e, c st = (Raise e, st') /\ r = Raise e).
Proof.
  unfold bind. destruct (c st) as [[a|e] st1]; intros H.
  - left. eauto.
  - right. inversion H; subst. eauto.
Qed.

(** The only writes of [tune_params] to the heap are those of its first
    lines: the arrays that [np.asarray] builds, and the in-place scaling of
    the sigma array, which is the caller's own array when the caller passed
    an ndarray. *)
Lemma tune_params_heap {E : Externals} divs labels num_folds n_proc Cv Sv scale
    wc cs tol mi sh (st : state) r st' :
  tune_params divs labels num_folds n_proc Cv Sv scale wc cs tol mi sh st = (r, st') ->
  heap st' = after_scaling Cv Sv scale divs (heap st).
Proof.
  unfold tune_params, after_scaling. intros H.
  apply bind_any in H. destruct H as [(ca & st1 & H1 & H)|(e & H1 & _)].
  2:{ destruct Cv; discriminate. }
  apply bind_any in H. destruct H as [(sa & st2 & H2 & H)|(e & H2 & _)].
  2:{ destruct Sv; discriminate. }
  assert (Hpre : (ca, heap st1) = after_asarray Cv (heap st)).
  { destruct Cv; inversion H1; subst; reflexivity. }
  assert (Hpre2 : (sa, heap st2) = after_asarray Sv (heap st1)).
  { destruct Sv; inversion H2; subst; reflexivity. }
  rewrite <- Hpre, <- Hpre2. clear H1 H2 Hpre Hpre2.
  apply bind_any in H.
  destruct H as [(u & st3 & H3 & H)|(e & H3 & _)].
  - match type of H with ?c st3 = _ =>
      assert (Hk : keeps_heap c)
    end.
    { cbv beta zeta. keeps_go.
      - apply keeps_make_km.
      - apply keeps_KFold.
      - apply keeps_try_params. }
    rewrite (Hk _ _ _ H). clear H Hk.
    destruct scale.
    + apply bind_any in H3. destruct H3 as [(m & st4 & H4 & H3)|(e & H4 & _)].
      * apply lift_ok in H4. destruct H4 as [-> ->].
        unfold imul in H3.
        destruct (nth_error (heap st2) sa); inversion H3; reflexivity.
      * unfold lift in H4. inversion H4; subst. rewrite H0. reflexivity.
    + inversion H3; reflexivity.
  - destruct scale; [|discriminate].
    apply bind_any in H3. destruct H3 as [(m & st4 & H4 & H3)|(e' & H4 & _)].
    + apply lift_ok in H4. destruct H4 as [-> ->].
      unfold imul in H3.
      destruct (nth_error (heap st2) sa); inversion H3; reflexivity.
    + unfold lift in H4. inversion H4; subst. rewrite H0. reflexivity.
Qed.

Ltac decide_reals :=
  repeat match goal with
  | |- context [Rlt_dec ?a ?b] => destruct (Rlt_dec a b); try lra
  | |- context [Rle_dec ?a ?b] => destruct (Rle_dec a b); try lra
  | |- context [Req_dec_T ?a ?b] => destruct (Req_dec_T a b); try lra
  end.

Lemma example_pair_median : median (positive_entries example_pair_divs) = Ok 3.
Proof.
  unfold median, positive_entries, flatten, example_pair_divs. simpl.
  decide_reals. simpl. decide_reals. simpl. f_equal. lra.
Qed.

(** The degenerate path when the caller holds the sigma grid as an ndarray:
    the caller's array itself is scaled. *)
Lemma tune_params_single_ndarray {E : Externals} divs labels num_folds n_proc
    (c s m : R) (a : nat) wc cs tol mi sh (st : state) :
  nth_error (heap st) a = Some [s] ->
  median (positive_entries divs) = Ok m ->
  tune_params divs labels num_folds n_proc (PySeq [c]) (NdArray a) true
    wc cs tol mi sh st
  = (Ok (c, s * m),
     mkState (update (heap st ++ [[c]]) a [s * m]) (rng st) (trace st)).
Proof.
  intros Ha Hm.
  assert (Hlt : (a < length (heap st))%nat).
  { apply nth_error_Some. congruence. }
  assert (Ha' : nth_error (heap st ++ [[c]]) a = Some [s]).
  { rewrite nth_error_app1 by lia. exact Ha. }
  unfold tune_params, bind, asarray. simpl.
  rewrite Hm. unfold lift, imul, load, ret. simpl.
  rewrite Ha'. simpl.
  rewrite nth_error_update_other by lia.
  rewrite nth_error_snoc. simpl.
  rewrite (nth_error_update_same _ _ _ _ Ha'). simpl.
  reflexivity.
Qed.


(** ** Runs on concrete inputs *)

(** Evaluate a run: compute everything but the arithmetic of the reals, and
    settle the comparisons of reals that the run branches on. *)
Ltac run_step :=
  cbv -[Rlt_dec Rle_dec Req_dec_T Rplus Rmult Rdiv Rinv Ropp Rminus IZR exp np_exp INR Rmax pow].

Ltac settle_reals :=
  repeat match goal with
  | |- context [Rlt_dec ?a ?b] => (destruct (Rlt_dec a b); try lra); [idtac]
  | |- context [Rle_dec ?a ?b] => (destruct (Rle_dec a b); try lra); [idtac]
  | |- context [Req_dec_T ?a ?b] => (destruct (Req_dec_T a b); try lra); [idtac]
  end.

Ltac run := run_step; repeat (progress settle_reals; run_step).

(** ** Finite sums *)

Lemma sum_n_ext (f g : nat -> R) (n : nat) :
  (forall i, (i < n)%nat -> f i = g i) -> sum_n f n = sum_n g n.
Proof.
  induction n as [|n IH]; intros H; simpl; [reflexivity|].
  rewrite IH, H by auto. reflexivity.
Qed.

Lemma sum_n_zero (n : nat) : sum_n (fun _ => 0) n = 0.
Proof. induction n as [|n IH]; simpl; [reflexivity|]. rewrite IH. lra. Qed.

Lemma sum_n_add (f g : nat -> R) (n : nat) :
  sum_n (fun i => f i + g i) n = sum_n f n + sum_n g n.
Proof. induction n as [|n IH]; simpl; [lra|]. rewrite IH. lra. Qed.

Lemma sum_n_scal_l (c : R) (f : nat -> R) (n : nat) :
  sum_n (fun i => c * f i) n = c * sum_n f n.
Proof. induction n as [|n IH]; simpl; [lra|]. rewrite IH. lra. Qed.

Lemma sum_n_scal_r (c : R) (f : nat -> R) (n : nat) :
  sum_n (fun i => f i * c) n = sum_n f n * c.
Proof. induction n as [|n IH]; simpl; [lra|]. rewrite IH. lra. Qed.

Lemma sum_n_swap (f : nat -> nat -> R) (n m : nat) :
  sum_n (fun i => sum_n (fun j => f i j) m) n
  = sum_n (fun j => sum_n (fun i => f i j) n) m.
Proof.
  induction n as [|n IH]; simpl.
  - now rewrite sum_n_zero.
  - rewrite IH, <- sum_n_add. reflexivity.
Qed.

Lemma sum_n_le (f g : nat -> R) (n : nat) :
  (forall i, (i < n)%nat -> f i <= g i) -> sum_n f n <= sum_n g n.
Proof.
  induction n as [|n IH]; intros H; simpl; [lra|].
  specialize (IH (fun i Hi => H i (Nat.lt_lt_succ_r _ _ Hi))).
  specialize (H n (Nat.lt_succ_diag_r n)). lra.
Qed.

Lemma sum_n_nonneg (f : nat -> R) (n : nat) :
  (forall i, (i < n)%nat -> 0 <= f i) -> 0 <= sum_n f n.
Proof.
  intros H. rewrite <- (sum_n_zero n). now apply sum_n_le.
Qed.

Lemma sum_n_delta (f : nat -> R) (n k : nat) :
  (k < n)%nat -> sum_n (fun i => if (i =? k)%nat then f i else 0) n = f k.
Proof.
  induction n as [|n IH]; intros Hk; [lia|]. simpl.
  destruct (Nat.eqb_spec n k) as [->|Hne].
  - rewrite (sum_n_ext _ (fun _ => 0)), sum_n_zero; [lra|].
    intros i Hi. destruct (Nat.eqb_spec i k); [lia|reflexivity].
  - rewrite IH by lia. lra.
Qed.

Lemma sum_n_delta' (f : nat -> R) (n k : nat) :
  (k < n)%nat -> sum_n (fun i => if (k =? i)%nat then f i else 0) n = f k.
Proof.
  intros Hk. rewrite <- (sum_n_delta f n k Hk). apply sum_n_ext.
  intros i _. now rewrite Nat.eqb_sym.
Qed.

Lemma sum_n_square_pos (x : nat -> R) (n i : nat) :
  (i < n)%nat -> x i <> 0 -> 0 < sum_n (fun k => x k * x k) n.
Proof.
  induction n as [|n IH]; intros Hi Hx; [lia|]. simpl.
  assert (H0 : 0 <= sum_n (fun k => x k * x k) n).
  { apply sum_n_nonneg. intros k _. nra. }
  destruct (Nat.eq_dec i n) as [->|Hne].
  - assert (0 < x n * x n) by nra. lra.
  - assert (0 < sum_n (fun k => x k * x k) n) by (apply IH; [lia|exact Hx]).
    assert (0 <= x n * x n) by nra. lra.
Qed.

(** The product of two sums is the double sum of the products. *)
Lemma sum_n_product (f g : nat -> R) (n m : nat) :
  sum_n f n * sum_n g m = sum_n (fun i => sum_n (fun j => f i * g j) m) n.
Proof.
  rewrite <- sum_n_scal_r. apply sum_n_ext. intros i _.
  now rewrite sum_n_scal_l.
Qed.

(** ** Quadratic forms of [vecs diag(c) vecs^T] *)

Section Spectral.
Variable n : nat.
Variable V : ndarray2.
Variable c : nat -> R.
Variable x : nat -> R.

(** The coordinates of [x] in the basis of the columns of [V]. *)
Let y (k : nat) : R := sum_n (fun i => x i * entry V i k) n.

Lemma quad_form_spectral (out : ndarray2) :
  rows out = n ->
  (forall i j, (i < n)%nat -> (j < n)%nat ->
     entry out i j = sum_n (fun k => entry V i k * c k * entry V j k) n) ->
  quad_form out x = sum_n (fun k => c k * (y k * y k)) n.
Proof.
  intros Hr He. unfold quad_form. rewrite Hr.
  transitivity
    (sum_n (fun i => sum_n (fun k => sum_n (fun j =>
        c k * ((x i * entry V i k) * (x j * entry V j k))) n) n) n).
  - apply sum_n_ext. intros i Hi.
    rewrite sum_n_swap.
    apply sum_n_ext. intros j Hj.
    rewrite He by assumption.
    rewrite <- sum_n_scal_l, <- sum_n_scal_r.
    apply sum_n_ext. intros k _. ring.
  - rewrite sum_n_swap. apply sum_n_ext. intros k _.
    unfold y. rewrite sum_n_product, <- sum_n_scal_l.
    apply sum_n_ext. intros i _. rewrite <- sum_n_scal_l.
    apply sum_n_ext. intros j _. ring.
Qed.

Lemma norm2_spectral :
  (forall i j, (i < n)%nat -> (j < n)%nat ->
     sum_n (fun k => entry V i k * entry V j k) n
     = if (i =? j)%nat then 1 else 0) ->
  sum_n (fun k => y k * y k) n = norm2 n x.
Proof.
  intros Horth. unfold norm2.
  transitivity
    (sum_n (fun i => sum_n (fun j =>
        x i * x j * sum_n (fun k => entry V i k * entry V j k) n) n) n).
  - transitivity
      (sum_n (fun k => sum_n (fun i => sum_n (fun j =>
          (x i * entry V i k) * (x j * entry V j k)) n) n) n).
    + apply sum_n_ext. intros k _. unfold y. apply sum_n_product.
    + rewrite sum_n_swap. apply sum_n_ext. intros i _.
      rewrite sum_n_swap. apply sum_n_ext. intros j _.
      rewrite <- sum_n_scal_l. apply sum_n_ext. intros k _. ring.
  - apply sum_n_ext. intros i Hi.
    rewrite (sum_n_ext _ (fun j => if (j =? i)%nat then x i * x j else 0)).
    + now rewrite sum_n_delta.
    + intros j Hj. rewrite Horth by assumption.
      rewrite (Nat.eqb_sym j i). destruct (i =? j)%nat; ring.
Qed.

(** The Rayleigh bound: if every [c k] is at least [floor], so is the
    quadratic form on unit vectors. *)
Lemma quad_form_floor (out : ndarray2) (floor : R) :
  rows out = n ->
  (forall i j, (i < n)%nat -> (j < n)%nat ->
     entry out i j = sum_n (fun k => entry V i k * c k * entry V j k) n) ->
  (forall i j, (i < n)%nat -> (j < n)%nat ->
     sum_n (fun k => entry V i k * entry V j k) n
     = if (i =? j)%nat then 1 else 0) ->
  (forall k, (k < n)%nat -> floor <= c k) ->
  floor * norm2 n x <= quad_form out x.
Proof.
  intros Hr He Horth Hc.
  rewrite (quad_form_spectral out Hr He), <- (norm2_spectral Horth).
  rewrite <- sum_n_scal_l. apply sum_n_le. intros k Hk.
  apply Rmult_le_compat_r; [nra | now apply Hc].
Qed.

End Spectral.

(** An eigenvalue is a value of the Rayleigh quotient. *)
Lemma eigenpair_quad_form (a : ndarray2) (lam : R) (x : nat -> R) :
  eigenpair a lam x ->
  quad_form a x = lam * norm2 (rows a) x /\ 0 < norm2 (rows a) x.
Proof.
  intros [(i & Hi & Hx) Hev]. split.
  - unfold quad_form, norm2. rewrite <- sum_n_scal_l.
    apply sum_n_ext. intros k Hk.
    rewrite (sum_n_ext _ (fun j => x k * (entry a k j * x j)))
      by (intros; ring).
    rewrite sum_n_scal_l, Hev by assumption. ring.
  - eapply sum_n_square_pos; eauto.
Qed.

Lemma eigenvalue_floor (a : ndarray2) (floor lam : R) (x : nat -> R) :
  (forall z, floor * norm2 (rows a) z <= quad_form a z) ->
  eigenpair a lam x -> floor <= lam.
Proof.
  intros Hq Hev. destruct (eigenpair_quad_form a lam x Hev) as [Heq Hpos].
  specialize (Hq x). rewrite Heq in Hq.
  apply (Rmult_le_reg_r (norm2 (rows a) x)); assumption.
Qed.

(** ** The projection *)

Lemma iadd_transpose (mat : ndarray2) :
  rows mat = cols mat ->
  exists s, iadd mat (transpose mat) = Ok s /\
    rows s = rows mat /\ cols s = rows mat /\
    forall i j, (i < rows mat)%nat -> (j < rows mat)%nat ->
      entry s i j = entry mat i j + entry mat j i.
Proof.
  intros Hsq. unfold iadd, badd. simpl.
  rewrite <- Hsq, !broadcast_dim_same. simpl.
  rewrite !Nat.eqb_refl. simpl.
  eexists. split; [reflexivity|]. simpl.
  split; [reflexivity|]. split; [reflexivity|].
  intros i j Hi Hj. rewrite !bidx_lt by assumption. reflexivity.
Qed.

Lemma fold_min_le_init (l : list R) (a : R) : fold_left Rmin l a <= a.
Proof.
  revert a. induction l as [|x l IH]; intros a; simpl; [lra|].
  eapply Rle_trans; [apply IH | apply Rmin_l].
Qed.

Lemma fold_min_le_elem (l : list R) (a x : R) :
  In x l -> fold_left Rmin l a <= x.
Proof.
  revert a. induction l as [|z l IH]; intros a; simpl; [tauto|].
  intros [->|Hin].
  - eapply Rle_trans; [apply fold_min_le_init | apply Rmin_r].
  - now apply IH.
Qed.

Lemma fold_min_ge (l : list R) (a lb : R) :
  lb <= a -> (forall z, In z l -> lb <= z) -> lb <= fold_left Rmin l a.
Proof.
  revert a. induction l as [|z l IH]; intros a Ha Hl; simpl; [exact Ha|].
  apply IH.
  - apply Rmin_glb; [exact Ha | apply Hl; now left].
  - intros w Hw. apply Hl. now right.
Qed.

Lemma array_min_some (vals : list R) :
  (0 < length vals)%nat -> exists vmin, array_min vals = Ok vmin.
Proof. destruct vals; simpl; [lia|eauto]. Qed.

Lemma array_min_le (vals : list R) (vmin : R) (k : nat) :
  array_min vals = Ok vmin -> (k < length vals)%nat -> vmin <= nth k vals 0.
Proof.
  destruct vals as [|v rest]; simpl; [discriminate|].
  intros H Hk. inversion H; subst. destruct k as [|k].
  - apply fold_min_le_init.
  - apply fold_min_le_elem, nth_In. lia.
Qed.

Lemma array_min_ge (vals : list R) (vmin lb : R) :
  array_min vals = Ok vmin ->
  (forall k, (k < length vals)%nat -> lb <= nth k vals 0) -> lb <= vmin.
Proof.
  destruct vals as [|v rest]; simpl; [discriminate|].
  intros H Hall. inversion H; subst. apply fold_min_ge.
  - apply (Hall 0%nat). lia.
  - intros z Hz. destruct (In_nth _ _ 0 Hz) as (k & Hk & <-).
    apply (Hall (S k)). lia.
Qed.

Lemma nth_maximum (vals : list R) (floor : R) (k : nat) :
  (k < length vals)%nat ->
  nth k (maximum vals floor) 0 = Rmax (nth k vals 0) floor.
Proof.
  intros Hk. unfold maximum.
  rewrite (nth_indep _ 0 (Rmax 0 floor)) by (now rewrite length_map).
  apply (map_nth (fun v => Rmax v floor)).
Qed.

Lemma length_maximum (vals : list R) (floor : R) :
  length (maximum vals floor) = length vals.
Proof. apply length_map. Qed.

(** The reconstruction [vecs diag(max(vals, floor)) vecs^T] of lines 82 to
    85, entry by entry. *)
Lemma reconstruct_entries (vals : list R) (vecs : ndarray2) (floor : R) (n : nat) :
  length vals = n -> rows vecs = n -> cols vecs = n ->
  exists inner m s,
    dot (diag (maximum vals floor)) (transpose vecs) = Ok inner /\
    dot vecs inner = Ok m /\
    iadd m (transpose m) = Ok s /\
    rows s = n /\ cols s = n /\
    forall i j, (i < n)%nat -> (j < n)%nat ->
      entry (adiv s 2) i j = clamped_entry vals vecs floor n i j.
Proof.
  intros Hl Hr Hc.
  assert (H1 : exists inner,
             dot (diag (maximum vals floor)) (transpose vecs) = Ok inner /\
             rows inner = n /\
             forall i j, entry inner i j
               = sum_n (fun k0 => (if (i =? k0)%nat
                                   then nth i (maximum vals floor) 0 else 0)
                                  * entry vecs j k0) n).
  { unfold dot. simpl. rewrite length_maximum, Hl, Hc, Nat.eqb_refl.
    eexists. split; [reflexivity|]. simpl. split; reflexivity. }
  destruct H1 as (inner & Hinner & Hri & Hei).
  assert (H2 : exists m,
             dot vecs inner = Ok m /\ rows m = n /\ cols m = cols inner /\
             forall i j, entry m i j
               = sum_n (fun k => entry vecs i k * entry inner k j) n).
  { unfold dot. rewrite Hc, Hri, Nat.eqb_refl.
    eexists. split; [reflexivity|]. simpl. rewrite Hr. repeat split. }
  destruct H2 as (m & Hm & Hrm & Hcm & Hem).
  assert (Hci : cols inner = n).
  { unfold dot in Hinner. simpl in Hinner.
    rewrite length_maximum, Hl, Hc, Nat.eqb_refl in Hinner.
    inversion Hinner. simpl. exact Hr. }
  destruct (iadd_transpose m) as (s & Hs & Hrs & Hcs & Hes); [congruence|].
  exists inner, m, s.
  split; [exact Hinner|]. split; [exact Hm|]. split; [exact Hs|].
  split; [congruence|]. split; [congruence|].
  intros i j Hi Hj. simpl. rewrite Hes by lia. rewrite !Hem.
  rewrite (sum_n_ext (fun k => entry vecs i k * entry inner k j)
             (fun k => entry vecs i k *
                sum_n (fun k0 => (if (k =? k0)%nat
                                  then nth k (maximum vals floor) 0 else 0)
                                 * entry vecs j k0) n))
    by (intros; now rewrite Hei).
  rewrite (sum_n_ext (fun k => entry vecs j k * entry inner k i)
             (fun k => entry vecs j k *
                sum_n (fun k0 => (if (k =? k0)%nat
                                  then nth k (maximum vals floor) 0 else 0)
                                 * entry vecs i k0) n))
    by (intros; now rewrite Hei).
  assert (Hent : forall a b, (a < n)%nat -> (b < n)%nat ->
            sum_n (fun k => entry vecs a k *
                     sum_n (fun k0 => (if (k =? k0)%nat
                                       then nth k (maximum vals floor) 0 else 0)
                                      * entry vecs b k0) n) n
            = clamped_entry vals vecs floor n a b).
  { intros a b Ha Hb. unfold clamped_entry. apply sum_n_ext. intros k Hk.
    rewrite (sum_n_ext _ (fun k0 => if (k =? k0)%nat
                            then nth k (maximum vals floor) 0 * entry vecs b k0
                            else 0)).
    - rewrite sum_n_delta' by assumption.
      rewrite nth_maximum by lia. ring.
    - intros k0 _. destruct (k =? k0)%nat; ring. }
  rewrite !Hent by assumption.
  assert (Hsym : clamped_entry vals vecs floor n j i
                 = clamped_entry vals vecs floor n i j).
  { unfold clamped_entry. apply sum_n_ext. intros k _. ring. }
  rewrite Hsym. field.
Qed.

(** [project_psd] on a square matrix whose symmetrization [eigh]
    decomposes: one call to [eigh], and the result is
    [vecs diag(max(vals, min_eig)) vecs^T] on either path. *)
Lemma project_psd_spec {E : Externals} (mat : ndarray2) (min_eig : R)
    (destroy : bool) (st : state) (n : nat) (s : ndarray2) (vals : list R)
    (vecs : ndarray2) :
  rows mat = n -> cols mat = n -> (0 < n)%nat ->
  iadd mat (transpose mat) = Ok s ->
  eigh (adiv s 2) = Ok (vals, vecs) ->
  eigh_contract (adiv s 2) vals vecs ->
  exists out,
    project_psd mat min_eig destroy st
    = (Ok out, mkState (heap st) (rng st) (trace st ++ [EvEigh (adiv s 2)])) /\
    rows out = n /\ cols out = n /\
    (forall i j, (i < n)%nat -> (j < n)%nat ->
       entry out i j = clamped_entry vals vecs min_eig n i j) /\
    (forall vmin, array_min vals = Ok vmin -> ~ vmin < min_eig -> out = adiv s 2).
Proof.
  intros Hr Hc Hn Hs Heig Hcon.
  destruct (iadd_transpose mat) as (s' & Hs' & Hrs & Hcs & Hes); [congruence|].
  rewrite Hs in Hs'. inversion Hs'; subst s'. clear Hs'.
  destruct Hcon as (Hl & Hvr & Hvc & Horth & Horth' & Hdec).
  simpl in Hl, Hvr, Hvc, Horth, Horth', Hdec.
  rewrite Hrs, Hr in *.
  destruct (array_min_some vals) as (vmin & Hmin); [lia|].
  unfold project_psd, bind, lift, call_eigh, log, bind, lift, ret.
  rewrite Hs. simpl. rewrite Heig, Hmin.
  destruct (Rlt_dec vmin min_eig) as [Hlt|Hge].
  - destruct (reconstruct_entries vals vecs min_eig n Hl Hvr Hvc)
      as (inner & m & s2 & Hi & Hm & Hs2 & Hr2 & Hc2 & He2).
    rewrite Hi, Hm, Hs2.
    eexists. split; [reflexivity|]. simpl.
    split; [exact Hr2|]. split; [exact Hc2|]. split.
    + exact He2.
    + intros vmin' Hmin' Hge. inversion Hmin'; subst. contradiction.
  - eexists. split; [reflexivity|]. simpl.
    split; [congruence|]. split; [congruence|]. split.
    + intros i j Hi Hj. specialize (Hdec i j Hi Hj). simpl in Hdec.
      rewrite Hdec. unfold clamped_entry. apply sum_n_ext. intros k Hk.
      rewrite Rmax_left; [reflexivity|].
      assert (vmin <= nth k vals 0) by (apply array_min_le; [assumption|lia]).
      lra.
    + reflexivity.
Qed.
Lemma quad_form_ext (a b : ndarray2) (x : nat -> R) :
  rows a = rows b ->
  (forall i j, (i < rows a)%nat -> (j < rows a)%nat -> entry a i j = entry b i j) ->
  quad_form a x = quad_form b x.
Proof.
  intros Hr He. unfold quad_form. rewrite <- Hr.
  apply sum_n_ext. intros i Hi. apply sum_n_ext. intros j Hj.
  now rewrite He.
Qed.

(** Each value that [eigh] returns is a value of the quadratic form, at the
    matching column of [vecs]. *)
Lemma eigh_value_is_quad_form (a : ndarray2) (vals : list R) (vecs : ndarray2) (k : nat) :
  eigh_contract a vals vecs -> (k < rows a)%nat ->
  quad_form a (fun i => entry vecs i k) = nth k vals 0.
Proof.
  intros (Hl & Hvr & Hvc & Horth & Horth' & Hdec) Hk.
  rewrite (quad_form_spectral (rows a) vecs (fun l => nth l vals 0)
             (fun i => entry vecs i k) a eq_refl Hdec).
  rewrite (sum_n_ext _ (fun l => if (l =? k)%nat then nth l vals 0 else 0)).
  - now rewrite sum_n_delta.
  - intros l Hl'. rewrite (Horth' k l Hk Hl'). rewrite (Nat.eqb_sym l k).
    destruct (k =? l)%nat; ring.
Qed.

(** C7: on a square matrix (of at least one row, and with [eigh] keeping
    its contract on the symmetrized matrix) [project_psd] returns a
    symmetric matrix, which is [vecs diag(max(vals, min_eig)) vecs^T] for
    the eigendecomposition of the symmetrized input, and every eigenvalue
    of which is at least [min_eig] (so also at least [min_eig] minus any
    tolerance). *)
Theorem project_psd_eigenvalue_floor {E : Externals} (mat : ndarray2)
    (min_eig : R) (destroy : bool) (st : state) (s : ndarray2)
    (vals : list R) (vecs : ndarray2) :
  (0 < rows mat)%nat -> rows mat = cols mat ->
  iadd mat (transpose mat) = Ok s ->
  eigh (adiv s 2) = Ok (vals, vecs) ->
  eigh_contract (adiv s 2) vals vecs ->
  exists out st',
    project_psd mat min_eig destroy st = (Ok out, st') /\
    symmetric out /\ rows out = rows mat /\
    (forall i j, (i < rows mat)%nat -> (j < rows mat)%nat ->
       entry (adiv s 2) i j = (entry mat i j + entry mat j i) / 2) /\
    (forall i j, (i < rows mat)%nat -> (j < rows mat)%nat ->
       entry out i j = clamped_entry vals vecs min_eig (rows mat) i j) /\
    (forall x, min_eig * norm2 (rows mat) x <= quad_form out x) /\
    (forall lam x, eigenpair out lam x ->
       min_eig <= lam /\ forall eps, 0 <= eps -> min_eig - eps <= lam).
Proof.
  intros Hn Hsq Hs Heig Hcon.
  destruct (project_psd_spec mat min_eig destroy st (rows mat) s vals vecs
              eq_refl (eq_sym Hsq) Hn Hs Heig Hcon)
    as (out & Hrun & Hro & Hco & Hent & _).
  destruct (iadd_transpose mat Hsq) as (s' & Hs' & Hrs & Hcs & Hes).
  rewrite Hs in Hs'. inversion Hs'; subst s'. clear Hs'.
  destruct Hcon as (Hl & Hvr & Hvc & Horth & Horth' & Hdec).
  simpl in Hl, Hvr, Hvc, Horth, Horth', Hdec. rewrite Hrs in *.
  assert (Hq : forall x, min_eig * norm2 (rows mat) x <= quad_form out x).
  { intros x.
    apply (quad_form_floor (rows mat) vecs (fun k => Rmax (nth k vals 0) min_eig)
             x out min_eig Hro Hent Horth).
    intros k _. apply Rmax_r. }
  exists out. eexists. split; [exact Hrun|].
  split; [|split; [exact Hro|split; [|split; [exact Hent|split; [exact Hq|]]]]].
  - split; [congruence|]. rewrite Hro. intros i j Hi Hj.
    rewrite !Hent by assumption. unfold clamped_entry.
    apply sum_n_ext. intros k _. ring.
  - intros i j Hi Hj. simpl. now rewrite Hes.
  - intros lam x Hev.
    assert (Hlam : min_eig <= lam).
    { apply (eigenvalue_floor out min_eig lam x); [|exact Hev].
      rewrite Hro. exact Hq. }
    split; [exact Hlam|]. intros eps Heps. lra.
Qed.

(** C9: on a symmetric positive semidefinite matrix, [project_psd] with
    floor 0 takes the cheap path and returns the symmetrized input, which is
    the input itself; and for any floor, whenever the least eigenvalue is
    not below it, what is returned is the symmetrized input unchanged. *)
Theorem project_psd_keeps_a_psd_matrix {E : Externals} (mat : ndarray2)
    (destroy : bool) (st : state) (s : ndarray2) (vals : list R) (vecs : ndarray2) :
  (0 < rows mat)%nat -> symmetric mat -> positive_semidefinite mat ->
  iadd mat (transpose mat) = Ok s ->
  eigh (adiv s 2) = Ok (vals, vecs) ->
  eigh_contract (adiv s 2) vals vecs ->
  (exists out st',
     project_psd mat 0 destroy st = (Ok out, st') /\
     out = adiv s 2 /\ same_array out mat) /\
  (forall min_eig vmin,
     array_min vals = Ok vmin -> ~ vmin < min_eig ->
     exists st', project_psd mat min_eig destroy st = (Ok (adiv s 2), st')).
Proof.
  intros Hn [Hsq Hsym] Hpsd Hs Heig Hcon.
  destruct (iadd_transpose mat Hsq) as (s' & Hs' & Hrs & Hcs & Hes).
  rewrite Hs in Hs'. inversion Hs'; subst s'. clear Hs'.
  assert (Hsame : same_array (adiv s 2) mat).
  { split; [exact Hrs|]. split; [simpl; congruence|].
    simpl. rewrite Hrs, Hcs. intros i j Hi Hj.
    rewrite Hes, (Hsym j i) by assumption. field. }
  split.
  - destruct (project_psd_spec mat 0 destroy st (rows mat) s vals vecs
                eq_refl (eq_sym Hsq) Hn Hs Heig Hcon)
      as (out & Hrun & Hro & Hco & Hent & Hcheap).
    destruct (array_min_some vals) as (vmin & Hmin).
    { destruct Hcon as (Hl & _). simpl in Hl. lia. }
    assert (Hge : ~ vmin < 0).
    { apply Rle_not_lt. apply (array_min_ge vals vmin 0 Hmin).
      intros k Hk.
      assert (Hk' : (k < rows (adiv s 2))%nat).
      { destruct Hcon as (Hl & _). simpl in *. lia. }
      rewrite <- (eigh_value_is_quad_form (adiv s 2) vals vecs k Hcon Hk').
      rewrite (quad_form_ext (adiv s 2) mat).
      - apply Hpsd.
      - exact Hrs.
      - destruct Hsame as (_ & _ & He). simpl in *. intros i j Hi Hj.
        apply He; lia. }
    exists out. eexists. split; [exact Hrun|].
    rewrite (Hcheap vmin Hmin Hge). split; [reflexivity | exact Hsame].
  - intros min_eig vmin Hmin Hge.
    destruct (project_psd_spec mat min_eig destroy st (rows mat) s vals vecs
                eq_refl (eq_sym Hsq) Hn Hs Heig Hcon)
      as (out & Hrun & _ & _ & _ & Hcheap).
    rewrite (Hcheap vmin Hmin Hge) in Hrun. eauto.
Qed.
Lemma diagonal_contract (a : ndarray2) :
  rows a = 2%nat -> entry a 0 1 = 0 -> entry a 1 0 = 0 ->
  eigh_contract a [entry a 0 0; entry a 1 1] (identity 2).
Proof.
  intros Hr H01 H10. unfold eigh_contract. rewrite Hr. simpl.
  repeat split; intros i j Hi Hj;
    destruct i as [|[|i]]; try lia; destruct j as [|[|j]]; try lia;
    simpl; lra.
Qed.

Lemma project_psd_eigenvalue_floor_example :
  exists out st',
    project_psd (E := diagonal_world) example_indefinite 0 false diagonal_start
    = (Ok out, st') /\
    symmetric out /\
    forall lam x, eigenpair out lam x -> 0 <= lam.
Proof.
  edestruct (project_psd_eigenvalue_floor (E := diagonal_world)
               example_indefinite 0 false diagonal_start)
    as (out & st' & Hrun & Hsym & _ & _ & _ & _ & Hev).
  - simpl. lia.
  - reflexivity.
  - reflexivity.
  - reflexivity.
  - apply diagonal_contract; simpl; [reflexivity | lra | lra].
  - exists out, st'. split; [exact Hrun|]. split; [exact Hsym|].
    intros lam x H. apply (Hev lam x H).
Defined.

Lemma example_definite_psd : positive_semidefinite example_definite.
Proof.
  intros x. unfold quad_form. simpl.
  pose proof (pow2_ge_0 (x 0%nat)). pose proof (pow2_ge_0 (x 1%nat)). nra.
Qed.

Lemma project_psd_keeps_a_psd_matrix_example :
  exists out st',
    project_psd (E := diagonal_world) example_definite 0 false diagonal_start
    = (Ok out, st') /\
    same_array out example_definite.
Proof.
  edestruct (project_psd_keeps_a_psd_matrix (E := diagonal_world)
               example_definite false diagonal_start)
    as [(out & st' & Hrun & _ & Hsame) _].
  - simpl. lia.
  - split; [reflexivity|]. simpl. intros i j Hi Hj.
    destruct i as [|[|i]]; try lia; destruct j as [|[|j]]; try lia; reflexivity.
  - exact example_definite_psd.
  - reflexivity.
  - reflexivity.
  - apply diagonal_contract; simpl; [reflexivity | lra | lra].
  - exists out, st'. split; [exact Hrun | exact Hsame].
Defined.

(** ** The folds of [KFold] *)

Lemma list_sum_indicator (r k : nat) :
  list_sum (map (fun f => if (f <? r)%nat then 1%nat else 0%nat) (seq 0 k))
  = Nat.min r k.
Proof.
  induction k as [|k IH]; [now rewrite Nat.min_0_r|].
  rewrite seq_S, map_app, list_sum_app, IH. simpl.
  destruct (Nat.ltb_spec k r); lia.
Qed.

Lemma list_sum_shift (a : nat) (g : nat -> nat) (l : list nat) :
  list_sum (map (fun f => (a + g f)%nat) l)
  = (length l * a + list_sum (map g l))%nat.
Proof. induction l as [|x l IH]; simpl; [reflexivity|]. rewrite IH. lia. Qed.

Lemma fold_sizes_sum (n k : nat) :
  (0 < k)%nat -> list_sum (fold_sizes n k) = n.
Proof.
  intros Hk. unfold fold_sizes.
  rewrite list_sum_shift, length_seq, list_sum_indicator.
  pose proof (Nat.mod_upper_bound n k ltac:(lia)).
  pose proof (Nat.div_mod_eq n k).
  rewrite Nat.min_l by lia. lia.
Qed.

Lemma length_fold_sizes (n k : nat) : length (fold_sizes n k) = k.
Proof. unfold fold_sizes. now rewrite length_map, length_seq. Qed.

Lemma length_chunks (idxs sizes : list nat) :
  length (chunks idxs sizes) = length sizes.
Proof.
  revert idxs. induction sizes as [|s t IH]; intros idxs; simpl; auto.
Qed.

Lemma concat_chunks (sizes idxs : list nat) :
  list_sum sizes = length idxs -> concat (chunks idxs sizes) = idxs.
Proof.
  revert idxs. induction sizes as [|s t IH]; intros idxs H; simpl in *.
  - symmetry in H. apply length_zero_iff_nil in H. now subst.
  - rewrite IH; [apply firstn_skipn|].
    rewrite length_skipn. lia.
Qed.

Lemma in_chunk_In (chunk : list nat) (i : nat) :
  in_chunk chunk i = true <-> In i chunk.
Proof.
  unfold in_chunk. rewrite existsb_exists. split.
  - intros (x & Hx & He). apply Nat.eqb_eq in He. now subst.
  - intros H. exists i. split; [exact H | apply Nat.eqb_refl].
Qed.

Lemma NoDup_app_disjoint {A} (l l' : list A) (x : A) :
  NoDup (l ++ l') -> In x l -> ~ In x l'.
Proof.
  induction l as [|a l IH]; simpl; intros Hnd Hin; [contradiction|].
  inversion Hnd as [|? ? Hna Hnd']; subst.
  destruct Hin as [->|Hin].
  - intros Hx. apply Hna. apply in_or_app. now right.
  - now apply IH.
Qed.

Lemma no_chunk_contains (chs : list (list nat)) (i : nat) :
  ~ In i (concat chs) ->
  length (filter (fun ch => in_chunk ch i) chs) = 0%nat.
Proof.
  induction chs as [|c cs IH]; simpl; intros H; [reflexivity|].
  destruct (in_chunk c i) eqn:Hc.
  - exfalso. apply H. apply in_or_app. left. now apply in_chunk_In.
  - apply IH. intros Hin. apply H. apply in_or_app. now right.
Qed.

Lemma one_chunk_contains (chs : list (list nat)) (i : nat) :
  NoDup (concat chs) -> In i (concat chs) ->
  length (filter (fun ch => in_chunk ch i) chs) = 1%nat.
Proof.
  induction chs as [|c cs IH]; simpl; intros Hnd Hin; [contradiction|].
  destruct (in_chunk c i) eqn:Hc.
  - simpl. f_equal. apply no_chunk_contains.
    apply in_chunk_In in Hc. eapply NoDup_app_disjoint; eauto.
  - apply IH.
    + eapply NoDup_app_remove_l; eauto.
    + apply in_app_or in Hin. destruct Hin as [Hin|Hin]; [|exact Hin].
      apply in_chunk_In in Hin. congruence.
Qed.

Lemma test_of_fold (n : nat) (chunk : list nat) (i : nat) :
  (i < n)%nat ->
  existsb (Nat.eqb i) (snd (fold_of n chunk)) = in_chunk chunk i.
Proof.
  intros Hi. unfold fold_of. simpl.
  destruct (in_chunk chunk i) eqn:Hc.
  - apply existsb_exists. exists i. split; [|apply Nat.eqb_refl].
    apply filter_In. split; [|exact Hc]. apply in_seq. lia.
  - apply not_true_is_false. intros H. apply existsb_exists in H.
    destruct H as (x & Hx & He). apply Nat.eqb_eq in He. subst x.
    apply filter_In in Hx. destruct Hx as [_ Hx]. congruence.
Qed.

(** Partition completeness: with at least one fold and no more folds than
    indices, every index is in the test set of exactly one fold. *)
Lemma kfold_partition (n k : nat) (idxs : list nat) (i : nat) :
  (0 < k)%nat -> Permutation idxs (seq 0 n) -> (i < n)%nat ->
  length (kfold_splits n k idxs) = k /\
  tests_containing (kfold_splits n k idxs) i = 1%nat.
Proof.
  intros Hk Hperm Hi. unfold kfold_splits. split.
  - now rewrite length_map, length_chunks, length_fold_sizes.
  - unfold tests_containing.
    assert (Hcat : concat (chunks idxs (fold_sizes n k)) = idxs).
    { apply concat_chunks. rewrite fold_sizes_sum by assumption.
      rewrite (Permutation_length Hperm). now rewrite length_seq. }
    assert (Hnd : NoDup idxs).
    { eapply Permutation_NoDup; [apply Permutation_sym, Hperm | apply seq_NoDup]. }
    assert (Hin : In i idxs).
    { eapply Permutation_in; [apply Permutation_sym, Hperm|]. apply in_seq. lia. }
    rewrite <- Hcat in Hnd, Hin.
    rewrite <- (one_chunk_contains _ i Hnd Hin).
    generalize (chunks idxs (fold_sizes n k)). intros chs.
    induction chs as [|c cs IH]; [reflexivity|].
    cbn [map filter]. rewrite test_of_fold by assumption.
    destruct (in_chunk c i); cbn [length]; now rewrite IH.
Qed.

(** A test set has no index twice, and every test index is a bag. *)
Lemma kfold_tests_wellformed (n k : nat) (idxs : list nat) (train test : list nat) :
  In (train, test) (kfold_splits n k idxs) ->
  NoDup test /\ forall i, In i test -> (i < n)%nat.
Proof.
  unfold kfold_splits. intros H. apply in_map_iff in H.
  destruct H as (ch & Heq & _). unfold fold_of in Heq. inversion Heq; subst.
  split.
  - apply NoDup_filter, seq_NoDup.
  - intros i Hi. apply filter_In in Hi. destruct Hi as [Hi _].
    apply in_seq in Hi. lia.
Qed.

(** ** The loop of [crossvalidate] *)

Lemma update_nth_other {A} (l : list A) (i j : nat) (x d : A) :
  i <> j -> nth j (update l i x) d = nth j l d.
Proof.
  revert i j. induction l as [|a l IH]; intros [|i] [|j] H; simpl; auto.
  contradiction.
Qed.

Lemma scatter_length (l : list (nat * Z)) (p : list Z) :
  length (fold_left (fun p iv => update p (fst iv) (snd iv)) l p) = length p.
Proof.
  revert p. induction l as [|x l IH]; intros p; simpl; [reflexivity|].
  now rewrite IH, update_length.
Qed.

Lemma scatter_other (l : list (nat * Z)) (p : list Z) (i : nat) (d : Z) :
  ~ In i (map fst l) ->
  nth i (fold_left (fun p iv => update p (fst iv) (snd iv)) l p) d = nth i p d.
Proof.
  revert p. induction l as [|x l IH]; intros p H; simpl; [reflexivity|].
  rewrite IH by (intros Hin; apply H; now right).
  apply update_nth_other. intros Heq. apply H. now left.
Qed.

Lemma broadcast_length (idx : list nat) (v : Z) (p : list Z) :
  length (fold_left (fun p i => update p i v) idx p) = length p.
Proof.
  revert p. induction idx as [|x l IH]; intros p; simpl; [reflexivity|].
  now rewrite IH, update_length.
Qed.

Lemma broadcast_other (idx : list nat) (v : Z) (p : list Z) (i : nat) (d : Z) :
  ~ In i idx ->
  nth i (fold_left (fun p i => update p i v) idx p) d = nth i p d.
Proof.
  revert p. induction idx as [|x l IH]; intros p H; simpl; [reflexivity|].
  rewrite IH by (intros Hin; apply H; now right).
  apply update_nth_other. intros Heq. apply H. now left.
Qed.

Lemma assign_length (p : list Z) (idx : list nat) (v p' : list Z) :
  assign p idx v = Ok p' -> length p' = length p.
Proof.
  unfold assign. destruct (negb (in_range (length p) idx)); [discriminate|].
  destruct (length v =? length idx)%nat.
  - intros H. inversion H. apply scatter_length.
  - destruct v as [|v [|? ?]]; try discriminate.
    intros H. inversion H. apply broadcast_length.
Qed.

Lemma assign_other (p : list Z) (idx : list nat) (v p' : list Z) (i : nat) (d : Z) :
  assign p idx v = Ok p' -> ~ In i idx -> nth i p' d = nth i p d.
Proof.
  unfold assign. destruct (negb (in_range (length p) idx)); [discriminate|].
  destruct (length v =? length idx)%nat eqn:Hl.
  - intros H Hi. inversion H. apply scatter_other.
    intros Hin. apply Hi. apply in_map_iff in Hin.
    destruct Hin as ((a & b) & Ha & Hin). simpl in Ha. subst a.
    eapply in_combine_l; eauto.
  - destruct v as [|v [|? ?]]; try discriminate.
    intros H Hi. inversion H. now apply broadcast_other.
Qed.

Lemma filled_length (folds : list (list nat * list nat)) (p p' : list Z) :
  filled folds p p' -> length p' = length p.
Proof.
  induction 1 as [|train test rest p vals p1 p2 Ha _ IH]; [reflexivity|].
  rewrite IH. eapply assign_length; eauto.
Qed.

Lemma existsb_eqb_In (i : nat) (l : list nat) :
  existsb (Nat.eqb i) l = true <-> In i l.
Proof.
  rewrite existsb_exists. split.
  - intros (x & Hx & He). apply Nat.eqb_eq in He. now subst.
  - intros H. exists i. split; [exact H | apply Nat.eqb_refl].
Qed.

Lemma filled_untouched (folds : list (list nat * list nat)) (p p' : list Z)
    (i : nat) (d : Z) :
  filled folds p p' -> tests_containing folds i = 0%nat -> nth i p' d = nth i p d.
Proof.
  induction 1 as [|train test rest p vals p1 p2 Ha _ IH]; [reflexivity|].
  unfold tests_containing. cbn [filter snd].
  destruct (existsb (Nat.eqb i) test) eqn:Hex; [discriminate|].
  intros H0. rewrite (IH H0).
  eapply assign_other; eauto.
  intros Hin. apply existsb_eqb_In in Hin. congruence.
Qed.

Lemma for_each_filled {E : Externals}
    (body : list nat * list nat -> list Z -> M (list Z)) :
  (forall train test preds st preds' st',
     body (train, test) preds st = (Ok preds', st') ->
     exists vals, assign preds test vals = Ok preds') ->
  forall folds p0 st p st',
    for_each folds body p0 st = (Ok p, st') -> filled folds p0 p.
Proof.
  intros Hbody folds. induction folds as [|[train test] rest IH];
    intros p0 st p st' H; simpl in H.
  - apply ret_ok in H. destruct H as [-> _]. constructor.
  - bind_inv H.
    destruct (Hbody _ _ _ _ _ _ H0) as (vals & Hv).
    econstructor; eauto.
Qed.

(** ** The accuracy *)

Lemma count_true_map {A} (f : A -> bool) (l : list A) :
  count_true (map f l) = length (filter f l).
Proof.
  unfold count_true. induction l as [|x l IH]; simpl; [reflexivity|].
  destruct (f x); simpl; now rewrite IH.
Qed.

Lemma filter_length_le {A} (f : A -> bool) (l : list A) :
  (length (filter f l) <= length l)%nat.
Proof.
  induction l as [|x l IH]; simpl; [lia|]. destruct (f x); simpl; lia.
Qed.

Lemma agreements_le (preds labels : list Z) :
  (agreements preds labels <= length preds)%nat.
Proof.
  unfold agreements.
  eapply Nat.le_trans; [apply filter_length_le|].
  rewrite length_combine. lia.
Qed.

Lemma accuracy_is_fraction (preds labels : list Z) (n : nat) :
  length preds = n -> length labels = n -> (0 < n)%nat ->
  mean_bool (eq_flags preds labels)
  = Fin (INR (agreements preds labels) / INR n) /\
  0 <= INR (agreements preds labels) / INR n <= 1.
Proof.
  intros Hp Hl Hn. split.
  - unfold eq_flags. rewrite Hp, Hl, Nat.eqb_refl.
    unfold mean_bool.
    destruct (map (fun p => (fst p =? snd p)%Z) (combine preds labels)) eqn:Hm.
    + apply (f_equal (@length bool)) in Hm.
      rewrite length_map, length_combine in Hm. simpl in Hm. lia.
    + rewrite <- Hm, count_true_map, length_map, length_combine, Hp, Hl.
      rewrite Nat.min_id. reflexivity.
  - assert (Hle := agreements_le preds labels). rewrite Hp in Hle.
    assert (0 < INR n) by (apply lt_0_INR; lia).
    assert (0 <= INR (agreements preds labels)) by apply pos_INR.
    assert (INR (agreements preds labels) <= INR n) by (now apply le_INR).
    split.
    + apply Rmult_le_pos; [assumption|]. left. now apply Rinv_0_lt_compat.
    + apply (Rmult_le_reg_r (INR n)); [assumption|].
      unfold Rdiv. rewrite Rmult_assoc, Rinv_l by lra. lra.
Qed.

Lemma get_divs_cache_rng {E : Externals} bags df k file np fm tl md
    (st : state) r st' :
  get_divs_cache bags df k file np fm tl md st = (r, st') -> rng st' = rng st.
Proof.
  unfold get_divs_cache. intros H.
  destruct (truthy file) as [f|];
    [destruct (cache_exists f);
       [destruct (first_dim bags) as [dim|];
          [destruct (cache_get f df k)|]|]|];
    cbv [bind lift ret raise log call_get_divs] in H; simpl in H;
    try (destruct (check_h5_settings f (len bags) dim fm tl md); simpl in H);
    inversion H; reflexivity.
Qed.

Lemma KFold_ok {E : Externals} (n k : nat) (st : state) folds st' :
  KFold n k st = (Ok folds, st') ->
  (0 < k)%nat /\ (k <= n)%nat /\ folds = kfold_splits n k (shuffle (rng st) n).
Proof.
  unfold KFold, bind, log, raise, draw_shuffle, ret. simpl.
  destruct (Nat.eqb_spec k 0); [discriminate|].
  destruct (Nat.ltb_spec n k); [discriminate|].
  intros Hrun. inversion Hrun. repeat split; lia.
Qed.

Lemma squeezed_shape_length (labels : list Z) (n : nat) :
  squeezed_shape_is labels n = true -> length labels = n.
Proof.
  unfold squeezed_shape_is. intros H. apply andb_true_iff in H.
  destruct H as [H _]. now apply Nat.eqb_eq.
Qed.

(** What a successful [crossvalidate] did. *)
Lemma crossvalidate_ok {E : Externals} bags labels num_folds project_all o md
    divs cache (st : state) acc preds st' :
  crossvalidate bags labels num_folds project_all o md divs cache st
  = (Ok (acc, preds), st') ->
  (0 < num_folds)%nat /\ (num_folds <= len bags)%nat /\
  length labels = len bags /\
  filled (kfold_splits (len bags) num_folds (shuffle (rng st) (len bags)))
    (repeat (-1)%Z (len bags)) preds /\
  acc = mean_bool (eq_flags preds labels).
Proof.
  unfold crossvalidate. cbv zeta. intros H.
  repeat step_inv H.
  match goal with
  | Hd : match divs with _ => _ end st = (Ok ?d, ?s0),
    Hk : KFold _ _ ?s0 = (Ok ?fs, ?s1),
    Hl : for_each ?fs _ _ ?s1 = (Ok ?p, _),
    Hs : squeezed_shape_is _ _ = true |- _ =>
      assert (Hrng : rng s0 = rng st);
      [ destruct divs as [d0|];
        [ step_inv Hd; apply ret_ok in Hd; destruct Hd as [_ ->]; reflexivity
        | eapply get_divs_cache_rng; eauto ]
      | apply KFold_ok in Hk; destruct Hk as (Hk0 & Hkn & ->);
        apply ret_ok in H; destruct H as [H _]; inversion H; subst; clear H;
        rewrite Hrng in Hl;
        split; [exact Hk0|]; split; [exact Hkn|];
        split; [now apply squeezed_shape_length|]; split; [|reflexivity];
        eapply for_each_filled; [|exact Hl] ]
  end.
  intros train test p s1 p' s2 Hb. cbv beta iota in Hb.
  repeat step_inv Hb.
  destruct project_all.
  - repeat step_inv Hb.
    match type of Hb with
    | (let (_, _) := ?x in _) _ = _ => destruct x as [pv cfg]
    end.
    apply lift_ok in Hb. destruct Hb as [Hb _]. eauto.
  - repeat step_inv Hb.
    apply lift_ok in Hb. destruct Hb as [Hb _]. eauto.
Qed.

Lemma crossvalidate_example_run :
  exists st' : state (E := four_world),
    crossvalidate (E := four_world) four_bags [0; 0; 1; 1]%Z 2 true four_options
      None None None four_start
    = (Ok (Fin (INR 2 / INR 4), [0; 0; 0; 0]%Z), st').
Proof.
  eexists. unfold crossvalidate. run. reflexivity.
Qed.

(** ** What [fit] trains on *)

Lemma select_labeled (y : list Z) :
  Forall (fun v => v <> (-1)%Z) (select (map (fun v => negb (v =? -1)%Z) y) y).
Proof.
  unfold select. induction y as [|v y IH]; simpl; [constructor|].
  destruct (Z.eqb_spec v (-1)); simpl; [exact IH|].
  constructor; assumption.
Qed.

Lemma ix_shape (a : ndarray2) (ridx cidx : list nat) (b : ndarray2) :
  ix_ a ridx cidx = Ok b ->
  rows b = length ridx /\ cols b = length cidx /\
  forall i j, entry b i j = entry a (nth i ridx 0%nat) (nth j cidx 0%nat).
Proof.
  unfold ix_. destruct (in_range (rows a) ridx && in_range (cols a) cidx)%bool;
    [|discriminate].
  intros H. inversion H. simpl. auto.
Qed.

Lemma nonzero_select_length {A} (m : list bool) (l : list A) :
  length m = length l -> length (nonzero m) = length (select m l).
Proof.
  unfold nonzero, select, enumerate. rewrite !length_map.
  generalize 0%nat. revert l.
  induction m as [|b m IH]; intros [|x l] k H; simpl in *; try lia; try reflexivity.
  destruct b; simpl; rewrite (IH l (S k)) by lia; reflexivity.
Qed.

(** The run of a successful [fit], step by step. *)
Lemma fit_ok {E : Externals} (self : SupportDistributionMachine) (X : bagseq bag)
    (y : list Z) (divs : option ndarray2) (cache : option String.string)
    (st : state) est st' :
  fit self X y divs cache st = (Ok est, st') ->
  exists bags D st0 sub sigma C st1 km st2 train_km clf,
    (X = BagList bags \/ X = BagTuple bags) /\
    length y = length bags /\
    (match divs with
     | Some d => d = D /\ st0 = st
     | None => get_divs_cache X (div_func self) (K self) cache (n_proc self)
                 (fix_mode self) (tail self) (min_dist self) st = (Ok D, st0)
     end) /\
    ix_ D (nonzero (map (fun v => negb (v =? -1)%Z) y))
         (nonzero (map (fun v => negb (v =? -1)%Z) y)) = Ok sub /\
    tune_params sub (select (map (fun v => negb (v =? -1)%Z) y) y)
      (tuning_folds self) (n_proc self) (C_vals self) (sigma_vals self)
      (scale_sigma self) (weight_classes self) (tuning_cache_size self)
      (tuning_svm_tol self) (tuning_svm_max_iter self) (svm_shrinking self) st0
    = (Ok (sigma, C), st1) /\
    make_km D sigma st1 = (Ok km, st2) /\
    ix_ km (nonzero (map (fun v => negb (v =? -1)%Z) y))
          (nonzero (map (fun v => negb (v =? -1)%Z) y)) = Ok train_km /\
    call_svc_fit
      (mkSvc C (cache_size self) (weight_classes self) (svm_tol self)
             (svm_max_iter self) (svm_shrinking self))
      train_km (select (map (fun v => negb (v =? -1)%Z) y) y) st2
    = (Ok clf, st') /\
    est = fitted self (select (map (fun v => negb (v =? -1)%Z) y) bags) sigma C clf.
Proof.
  unfold fit. cbv zeta. intros H.
  repeat step_inv H.
  match goal with
  | Hs : squeezed_shape_is y (len X) = true,
    Hb : match X with _ => _ end = Ok ?tb,
    Hd : match divs with _ => _ end st = (Ok ?D, ?s0),
    Hsub : ix_ ?D _ _ = Ok ?sub,
    Ht : tune_params ?sub _ _ _ _ _ _ _ _ _ _ _ ?s0 = (Ok ?cfg, ?s1) |- _ =>
      destruct cfg as [sigma C];
      repeat step_inv H;
      apply ret_ok in H; destruct H as [-> ->];
      apply squeezed_shape_length in Hs;
      assert (HX : exists bags, (X = BagList bags \/ X = BagTuple bags) /\
                                tb = select (map (fun v => negb (v =? -1)%Z) y) bags);
      [ destruct X as [l|l|b]; [| |discriminate]; inversion Hb; eauto |];
      destruct HX as (bags & HX & ->);
      exists bags, D, s0, sub, sigma, C, s1
  end.
  match goal with
  | Hk : make_km _ _ _ = (Ok ?km, ?s2),
    Hi : ix_ ?km _ _ = Ok ?tk,
    Hf : call_svc_fit _ ?tk _ ?s2 = (Ok ?clf, _) |- _ =>
      exists km, s2, tk, clf
  end.
  repeat split; try assumption.
  - destruct HX as [-> | ->]; simpl in *; assumption.
  - destruct divs as [d|]; [|assumption].
    match goal with
    | Hd : bind (assert_ _) _ st = _ |- _ =>
        step_inv Hd; apply ret_ok in Hd; destruct Hd as [-> ->]; auto
    end.
Qed.
Lemma incl_Forall_labels (P : Z -> Prop) (l l' : list Z) :
  incl l l' -> Forall P l' -> Forall P l.
Proof.
  intros Hi Hf. apply Forall_forall. intros x Hx.
  rewrite Forall_forall in Hf. auto.
Qed.

(** C4, as the code has it: [fit] tunes on the labeled sub-block of the
    divergences; the projection is that of the Gaussian kernel of the whole
    divergence matrix passed or computed (labeled and sentinel bags); the
    final SVM is trained on the labeled sub-block of that projected kernel,
    with the labels other than -1; no fit, in tuning or after, sees a
    sentinel label; and the estimator keeps the labeled bags in their
    order. *)
Theorem fit_trains_on_labeled_block_of_full_projection {E : Externals}
    (self : SupportDistributionMachine) (X : bagseq bag) (y : list Z)
    (divs : option ndarray2) (cache : option String.string)
    (st : state) (est : SupportDistributionMachine) (st' : state) :
  fit self X y divs cache st = (Ok est, st') ->
  Forall (fun v => v <> (-1)%Z) (select (labeled y) y) /\
  (exists bags,
     (X = BagList bags \/ X = BagTuple bags) /\
     train_bags_ est = Some (select (labeled y) bags)) /\
  (exists D st0 sub sigma C st1 km st2 train_km,
     (match divs with
      | Some d => d = D /\ st0 = st
      | None => get_divs_cache X (div_func self) (K self) cache (n_proc self)
                  (fix_mode self) (tail self) (min_dist self) st = (Ok D, st0)
      end) /\
     ix_ D (nonzero (labeled y)) (nonzero (labeled y)) = Ok sub /\
     rows sub = length (select (labeled y) y) /\
     tune_params sub (select (labeled y) y)
       (tuning_folds self) (n_proc self) (C_vals self) (sigma_vals self)
       (scale_sigma self) (weight_classes self) (tuning_cache_size self)
       (tuning_svm_tol self) (tuning_svm_max_iter self) (svm_shrinking self) st0
     = (Ok (sigma, C), st1) /\
     make_km D sigma st1 = (Ok km, st2) /\
     ix_ km (nonzero (labeled y)) (nonzero (labeled y)) = Ok train_km /\
     rows train_km = length (select (labeled y) y) /\
     trace st' = trace st2 ++
       [EvSvcFit (mkSvc C (cache_size self) (weight_classes self) (svm_tol self)
                    (svm_max_iter self) (svm_shrinking self))
          train_km (select (labeled y) y)]) /\
  (exists evs, trace st' = trace st ++ evs /\ Forall no_sentinel_fit evs).
Proof.
  intros Hrun. pose proof (select_labeled y) as Hlab. fold (labeled y) in Hlab.
  split; [exact Hlab|].
  destruct (fit_ok self X y divs cache st est st' Hrun)
    as (bags & D & st0 & sub & sigma & C & st1 & km & st2 & train_km & clf
        & HX & Hlen & HD & Hsub & Htune & Hkm & Htk & Hfit & ->).
  fold (labeled y) in Hsub, Htune, Htk, Hfit |- *.
  assert (Hnz : length (nonzero (labeled y)) = length (select (labeled y) y)).
  { apply nonzero_select_length. unfold labeled. now rewrite length_map. }
  split; [|split].
  - exists bags. split; [exact HX | reflexivity].
  - exists D, st0, sub, sigma, C, st1, km, st2, train_km.
    split; [exact HD|]. split; [exact Hsub|].
    split; [destruct (ix_shape _ _ _ _ Hsub) as [-> _]; exact Hnz|].
    split; [exact Htune|]. split; [exact Hkm|]. split; [exact Htk|].
    split; [destruct (ix_shape _ _ _ _ Htk) as [-> _]; exact Hnz|].
    unfold call_svc_fit, bind, log, lift in Hfit. simpl in Hfit.
    destruct (svc_fit _ train_km (select (labeled y) y)); inversion Hfit.
    reflexivity.
  - apply (emits_fit no_sentinel_fit self X y divs cache) in Hrun;
      simpl; auto.
    intros p k ys Hincl. eapply incl_Forall_labels; [exact Hincl|].
    apply select_labeled.
Qed.

Lemma fit_example_run :
  exists st' : state (E := three_world),
    fit (E := three_world) (__init__ three_options None) three_bags
      [0; 1; -1]%Z None None three_start
    = (Ok (fitted (__init__ three_options None) [20%nat; 21%nat] 1 1 0%Z), st') /\
    exists m, In (EvEigh m) (trace st') /\ rows m = 3%nat.
Proof.
  eexists. split.
  - unfold fit. run. reflexivity.
  - eexists. split.
    + cbn [trace]. right. left. reflexivity.
    + reflexivity.
Qed.

Lemma fit_trains_on_labeled_block_example :
  exists (est : SupportDistributionMachine (E := three_world))
         (st' : state (E := three_world)),
    fit (E := three_world) (__init__ three_options None) three_bags
      [0; 1; -1]%Z None None three_start = (Ok est, st') /\
    train_bags_ est = Some [20%nat; 21%nat] /\
    Forall (fun v => v <> (-1)%Z) (select (labeled [0; 1; -1]%Z) [0; 1; -1]%Z).
Proof.
  destruct fit_example_run as (st' & Hrun & _).
  eexists. exists st'. split; [exact Hrun|]. split; [reflexivity|].
  exact (proj1 (fit_trains_on_labeled_block_of_full_projection
                  (E := three_world) _ _ _ _ _ _ _ _ Hrun)).
Defined.

(** C4 as stated fails: with bags 0 and 1 labeled and bag 2 carrying the
    sentinel, the matrix that [fit] has decomposed for the projection has
    three rows, the sentinel bag included, not the two of the labeled
    sub-block. *)
Lemma fit_projection_includes_sentinel_bag :
  exists (est : SupportDistributionMachine (E := three_world))
         (st' : state (E := three_world)),
    fit (E := three_world) (__init__ three_options None) three_bags
      [0; 1; -1]%Z None None three_start = (Ok est, st') /\
    ~ projects_labeled_only [0; 1; -1]%Z (trace st').
Proof.
  destruct fit_example_run as (st' & Hrun & m & Hin & Hrows).
  eexists. exists st'. split; [exact Hrun|].
  intros Hall. specialize (Hall m Hin). rewrite Hrows in Hall.
  discriminate Hall.
Qed.

(** ** A failing fit ends the tuning call *)

Section FailedFit.
Context {E : Externals}.












End FailedFit.








(** ** The inductive branch of [crossvalidate] *)

Lemma itemgetter_not_a_list {E : Externals} (idx : list nat) (bags b : bagseq bag) :
  itemgetter idx bags = Ok b -> forall l, b <> BagList l.
Proof.
  unfold itemgetter. intros H l Hb. subst b.
  destruct bags as [bs|bs|one]; [| |discriminate];
    (destruct idx as [|i [|j idx]]; [discriminate| |]);
    match type of H with
    | res_bind ?x _ = _ => destruct x; simpl in H; discriminate
    end.
Qed.

(** [predict] concatenates the list of training bags with the new bags: the
    new bags have to come as a list. *)
Lemma predict_needs_a_list {E : Externals} (self : SupportDistributionMachine)
    (data : bagseq bag) (st : state) p st' :
  predict self data None st = (Ok p, st') -> exists l, data = BagList l.
Proof.
  unfold predict. intros H. step_inv H. bind_inv H.
  match goal with
  | Hd : bind (lift (concat_bags _ data)) _ _ = _ |- _ =>
      step_inv Hd;
      match goal with
      | Hc : concat_bags _ data = Ok _ |- _ =>
          destruct data as [l|l|b]; simpl in Hc;
          [eauto | discriminate | discriminate]
      end
  end.
Qed.

(** With [project_all] off, every fold hands [predict] a tuple of bags (or a
    single bag), so no run over at least one fold returns. *)
Lemma crossvalidate_inductive_never_returns {E : Externals}
    bags labels num_folds o md divs cache (st : state) r st' :
  crossvalidate bags labels num_folds false o md divs cache st = (r, st') ->
  exists e, r = Raise e.
Proof.
  destruct r as [[acc preds]|e]; [|eauto]. intros H. exfalso.
  unfold crossvalidate in H. cbv zeta in H.
  repeat step_inv H.
  match goal with
  | Hk : KFold _ _ _ = (Ok ?fs, _), Hl : for_each ?fs _ _ _ = (Ok _, _) |- _ =>
      apply KFold_ok in Hk; destruct Hk as (Hk0 & _ & Hfs);
      assert (Hlen : length fs = num_folds)
        by (subst fs; unfold kfold_splits;
            now rewrite length_map, length_chunks, length_fold_sizes);
      destruct fs as [|[train test] rest]; [simpl in Hlen; lia|];
      clear Hfs Hlen; simpl in Hl; bind_inv Hl
  end.
  match goal with
  | Hb : bind (lift (itemgetter train bags)) _ _ = (Ok _, _) |- _ =>
      repeat step_inv Hb;
      match goal with
      | Hp : predict _ ?tb None _ = (Ok _, _),
        Hi : itemgetter test bags = Ok ?tb |- _ =>
          apply predict_needs_a_list in Hp; destruct Hp as (l & ->);
          exact (itemgetter_not_a_list _ _ _ Hi l eq_refl)
      end
  end.
Qed.

(** One [crossvalidate] run of two folds by a caller that holds its sigma
    grid as an ndarray: each fold's tuning multiplies the caller's array by
    the median 3 of its training divergences, so the grid [2, 4] is
    [18, 36] when the run returns. *)
Lemma crossvalidate_drift_run :
  exists (st' : state (E := drift_world)) acc preds,
    crossvalidate (E := drift_world) drift_bags [0; 0; 1; 1]%Z 2 true drift_options
      None None None drift_start
    = (Ok (acc, preds), st') /\
    nth_error (heap st') 0 = Some [18; 36].
Proof.
  eexists. eexists. eexists. split.
  - unfold crossvalidate. run. reflexivity.
  - cbn [heap nth_error]. f_equal. f_equal; [lra|]. f_equal. lra.
Qed.

(** C3: a caller holds its sigma grid as an ndarray. Two tuning calls on
    the array [2.0], on divergences whose positive median is 3: the first
    uses sigma = 2 * 3 and leaves 6 in the caller's array, the second starts
    from that 6 and uses 18. And one [crossvalidate] run of two folds on
    the array [2.0, 4.0]: the caller's grid is [18.0, 36.0] when the run
    returns, each fold's tuning having scaled what the fold before left. The
    caller's grid is changed, and the rescaling is compounded from one
    tuning call to the next. *)
Theorem tune_params_rescales_the_callers_array :
  (exists st1 st2 : state (E := plain_world),
     nth_error (heap example_heap_state) 0 = Some [2] /\
     median (positive_entries example_pair_divs) = Ok 3 /\
     tune_params example_pair_divs [0%Z; 1%Z] 3 None (PySeq [1]) (NdArray 0) true
       false 1000 (1 / 1000) 1000%Z true example_heap_state = (Ok (1, 2 * 3), st1) /\
     nth_error (heap st1) 0 = Some [2 * 3] /\
     tune_params example_pair_divs [0%Z; 1%Z] 3 None (PySeq [1]) (NdArray 0) true
       false 1000 (1 / 1000) 1000%Z true st1 = (Ok (1, 2 * 3 * 3), st2) /\
     nth_error (heap st2) 0 = Some [2 * 3 * 3] /\
     2 * 3 * 3 <> 2 * 3) /\
  (exists (st' : state (E := drift_world)) acc preds,
     nth_error (heap drift_start) 0 = Some [2; 4] /\
     crossvalidate (E := drift_world) drift_bags [0; 0; 1; 1]%Z 2 true
       drift_options None None None drift_start
     = (Ok (acc, preds), st') /\
     nth_error (heap st') 0 = Some [18; 36]).
Proof.
  split.
  - eexists. eexists. split; [reflexivity|]. split; [exact example_pair_median|].
    split; [|split; [|split; [|split]]].
    + apply tune_params_single_ndarray; [reflexivity | exact example_pair_median].
    + reflexivity.
    + apply tune_params_single_ndarray; [reflexivity | exact example_pair_median].
    + reflexivity.
    + lra.
  - destruct crossvalidate_drift_run as (st' & acc & preds & Hrun & Hheap).
    exists st', acc, preds. split; [reflexivity|]. split; assumption.
Qed.

(** * Further properties *)

(** ** The tuner on grids passed as sequences *)

Lemma bind_run {E : Externals} {A B} (c : M A) (k : A -> M B) st a st1 :
  c st = (Ok a, st1) -> bind c k st = k a st1.
Proof. intros H. unfold bind. now rewrite H. Qed.

Lemma bind_stop {E : Externals} {A B} (c : M A) (k : A -> M B) st e st1 :
  c st = (Raise e, st1) -> bind c k st = (Raise e, st1).
Proof. intros H. unfold bind. now rewrite H. Qed.

(** On grids passed as tuples or lists, [tune_params] builds its two
    arrays, rescales the second, and goes on with what it has loaded. *)
Lemma tune_params_on_sequences {E : Externals} divs labels num_folds n_proc
    (Cl Sl : list R) scale wc cs tol mi sh (st : state) :
  tune_params divs labels num_folds n_proc (PySeq Cl) (PySeq Sl) scale
    wc cs tol mi sh st
  = match scaled_sigmas scale divs Sl with
    | Ok Sl' =>
        tune_params_body divs labels num_folds n_proc Cl Sl' wc cs tol mi sh
          (mkState (heap st ++ [Cl; Sl']) (rng st) (trace st))
    | Raise e => (Raise e, mkState (heap st ++ [Cl; Sl]) (rng st) (trace st))
    end.
Proof.
  unfold tune_params.
  rewrite (bind_run _ _ st (length (heap st))
             (mkState (heap st ++ [Cl]) (rng st) (trace st))) by reflexivity.
  rewrite (bind_run _ _ _ (length (heap st ++ [Cl]))
             (mkState ((heap st ++ [Cl]) ++ [Sl]) (rng st) (trace st)))
    by reflexivity.
  unfold scaled_sigmas. destruct scale.
  - destruct (median (positive_entries divs)) as [m|e] eqn:Hm; simpl.
    + rewrite (bind_run _ _ _ tt
                 (mkState ((heap st ++ [Cl]) ++ [map (fun x => x * m) Sl])
                    (rng st) (trace st))).
      2:{ unfold bind, lift, imul. simpl. rewrite nth_error_snoc.
          now rewrite update_snoc. }
      rewrite (bind_run _ _ _ Cl
                 (mkState ((heap st ++ [Cl]) ++ [map (fun x => x * m) Sl])
                    (rng st) (trace st))).
      2:{ unfold load. simpl. now rewrite nth_error_snoc2. }
      rewrite (bind_run _ _ _ (map (fun x => x * m) Sl)
                 (mkState ((heap st ++ [Cl]) ++ [map (fun x => x * m) Sl])
                    (rng st) (trace st))).
      2:{ unfold load. simpl. now rewrite nth_error_snoc. }
      rewrite <- app_assoc. reflexivity.
    + rewrite (bind_stop _ _ _ e
                 (mkState ((heap st ++ [Cl]) ++ [Sl]) (rng st) (trace st))).
      2:{ unfold bind, lift. reflexivity. }
      now rewrite <- app_assoc.
  - rewrite (bind_run _ _ _ tt
               (mkState ((heap st ++ [Cl]) ++ [Sl]) (rng st) (trace st)))
      by reflexivity.
    rewrite (bind_run _ _ _ Cl
               (mkState ((heap st ++ [Cl]) ++ [Sl]) (rng st) (trace st))).
    2:{ unfold load. simpl. now rewrite nth_error_snoc2. }
    rewrite (bind_run _ _ _ Sl
               (mkState ((heap st ++ [Cl]) ++ [Sl]) (rng st) (trace st))).
    2:{ unfold load. simpl. now rewrite nth_error_snoc. }
    rewrite <- app_assoc. reflexivity.
Qed.

(** ** Values that do not depend on the state *)

Section Stateless.
Context {E : Externals}.

Lemma stateless_ret {A} (a : A) : stateless (ret a).
Proof. intros st1 st2. reflexivity. Qed.

Lemma stateless_lift {A} (x : res A) : stateless (lift x).
Proof. intros st1 st2. reflexivity. Qed.

Lemma stateless_log (ev : event) : stateless (log ev).
Proof. intros st1 st2. reflexivity. Qed.

Lemma stateless_bind {A B} (c : M A) (k : A -> M B) :
  stateless c -> (forall a, stateless (k a)) -> stateless (bind c k).
Proof.
  intros Hc Hk st1 st2. unfold bind.
  specialize (Hc st1 st2).
  destruct (c st1) as [[a1|e1] s1], (c st2) as [[a2|e2] s2]; simpl in Hc;
    inversion Hc; subst; [apply Hk | reflexivity].
Qed.

End Stateless.

Ltac stateless_go :=
  repeat match goal with
  | |- stateless (ret _) => apply stateless_ret
  | |- stateless (lift _) => apply stateless_lift
  | |- stateless (log _) => apply stateless_log
  | |- stateless (bind _ _) => apply stateless_bind; [| intros ?]
  | |- stateless (match ?x with _ => _ end) => destruct x
  end.

Lemma stateless_make_km {E : Externals} divs sigma : stateless (make_km divs sigma).
Proof. unfold make_km, project_psd, call_eigh. stateless_go. Qed.

Lemma stateless_try_params {E : Externals} km labels train test C params :
  stateless (try_params km labels train test C params).
Proof.
  unfold try_params, call_svc_fit, call_svc_predict. stateless_go.
Qed.

Lemma make_km_value {E : Externals} divs sigma (st : state) :
  fst (make_km divs sigma st) = kernel_of divs sigma.
Proof. apply stateless_make_km. Qed.

Lemma try_params_value {E : Externals} km labels train test C params (st : state) :
  match fst (try_params km labels train test C params st) with
  | Ok v => v
  | Raise _ => NaN
  end = task_score km labels train test C params.
Proof.
  unfold task_score.
  now rewrite (stateless_try_params km labels train test C params st fresh_state).
Qed.

(** ** The shuffle counter *)

Section KeepsRng.
Context {E : Externals}.

Lemma rng_ret {A} (a : A) : keeps_rng (ret a).
Proof. intros st r st' H. now inversion H. Qed.

Lemma rng_raise {A} (e : exn) : keeps_rng (@raise E A e).
Proof. intros st r st' H. now inversion H. Qed.

Lemma rng_lift {A} (x : res A) : keeps_rng (lift x).
Proof. intros st r st' H. now inversion H. Qed.

Lemma rng_assert (b : bool) : keeps_rng (assert_ b).
Proof. destruct b; [apply rng_ret | apply rng_raise]. Qed.

Lemma rng_log (ev : event) : keeps_rng (log ev).
Proof. intros st r st' H. now inversion H. Qed.

Lemma rng_bind {A B} (c : M A) (k : A -> M B) :
  keeps_rng c -> (forall a, keeps_rng (k a)) -> keeps_rng (bind c k).
Proof.
  intros Hc Hk st r st' H. unfold bind in H.
  destruct (c st) as [[a|e] st1] eqn:Hcst.
  - rewrite (Hk a _ _ _ H). eapply Hc; eauto.
  - inversion H; subst. eapply Hc; eauto.
Qed.

Lemma rng_for_each {A S} (l : list A) (body : A -> S -> M S) (s : S) :
  (forall x s', keeps_rng (body x s')) -> keeps_rng (for_each l body s).
Proof.
  intros Hb. revert s. induction l as [|x l IH]; intros s; simpl.
  - apply rng_ret.
  - apply rng_bind; auto.
Qed.

Lemma rng_apply_async {A S} (task : M A) (cb : A -> S -> S) (s : S) :
  keeps_rng task -> keeps_rng (apply_async task cb s).
Proof.
  intros Ht st r st' H. unfold apply_async in H.
  destruct (task st) as [[a|e] st1] eqn:Hts; inversion H; subst;
    eapply Ht; eauto.
Qed.

End KeepsRng.

Ltac rng_go :=
  repeat match goal with
  | |- keeps_rng (ret _) => apply rng_ret
  | |- keeps_rng (raise _) => apply rng_raise
  | |- keeps_rng (lift _) => apply rng_lift
  | |- keeps_rng (assert_ _) => apply rng_assert
  | |- keeps_rng (log _) => apply rng_log
  | |- keeps_rng (bind _ _) => apply rng_bind; [| intros ?]
  | |- keeps_rng (for_each _ _ _) => apply rng_for_each; intros ? ?
  | |- keeps_rng (apply_async _ _ _) => apply rng_apply_async
  | |- keeps_rng (match ?x with _ => _ end) => destruct x
  | |- keeps_rng ((match ?x with _ => _ end) _) => destruct x
  end.

Lemma rng_make_km {E : Externals} divs sigma : keeps_rng (make_km divs sigma).
Proof. unfold make_km, project_psd, call_eigh. rng_go. Qed.

Lemma rng_try_params {E : Externals} km labels train test C params :
  keeps_rng (try_params km labels train test C params).
Proof. unfold try_params, call_svc_fit, call_svc_predict. rng_go. Qed.

(** ** The projection outside and inside its contract *)

Lemma iadd_non_square (mat : ndarray2) :
  rows mat <> cols mat -> iadd mat (transpose mat) = Raise ValueError.
Proof.
  intros H. unfold iadd, badd, broadcast_dim. simpl.
  destruct (Nat.eqb_spec (rows mat) (cols mat)) as [|_]; [contradiction|].
  destruct (Nat.eqb_spec (cols mat) (rows mat)) as [|_]; [congruence|].
  destruct (Nat.eqb_spec (rows mat) 1) as [Hr|Hr],
           (Nat.eqb_spec (cols mat) 1) as [Hc|Hc]; simpl; try reflexivity.
  - congruence.
  - destruct (Nat.eqb_spec (cols mat) (rows mat)); [congruence|reflexivity].
  - rewrite Nat.eqb_refl. simpl.
    destruct (Nat.eqb_spec (rows mat) (cols mat)); [congruence|reflexivity].
Qed.

Lemma iadd_transpose_ok (mat s : ndarray2) :
  iadd mat (transpose mat) = Ok s ->
  rows mat = cols mat /\ symmetric (adiv s 2) /\ rows s = rows mat.
Proof.
  intros Hs.
  destruct (Nat.eq_dec (rows mat) (cols mat)) as [Hsq|Hsq].
  2:{ rewrite (iadd_non_square mat Hsq) in Hs. discriminate. }
  destruct (iadd_transpose mat Hsq) as (s' & Hs' & Hr & Hc & He).
  rewrite Hs in Hs'. inversion Hs'; subst s'.
  split; [exact Hsq|]. split; [|exact Hr].
  split; simpl; [congruence|].
  intros i j Hi Hj. rewrite Hr in Hi, Hj.
  rewrite !He by assumption. lra.
Qed.

(** X1: a matrix that is not square is refused by the in-place symmetrization
    of line 75, before anything is decomposed: [mat += mat.T] cannot
    broadcast into the shape of [mat]. The same holds for [make_km], whose
    Gaussian has the shape of the divergences. *)
Theorem project_psd_rejects_a_non_square_matrix {E : Externals} (mat : ndarray2)
    (min_eig sigma : R) (destroy : bool) (st : state) :
  rows mat <> cols mat ->
  project_psd mat min_eig destroy st = (Raise ValueError, st) /\
  make_km mat sigma st = (Raise ValueError, st).
Proof.
  intros H. unfold make_km, project_psd, bind, lift.
  rewrite (iadd_non_square mat H).
  rewrite (iadd_non_square (pass_through_gaussian mat sigma)) by exact H.
  split; reflexivity.
Qed.

Lemma project_psd_rejects_a_non_square_matrix_example :
  project_psd (E := plain_world) (of_rows [[1; 2]]) 0 false
    (mkState (E := plain_world) [] 0 [])
  = (Raise ValueError, mkState (E := plain_world) [] 0 []) /\
  make_km (E := plain_world) (of_rows [[1; 2]]) 1
    (mkState (E := plain_world) [] 0 [])
  = (Raise ValueError, mkState (E := plain_world) [] 0 []).
Proof.
  apply (project_psd_rejects_a_non_square_matrix (E := plain_world)
           (of_rows [[1; 2]]) 0 1 false).
  simpl. lia.
Defined.

(** A successful [project_psd], step by step. *)
Lemma project_psd_ok {E : Externals} (mat : ndarray2) (min_eig : R)
    (destroy : bool) (st : state) (out : ndarray2) (st' : state) :
  project_psd mat min_eig destroy st = (Ok out, st') ->
  exists s, iadd mat (transpose mat) = Ok s /\
    st' = mkState (heap st) (rng st) (trace st ++ [EvEigh (adiv s 2)]) /\
    symmetric out /\ rows mat = cols mat.
Proof.
  unfold project_psd, call_eigh. intros H.
  step_inv H.
  match goal with
  | Hs : iadd mat (transpose mat) = Ok ?s |- _ =>
      destruct (iadd_transpose_ok mat s Hs) as (Hsq & Hsym & Hr)
  end.
  step_inv H.
  match goal with
  | Hl : bind (log _) _ _ = _ |- _ => step_inv Hl; apply lift_ok in Hl;
      destruct Hl as [Heig Hst]
  end.
  match goal with
  | Hl : log _ st = _ |- _ => apply log_ok in Hl
  end.
  subst.
  match type of H with
  | (let (_, _) := ?p in _) _ = _ => destruct p as [vals vecs]
  end.
  step_inv H.
  destruct (Rlt_dec _ _).
  - repeat step_inv H. apply ret_ok in H. destruct H as [-> ->].
    match goal with
    | Hs2 : iadd ?m (transpose ?m) = Ok ?s2 |- _ =>
        destruct (iadd_transpose_ok m s2 Hs2) as (_ & Hsym2 & _)
    end.
    eexists. split; [eassumption|]. auto.
  - apply ret_ok in H. destruct H as [-> ->].
    eexists. split; [eassumption|]. auto.
Qed.

(** X2: whatever the eigensolver answers, a matrix that [project_psd] returns
    is symmetric; the input was square; and one decomposition was asked
    for, that of the symmetrized input. This is about the matrix returned,
    for either value of [destroy]; what a call with [destroy] set leaves in
    its argument is not stated. *)
Theorem project_psd_returns_a_symmetric_matrix {E : Externals} (mat : ndarray2)
    (min_eig : R) (destroy : bool) (st : state) (out : ndarray2) (st' : state) :
  project_psd mat min_eig destroy st = (Ok out, st') ->
  symmetric out /\ rows mat = cols mat /\
  exists s, iadd mat (transpose mat) = Ok s /\
    trace st' = trace st ++ [EvEigh (adiv s 2)].
Proof.
  intros H. destruct (project_psd_ok _ _ _ _ _ _ H) as (s & Hs & -> & Hsym & Hsq).
  simpl. split; [exact Hsym|]. split; [exact Hsq|].
  exists s. split; [exact Hs | reflexivity].
Qed.

Lemma project_psd_returns_a_symmetric_matrix_example :
  exists out st',
    project_psd (E := diagonal_world) example_indefinite 0 false diagonal_start
    = (Ok out, st') /\
    symmetric out /\ rows example_indefinite = cols example_indefinite.
Proof.
  assert (Hrun : exists out st',
            project_psd (E := diagonal_world) example_indefinite 0 false
              diagonal_start = (Ok out, st')).
  { eexists. eexists. unfold project_psd, example_indefinite. run. reflexivity. }
  destruct Hrun as (out & st' & Hrun).
  exists out, st'. split; [exact Hrun|].
  destruct (project_psd_returns_a_symmetric_matrix (E := diagonal_world)
              example_indefinite 0 false diagonal_start out st' Hrun)
    as (Hsym & Hsq & _).
  split; [exact Hsym | exact Hsq].
Defined.



(** ** The divergence cache *)


(** ** One task of the tuner *)

Lemma take_length {A} (v : list A) (idx : list nat) (l : list A) :
  take v idx = Ok l -> length l = length idx.
Proof.
  revert l. induction idx as [|i idx IH]; simpl; intros l H.
  - inversion H. reflexivity.
  - destruct (take v idx) as [t|e]; simpl in H; [|discriminate].
    destruct (nth_error v i); inversion H. simpl. now rewrite (IH t).
Qed.

(** X5: a task that completes has fitted once, on the train-train block of the
    kernel and the labels of the training fold, and predicted once, on the
    test-train block; its score is the fraction of the test bags whose
    predicted label is their label, a number in [0, 1], or nan when the
    fold tests on nothing. *)
Theorem try_params_scores_the_fraction_predicted_right {E : Externals}
    (km : ndarray2) (labels : list Z) (train test : list nat) (C : R)
    (params : R -> svc_params) (st : state) (v : npfloat) (st' : state) :
  try_params km labels train test C params st = (Ok v, st') ->
  exists train_km test_km train_labels test_labels clf f,
    split_km km train test = Ok (train_km, test_km) /\
    take labels train = Ok train_labels /\
    take labels test = Ok test_labels /\
    svc_fit (params C) train_km train_labels = Ok clf /\
    svc_predict clf test_km = Ok f /\
    trace st' = trace st ++ [EvSvcFit (params C) train_km train_labels;
                             EvSvcPredict clf test_km] /\
    (test = [] -> v = NaN) /\
    (test <> [] ->
       v = Fin (INR (agreements (map f (seq 0 (length test))) test_labels)
                / INR (length test)) /\
       0 <= INR (agreements (map f (seq 0 (length test))) test_labels)
            / INR (length test) <= 1).
Proof.
  unfold try_params, call_svc_fit, call_svc_predict. intros H.
  step_inv H.
  match type of H with
  | (let (_, _) := ?p in _) _ = _ => destruct p as [train_km test_km]
  end.
  step_inv H. bind_inv H.
  match goal with
  | Hf : bind (log _) _ _ = (Ok _, _) |- _ =>
      bind_inv Hf; apply lift_ok in Hf; destruct Hf as [Hfit ->]
  end.
  match goal with
  | Hl : log _ st = _ |- _ => apply log_ok in Hl; subst
  end.
  bind_inv H.
  match goal with
  | Hp : bind (log _) _ _ = (Ok _, _) |- _ =>
      bind_inv Hp; step_inv Hp; apply ret_ok in Hp; destruct Hp as [-> ->]
  end.
  match goal with
  | Hl : log _ _ = _ |- _ => apply log_ok in Hl; subst
  end.
  step_inv H. apply ret_ok in H. destruct H as [-> ->].
  match goal with
  | Hs : split_km _ _ _ = Ok _, Ht : take labels test = Ok ?tl,
    Hp : svc_predict _ _ = Ok ?f |- _ =>
      assert (Hrows : rows test_km = length test);
      [ unfold split_km in Hs;
        destruct (ix_ km train train) as [tk|] eqn:Htk; [|discriminate];
        destruct (ix_ km test train) as [sk|] eqn:Hsk; [|discriminate];
        simpl in Hs; inversion Hs; subst;
        apply (ix_shape _ _ _ _ Hsk)
      | pose proof (take_length _ _ _ Ht) as Hlen ]
  end.
  do 6 eexists.
  repeat (split; [eassumption|]).
  split; [simpl; rewrite <- app_assoc; reflexivity|].
  rewrite Hrows. split.
  - intros ->. simpl in *.
    match goal with
    | Ht : Ok [] = Ok _ |- _ => inversion Ht; subst
    end.
    reflexivity.
  - intros Hne.
    apply accuracy_is_fraction.
    + now rewrite length_map, length_seq.
    + exact Hlen.
    + destruct test; [contradiction|simpl; lia].
Qed.

Lemma try_params_scores_the_fraction_predicted_right_example :
  exists v st',
    try_params (E := plain_world) (identity 3) [0; 0; 1]%Z [0%nat] [1%nat; 2%nat] 1
      (fun C => mkSvc C 1000 false (1 / 1000) 1000%Z true)
      (mkState (E := plain_world) [] 0 [])
    = (Ok v, st') /\
    exists x, v = Fin x /\ 0 <= x <= 1.
Proof.
  do 2 eexists. split.
  - unfold try_params. run. reflexivity.
  - edestruct (try_params_scores_the_fraction_predicted_right (E := plain_world)
                 (identity 3) [0; 0; 1]%Z [0%nat] [1%nat; 2%nat] 1
                 (fun C => mkSvc C 1000 false (1 / 1000) 1000%Z true)
                 (mkState (E := plain_world) [] 0 []))
      as (tk & sk & tl & sl & clf & f & _ & _ & _ & _ & _ & _ & _ & Hfrac).
    + unfold try_params. run. reflexivity.
    + destruct Hfrac as [Hv Hb]; [discriminate|].
      eexists. split; [exact Hv | exact Hb].
Defined.

(** ** The grid search *)

Lemma dict_get_set_same (d : list (R * ndarray2)) (k : R) (v : ndarray2) :
  dict_get (dict_set d k v) k = Ok v.
Proof.
  induction d as [|[k' v'] d IH]; simpl.
  - destruct (Req_dec_T k k); [reflexivity|contradiction].
  - destruct (Req_dec_T k' k) as [Heq|Hne]; simpl.
    + destruct (Req_dec_T k k); [reflexivity|contradiction].
    + destruct (Req_dec_T k' k); [contradiction|exact IH].
Qed.

Lemma dict_get_set_other (d : list (R * ndarray2)) (k k2 : R) (v : ndarray2) :
  k2 <> k -> dict_get (dict_set d k v) k2 = dict_get d k2.
Proof.
  intros Hne. induction d as [|[k' v'] d IH]; simpl.
  - destruct (Req_dec_T k k2); [congruence|reflexivity].
  - destruct (Req_dec_T k' k) as [Heq|Hne']; simpl.
    + destruct (Req_dec_T k k2); [congruence|].
      destruct (Req_dec_T k' k2); [congruence|reflexivity].
    + destruct (Req_dec_T k' k2); [reflexivity|exact IH].
Qed.

Lemma submitted_app {E : Externals} (a b : list event) :
  submitted (a ++ b) = submitted a ++ submitted b.
Proof. apply flat_map_app. Qed.

Lemma decomposed_app {E : Externals} (a b : list event) :
  decomposed (a ++ b) = decomposed a ++ decomposed b.
Proof. apply flat_map_app. Qed.

Lemma requested_app {E : Externals} (a b : list event) :
  requested (a ++ b) = requested a ++ requested b.
Proof. apply flat_map_app. Qed.

(** The loop of lines 186 to 188: every candidate sigma ends up in the dict
    with the kernel of [make_km]; one decomposition per candidate. *)
Lemma sigma_loop_ok {E : Externals} (divs : ndarray2) (sigmas : list R)
    (d0 : list (R * ndarray2)) (st : state) d st' :
  for_each sigmas
    (fun sigma d => bind (make_km divs sigma) (fun km => ret (dict_set d sigma km)))
    d0 st = (Ok d, st') ->
  heap st' = heap st /\ rng st' = rng st /\
  (forall sigma, In sigma sigmas ->
     exists km, kernel_of divs sigma = Ok km /\ dict_get d sigma = Ok km) /\
  (forall sigma, ~ In sigma sigmas -> dict_get d sigma = dict_get d0 sigma) /\
  exists ms, trace st' = trace st ++ map EvEigh ms /\
    Forall2 (fun sigma m =>
               exists s, iadd (pass_through_gaussian divs sigma)
                           (transpose (pass_through_gaussian divs sigma)) = Ok s /\
                         m = adiv s 2) sigmas ms.
Proof.
  revert d0 st. induction sigmas as [|x rest IH]; intros d0 st H; simpl in H.
  - apply ret_ok in H. destruct H as [-> ->].
    split; [reflexivity|]. split; [reflexivity|].
    split; [intros ? []|]. split; [reflexivity|].
    exists []. simpl. rewrite app_nil_r. split; [reflexivity|constructor].
  - bind_inv H. bind_inv H0.
    apply ret_ok in H0. destruct H0 as [-> ->].
    match goal with
    | Hk : make_km divs x st = (Ok ?km, ?s1) |- _ =>
        assert (Hval : kernel_of divs x = Ok km)
          by (rewrite <- (make_km_value divs x st), Hk; reflexivity);
        unfold make_km in Hk;
        destruct (project_psd_ok _ _ _ _ _ _ Hk) as (s & Hs & -> & _ & _)
    end.
    destruct (IH _ _ H) as (Hh & Hr & Hin & Hout & ms & Htr & Hms).
    simpl in Hh, Hr, Htr.
    split; [exact Hh|]. split; [exact Hr|]. split; [|split].
    + intros sigma [<-|Hs'].
      * destruct (In_dec Req_dec_T x rest) as [Hi|Hni]; [now apply Hin|].
        eexists. split; [exact Hval|].
        rewrite (Hout x Hni). apply dict_get_set_same.
      * now apply Hin.
    + intros sigma Hni. simpl in Hni.
      rewrite Hout by tauto. apply dict_get_set_other. intros ->. tauto.
    + exists (adiv s 2 :: ms). split.
      * rewrite Htr, <- app_assoc. reflexivity.
      * constructor; [eauto | exact Hms].
Qed.

(** Events of a task: nothing is submitted and nothing decomposed. *)
Lemma task_trace {E : Externals} km labels train test C params (st : state) r st' :
  try_params km labels train test C params st = (r, st') ->
  submitted (trace st') = submitted (trace st) /\
  decomposed (trace st') = decomposed (trace st).
Proof.
  intros H.
  assert (He : emits (fun ev => submitted [ev] = [] /\ decomposed [ev] = [])
                 (try_params km labels train test C params)).
  { apply emits_try_params; intros; split; reflexivity. }
  destruct (He _ _ _ H) as (evs & -> & Hevs).
  - rewrite submitted_app, decomposed_app.
    assert (Hnone : submitted evs = [] /\ decomposed evs = []).
    { clear H. induction Hevs as [|ev evs [H1 H2] _ [IH1 IH2]];
        [split; reflexivity|].
      change (ev :: evs) with ([ev] ++ evs).
      rewrite submitted_app, decomposed_app, H1, H2, IH1, IH2.
      split; reflexivity. }
    destruct Hnone as [-> ->]. rewrite !app_nil_r. split; reflexivity.
Qed.

(** One submission (lines 223 to 225) that returns: the task has returned a
    score, the cell of the task holds it afterwards, and the other cells
    are unchanged. *)
Lemma task_ok {E : Externals} km labels train test C params (Ci Si f : nat)
    (sc : score_table) (st : state) sc1 st1 :
  bind (log (EvSubmit Ci Si f))
    (fun _ => apply_async (try_params km labels train test C params)
                (fun val sc => _assign_score sc Ci Si f val) sc) st
  = (Ok sc1, st1) ->
  heap st1 = heap st /\ rng st1 = rng st /\
  submitted (trace st1) = submitted (trace st) ++ [(Ci, Si, f)] /\
  decomposed (trace st1) = decomposed (trace st) /\
  (exists v, fst (try_params km labels train test C params fresh_state) = Ok v) /\
  forall c s f', sc1 c s f' =
    if ((c =? Ci) && (s =? Si) && (f' =? f))%nat%bool
    then task_score km labels train test C params
    else sc c s f'.
Proof.
  unfold bind, log, apply_async.
  set (st0 := mkState (heap st) (rng st) (trace st ++ [EvSubmit Ci Si f])).
  pose proof (try_params_value km labels train test C params st0) as Hv.
  pose proof (stateless_try_params km labels train test C params st0 fresh_state)
    as Hfresh.
  destruct (try_params km labels train test C params st0) as [r st2] eqn:Ht.
  pose proof (keeps_try_params _ _ _ _ _ _ _ _ _ Ht) as Hh.
  pose proof (rng_try_params _ _ _ _ _ _ _ _ _ Ht) as Hr.
  destruct (task_trace _ _ _ _ _ _ _ _ _ Ht) as [Hs Hd].
  simpl in Hv, Hfresh, Hh, Hr, Hs, Hd.
  unfold st0 in Hs, Hd. simpl in Hs, Hd.
  rewrite submitted_app in Hs. rewrite decomposed_app in Hd.
  simpl in Hs, Hd. rewrite app_nil_r in Hd.
  destruct r as [v|e]; intros H; [|discriminate].
  inversion H; subst sc1 st1.
  repeat (split; [assumption|]).
  split; [exists v; now rewrite <- Hfresh|].
  intros c s f'. unfold _assign_score. now rewrite Hv.
Qed.

(** The loop over the folds for one (C, sigma) pair, lines 221 to 225. *)
Lemma fold_loop_ok {E : Externals} km labels C params (Ci Si : nat)
    (d : list (R * ndarray2)) (sigma : R)
    (body : nat * (list nat * list nat) -> score_table -> M score_table) :
  (forall f train test sc,
     body (f, (train, test)) sc
     = bind (lift (dict_get d sigma)) (fun km =>
       bind (log (EvSubmit Ci Si f)) (fun _ =>
       apply_async (try_params km labels train test C params)
         (fun val sc => _assign_score sc Ci Si f val) sc))) ->
  dict_get d sigma = Ok km ->
  forall (l : list (list nat * list nat)) (k : nat) (sc : score_table) (st : state)
         sc' st',
  for_each (combine (seq k (length l)) l) body sc st = (Ok sc', st') ->
  heap st' = heap st /\ rng st' = rng st /\
  submitted (trace st')
  = submitted (trace st) ++ map (fun f => (Ci, Si, f)) (seq k (length l)) /\
  decomposed (trace st') = decomposed (trace st) /\
  (forall f train test, nth_error l f = Some (train, test) ->
     exists v, fst (try_params km labels train test C params fresh_state) = Ok v) /\
  forall c s f, sc' c s f =
    if ((c =? Ci) && (s =? Si) && (k <=? f))%nat%bool then
      match nth_error l (f - k) with
      | Some (train, test) => task_score km labels train test C params
      | None => sc c s f
      end
    else sc c s f.
Proof.
  intros Hbody Hd l. induction l as [|[train test] rest IH];
    intros k sc st sc' st' Hrun.
  - simpl in Hrun. apply ret_ok in Hrun. destruct Hrun as [-> ->].
    simpl. rewrite app_nil_r.
    repeat (split; [reflexivity|]).
    split; [intros f tr te Hf; now rewrite nth_error_nil in Hf|].
    intros c s f. destruct ((c =? Ci) && (s =? Si) && (k <=? f))%nat%bool;
      [|reflexivity].
    now rewrite nth_error_nil.
  - simpl in Hrun. apply bind_ok in Hrun.
    destruct Hrun as (sc1 & st1 & Hrun1 & Hrun').
    rewrite Hbody in Hrun1. apply bind_ok in Hrun1.
    destruct Hrun1 as (km' & st0 & Hget & Hrun1).
    apply lift_ok in Hget. destruct Hget as [Hget ->].
    assert (km' = km) by congruence. subst km'.
    destruct (task_ok _ _ _ _ _ _ _ _ _ _ _ _ _ Hrun1)
      as (Hh & Hr & Hs & Hdc & Hdone & Hsc1).
    destruct (IH _ _ _ _ _ Hrun') as (Hh' & Hr' & Hs' & Hdc' & Hdone' & Hsc').
    split; [congruence|]. split; [congruence|]. split.
    { rewrite Hs', Hs, <- app_assoc. reflexivity. }
    split; [congruence|]. split.
    { intros [|f] tr te Hf; cbn [nth_error] in Hf.
      - inversion Hf; subst. exact Hdone.
      - eapply Hdone'; eauto. }
    intros c s f. rewrite Hsc', !Hsc1.
    destruct ((c =? Ci) && (s =? Si))%nat%bool eqn:Hcs; cbn [andb];
      [|reflexivity].
    destruct (Nat.leb_spec (S k) f) as [Hlt|Hge].
    + replace (k <=? f)%nat with true by (symmetry; apply Nat.leb_le; lia).
      replace (f - k)%nat with (S (f - S k)) by lia. cbn [nth_error].
      destruct (nth_error rest (f - S k)) as [[tr te]|]; [reflexivity|].
      replace (f =? k)%nat with false by (symmetry; apply Nat.eqb_neq; lia).
      reflexivity.
    + destruct (Nat.eqb_spec f k) as [->|Hne].
      * rewrite Nat.leb_refl, Nat.sub_diag. reflexivity.
      * replace (k <=? f)%nat with false by (symmetry; apply Nat.leb_gt; lia).
        reflexivity.
Qed.

(** The loop over the (C, sigma) pairs, lines 219 to 225: a pair is
    visited once, every one of its tasks has returned a score, and its row
    of the table then holds the scores of its folds. *)
Lemma grid_loop_ok {E : Externals} divs labels folds (Cs sigmas : list R) params
    (d : list (R * ndarray2))
    (body : (nat * R) * (nat * R) -> score_table -> M score_table) :
  (forall ci C si sigma, exists inner,
     (forall sc, body ((ci, C), (si, sigma)) sc
                 = for_each (enumerate folds) inner sc) /\
     forall f train test sc,
       inner (f, (train, test)) sc
       = bind (lift (dict_get d sigma)) (fun km =>
         bind (log (EvSubmit ci si f)) (fun _ =>
         apply_async (try_params km labels train test C params)
           (fun val sc => _assign_score sc ci si f val) sc))) ->
  (forall sigma, In sigma sigmas ->
     exists km, kernel_of divs sigma = Ok km /\ dict_get d sigma = Ok km) ->
  forall (L : list ((nat * R) * (nat * R))) (sc : score_table) (st : state)
         sc' st',
  (forall ci C si sigma, In ((ci, C), (si, sigma)) L ->
     nth_error Cs ci = Some C /\ nth_error sigmas si = Some sigma) ->
  NoDup (map (fun p => (fst (fst p), fst (snd p))) L) ->
  (forall ci C si sigma f, In ((ci, C), (si, sigma)) L -> sc ci si f = NaN) ->
  for_each L body sc st = (Ok sc', st') ->
  heap st' = heap st /\ rng st' = rng st /\
  submitted (trace st')
  = submitted (trace st)
    ++ flat_map (fun p => map (fun f => (fst (fst p), fst (snd p), f))
                           (seq 0 (length folds))) L /\
  decomposed (trace st') = decomposed (trace st) /\
  (forall ci C si sigma f train test,
     In ((ci, C), (si, sigma)) L -> nth_error folds f = Some (train, test) ->
     exists km v, kernel_of divs sigma = Ok km /\
       fst (try_params km labels train test C params fresh_state) = Ok v) /\
  forall c s f, sc' c s f =
    if existsb (fun p => (c =? fst (fst p)) && (s =? fst (snd p)))%nat%bool L
    then expected_score divs labels folds Cs sigmas params c s f
    else sc c s f.
Proof.
  intros Hbody Hkm L.
  induction L as [|[[ci C] [si sigma]] rest IH];
    intros sc st sc' st' Hnth Hnd Hnan Hrun.
  - simpl in Hrun. apply ret_ok in Hrun. destruct Hrun as [-> ->].
    simpl. rewrite app_nil_r. repeat (split; [reflexivity|]).
    split; [intros ? ? ? ? ? ? ? []|]. reflexivity.
  - destruct (Hnth ci C si sigma (or_introl eq_refl)) as [HC Hsig].
    destruct (Hkm sigma (nth_error_In _ _ Hsig)) as (km & Hker & Hget).
    destruct (Hbody ci C si sigma) as (inner & Hb & Hinner).
    simpl in Hrun. apply bind_ok in Hrun.
    destruct Hrun as (sc1 & st1 & Hrun1 & Hrun').
    rewrite Hb in Hrun1. unfold enumerate in Hrun1.
    destruct (fold_loop_ok km labels C params ci si d sigma inner Hinner Hget
                folds 0%nat sc st sc1 st1 Hrun1)
      as (Hh1 & Hr1 & Hs1 & Hd1 & Hdone1 & Hsc1).
    simpl in Hnd. inversion Hnd as [|? ? Hnotin Hnd']; subst.
    destruct (IH sc1 st1 sc' st') as (Hh' & Hr' & Hs' & Hd' & Hdone' & Hsc').
    { intros. apply Hnth. now right. }
    { exact Hnd'. }
    { intros ci' C' si' sigma' f Hin. rewrite Hsc1.
      destruct ((ci' =? ci) && (si' =? si))%nat%bool eqn:Hcs.
      - apply andb_true_iff in Hcs. destruct Hcs as [H1 H2].
        apply Nat.eqb_eq in H1, H2. subst. exfalso. apply Hnotin.
        apply (in_map (fun p => (fst (fst p), fst (snd p))) _ _ Hin).
      - cbn [andb]. apply (Hnan ci' C' si' sigma'). now right. }
    { exact Hrun'. }
    split; [congruence|]. split; [congruence|]. split.
    { rewrite Hs', Hs1, <- app_assoc. reflexivity. }
    split; [congruence|]. split.
    { intros ci' C' si' sigma' f tr te [Heq|Hin] Hf.
      - inversion Heq; subst. destruct (Hdone1 _ _ _ Hf) as (v & Hv).
        exists km, v. split; assumption.
      - eapply Hdone'; eauto. }
    intros c s f. rewrite Hsc'. cbn [existsb fst snd].
    destruct (existsb _ rest); [now rewrite orb_true_r|].
    rewrite orb_false_r, Hsc1.
    destruct ((c =? ci) && (s =? si))%nat%bool eqn:Hcs; cbn [andb];
      [|reflexivity].
    apply andb_true_iff in Hcs. destruct Hcs as [H1 H2].
    apply Nat.eqb_eq in H1, H2. subst.
    unfold expected_score. rewrite HC, Hsig, Hker.
    cbn [Nat.leb]. rewrite Nat.sub_0_r.
    destruct (nth_error folds f) as [[tr te]|]; [reflexivity|].
    apply (Hnan ci C si sigma). now left.
Qed.

(** *** The pairs of the grid *)

Lemma In_combine_seq {A} (l : list A) (k i : nat) (x : A) :
  In (i, x) (combine (seq k (length l)) l) <->
  (k <= i)%nat /\ nth_error l (i - k) = Some x.
Proof.
  revert k. induction l as [|y l IH]; intros k; simpl.
  - split; [tauto|]. intros [_ H]. now rewrite nth_error_nil in H.
  - rewrite IH. split.
    + intros [H|[Hle H]].
      * inversion H; subst. rewrite Nat.sub_diag. split; [lia|reflexivity].
      * split; [lia|]. replace (i - k)%nat with (S (i - S k)) by lia. exact H.
    + intros [Hle H]. destruct (Nat.eq_dec i k) as [->|Hne].
      * rewrite Nat.sub_diag in H. simpl in H. inversion H. now left.
      * right. split; [lia|].
        replace (i - k)%nat with (S (i - S k)) in H by lia. exact H.
Qed.

Lemma In_enumerate {A} (l : list A) (i : nat) (x : A) :
  In (i, x) (enumerate l) <-> nth_error l i = Some x.
Proof.
  unfold enumerate. rewrite In_combine_seq, Nat.sub_0_r.
  split; [tauto|]. intros H. split; [lia|exact H].
Qed.

Lemma map_fst_enumerate {A} (l : list A) :
  map fst (enumerate l) = seq 0 (length l).
Proof.
  unfold enumerate. generalize 0%nat.
  induction l as [|x l IH]; intros k; simpl; [reflexivity|].
  now rewrite IH.
Qed.

Lemma NoDup_map_pair {A B C} (f : B -> C) (a : A) (l : list B) :
  NoDup (map f l) -> NoDup (map (fun b => (a, f b)) l).
Proof.
  induction l as [|b l IH]; simpl; intros H; [constructor|].
  inversion H as [|? ? Hn Hd]; subst. constructor; [|now apply IH].
  intros Hin. apply Hn. apply in_map_iff in Hin.
  destruct Hin as (b' & Heq & Hb').
  apply in_map_iff. exists b'. split; [congruence | exact Hb'].
Qed.

Lemma NoDup_grid {A B} (la : list (nat * A)) (lb : list (nat * B)) :
  NoDup (map fst la) -> NoDup (map fst lb) ->
  NoDup (map (fun p => (fst (fst p), fst (snd p))) (list_prod la lb)).
Proof.
  intros Ha Hb. induction la as [|a la IH]; simpl; [constructor|].
  simpl in Ha. inversion Ha as [|? ? Hn Hd]; subst.
  rewrite map_app, map_map. simpl.
  apply NoDup_app.
  - now apply NoDup_map_pair.
  - now apply IH.
  - intros [c s] H1 H2.
    apply in_map_iff in H1. destruct H1 as (b & Hb1 & _).
    apply in_map_iff in H2. destruct H2 as ([a' b'] & Hb2 & Hin).
    simpl in Hb1, Hb2. inversion Hb1; inversion Hb2; subst.
    apply in_prod_iff in Hin. destruct Hin as [Hin _].
    apply Hn. rewrite <- H2. now apply in_map.
Qed.

Lemma flat_map_list_prod {A B C} (g : A * B -> list C) (la : list A) (lb : list B) :
  flat_map g (list_prod la lb)
  = flat_map (fun a => flat_map (fun b => g (a, b)) lb) la.
Proof.
  induction la as [|a la IH]; simpl; [reflexivity|].
  rewrite flat_map_app, IH. f_equal.
  clear IH. induction lb as [|b lb IHb]; simpl; [reflexivity|].
  now rewrite IHb.
Qed.

Lemma flat_map_fst {A B C} (h : A -> list C) (l : list (A * B)) :
  flat_map (fun p => h (fst p)) l = flat_map h (map fst l).
Proof.
  induction l as [|p l IH]; simpl; [reflexivity|]. now rewrite IH.
Qed.

(** The triples submitted over a grid, in row-major order. *)
Lemma submitted_grid {A B} (la : list A) (lb : list B) (n : nat) :
  flat_map (fun p : (nat * A) * (nat * B) =>
              map (fun f => (fst (fst p), fst (snd p), f)) (seq 0 n))
    (list_prod (enumerate la) (enumerate lb))
  = flat_map (fun c =>
      flat_map (fun s => map (fun f => (c, s, f)) (seq 0 n)) (seq 0 (length lb)))
      (seq 0 (length la)).
Proof.
  rewrite flat_map_list_prod. cbn [fst snd].
  rewrite <- (map_fst_enumerate la).
  rewrite <- (flat_map_fst
                (fun c => flat_map (fun s => map (fun f => (c, s, f)) (seq 0 n))
                            (seq 0 (length lb)))).
  apply flat_map_ext. intros a.
  rewrite <- (map_fst_enumerate lb).
  rewrite <- (flat_map_fst (fun s => map (fun f => (fst a, s, f)) (seq 0 n))).
  reflexivity.
Qed.

Lemma cv_means_ext (s1 s2 : score_table) (nc ns nf : nat) :
  (forall c s f, s1 c s f = s2 c s f) ->
  cv_means s1 nc ns nf = cv_means s2 nc ns nf.
Proof.
  intros H. unfold cv_means. apply flat_map_ext. intros c.
  apply map_ext. intros s. f_equal. apply map_ext. intros f. apply H.
Qed.

(** *** np.argmax *)

Lemma argmax_from_spec (t : list npfloat) :
  forall (pre : list npfloat) (b : nat) (bv : R),
  nth_error pre b = Some (Fin bv) ->
  (forall j, (j < length pre)%nat ->
     exists w, nth_error pre j = Some (Fin w) /\ w <= bv /\ ((j < b)%nat -> w < bv)) ->
  first_nan (pre ++ t) (argmax_from t (length pre) b bv) \/
  (~ In NaN (pre ++ t) /\
   first_maximum (pre ++ t) (argmax_from t (length pre) b bv)).
Proof.
  induction t as [|[v|] t IH]; intros pre b bv Hb Hpre; simpl.
  - right. rewrite app_nil_r. split.
    + intros Hin. apply In_nth_error in Hin. destruct Hin as (j & Hj).
      assert (Hlt : (j < length pre)%nat) by (apply nth_error_Some; congruence).
      destruct (Hpre j Hlt) as (w & Hw & _). congruence.
    + exists bv. split; [exact Hb|]. intros j w Hj.
      assert (Hlt : (j < length pre)%nat) by (apply nth_error_Some; congruence).
      destruct (Hpre j Hlt) as (w' & Hw' & Hle & Hlt').
      rewrite Hj in Hw'. inversion Hw'; subst. split; assumption.
  - assert (Hblt : (b < length pre)%nat) by (apply nth_error_Some; congruence).
    replace (pre ++ Fin v :: t) with ((pre ++ [Fin v]) ++ t)
      by (rewrite <- app_assoc; reflexivity).
    replace (S (length pre)) with (length (pre ++ [Fin v]))
      by (rewrite length_app; simpl; lia).
    destruct (Rlt_dec bv v) as [Hlt|Hge].
    + replace (length pre) with (length (pre ++ [Fin v]) - 1)%nat at 2
        by (rewrite length_app; simpl; lia).
      replace (length (pre ++ [Fin v]) - 1)%nat with (length pre)
        by (rewrite length_app; simpl; lia).
      apply IH.
      * rewrite nth_error_app2 by lia. now rewrite Nat.sub_diag.
      * intros j Hj. rewrite length_app in Hj. simpl in Hj.
        destruct (Nat.eq_dec j (length pre)) as [->|Hne].
        -- exists v. rewrite nth_error_app2 by lia. rewrite Nat.sub_diag.
           split; [reflexivity|]. split; [lra|lia].
        -- destruct (Hpre j ltac:(lia)) as (w & Hw & Hle & _).
           exists w. rewrite nth_error_app1 by lia.
           split; [exact Hw|]. split; [lra|]. intros _. lra.
    + apply IH.
      * rewrite nth_error_app1 by lia. exact Hb.
      * intros j Hj. rewrite length_app in Hj. simpl in Hj.
        destruct (Nat.eq_dec j (length pre)) as [->|Hne].
        -- exists v. rewrite nth_error_app2 by lia. rewrite Nat.sub_diag.
           split; [reflexivity|]. split; [lra|lia].
        -- destruct (Hpre j ltac:(lia)) as (w & Hw & Hle & Hlt').
           exists w. rewrite nth_error_app1 by lia. auto.
  - left. split.
    + rewrite nth_error_app2 by lia. now rewrite Nat.sub_diag.
    + intros j Hj. rewrite nth_error_app1 by lia.
      destruct (Hpre j Hj) as (w & Hw & _). congruence.
Qed.

(** [np.argmax] returns the first nan if there is one, and otherwise the
    first position of the largest value. *)
Lemma np_argmax_spec (l : list npfloat) (best : nat) :
  np_argmax l = Ok best ->
  first_nan l best \/ (~ In NaN l /\ first_maximum l best).
Proof.
  destruct l as [|[v|] t]; simpl; intros H; inversion H; subst.
  - apply (argmax_from_spec t [Fin v] 0%nat v); [reflexivity|].
    intros j Hj. simpl in Hj. assert (j = 0%nat) by lia. subst.
    exists v. split; [reflexivity|]. split; [lra|lia].
  - left. split; [reflexivity|]. intros j Hj. lia.
Qed.

Lemma KFold_state {E : Externals} (n k : nat) (st : state) folds st' :
  KFold n k st = (Ok folds, st') ->
  st' = mkState (heap st) (S (rng st)) (trace st ++ [EvKFold n k]) /\
  length folds = k.
Proof.
  intros H. pose proof (KFold_ok _ _ _ _ _ H) as (_ & _ & ->).
  split.
  - revert H. unfold KFold, bind, log, raise, draw_shuffle, ret. simpl.
    destruct (k =? 0)%nat; [discriminate|].
    destruct (n <? k)%nat; [discriminate|].
    intros H. now inversion H.
  - unfold kfold_splits.
    now rewrite length_map, length_chunks, length_fold_sizes.
Qed.

Lemma item_ok {A} (l : list A) (i : nat) (x : A) :
  item l i = Ok x -> nth_error l i = Some x.
Proof.
  unfold item. destruct (nth_error l i); intros H; inversion H; reflexivity.
Qed.

(** A grid search that returns, step by step. *)
Lemma tune_params_body_ok {E : Externals} divs labels num_folds n_proc
    (Cs sigmas : list R) wc cs tol mi sh (st : state) (r : R * R) (st' : state) :
  ((length Cs <=? 1) && (length sigmas <=? 1))%nat%bool = false ->
  tune_params_body divs labels num_folds n_proc Cs sigmas wc cs tol mi sh st
  = (Ok r, st') ->
  let params := fun C => mkSvc C cs wc tol mi sh in
  let folds := kfold_splits (rows divs) num_folds (shuffle (rng st) (rows divs)) in
  let means := cv_means (expected_score divs labels folds Cs sigmas params)
                 (length Cs) (length sigmas) num_folds in
  (forall c s f C sigma train test,
     nth_error Cs c = Some C -> nth_error sigmas s = Some sigma ->
     nth_error folds f = Some (train, test) ->
     exists km v, kernel_of divs sigma = Ok km /\
       fst (try_params km labels train test C params fresh_state) = Ok v) /\
  cols divs = rows divs /\ length labels = rows divs /\
  (0 < num_folds <= rows divs)%nat /\
  (forall sigma, In sigma sigmas -> exists km, kernel_of divs sigma = Ok km) /\
  heap st' = heap st /\ rng st' = S (rng st) /\
  (exists ms,
     decomposed (trace st') = decomposed (trace st) ++ ms /\
     Forall2 (fun sigma m =>
                exists s, iadd (pass_through_gaussian divs sigma)
                            (transpose (pass_through_gaussian divs sigma)) = Ok s /\
                          m = adiv s 2) sigmas ms) /\
  submitted (trace st')
  = submitted (trace st)
    ++ flat_map (fun c =>
         flat_map (fun s => map (fun f => (c, s, f)) (seq 0 num_folds))
           (seq 0 (length sigmas)))
         (seq 0 (length Cs)) /\
  exists best,
    np_argmax means = Ok best /\
    nth_error sigmas (best mod length sigmas) = Some (fst r) /\
    nth_error Cs (best / length sigmas) = Some (snd r).
Proof.
  intros Hnd H. cbv zeta. unfold tune_params_body in H. rewrite Hnd in H.
  cbv zeta in H.
  step_inv H. step_inv H. bind_inv H.
  match goal with
  | Hs : for_each sigmas _ _ _ = (Ok ?d, ?s1) |- _ =>
      destruct (sigma_loop_ok _ _ _ _ _ _ Hs)
        as (Hh1 & Hr1 & Hin & _ & ms & Htr1 & Hms);
      clear Hs; rename d into sigma_kms; rename s1 into st1
  end.
  bind_inv H.
  match goal with
  | Hk : KFold _ _ _ = (Ok ?fs, _) |- _ =>
      pose proof (KFold_ok _ _ _ _ _ Hk) as (Hk0 & Hkn & Hfs);
      destruct (KFold_state _ _ _ _ _ Hk) as (-> & Hlen); clear Hk;
      rename fs into folds
  end.
  bind_inv H.
  match goal with
  | Hl : log _ _ = _ |- _ => apply log_ok in Hl; subst
  end.
  bind_inv H.
  lazymatch goal with
  | Hg : for_each (list_prod _ _) ?body nan_table ?s3 = (Ok ?tab, ?sfin) |- _ =>
      destruct (grid_loop_ok divs labels
                  (kfold_splits (rows divs) num_folds (shuffle (rng st1) (rows divs)))
                  Cs sigmas (fun C => mkSvc C cs wc tol mi sh) sigma_kms body)
        with (L := list_prod (enumerate Cs) (enumerate sigmas))
             (sc := nan_table) (st := s3) (sc' := tab) (st' := sfin)
        as (Hh4 & Hr4 & Hs4 & Hd4 & Hdone & Hsc);
      [ intros ci C si sigma; eexists; split; intros; reflexivity
      | exact Hin
      | intros ci C si sigma Hp; apply in_prod_iff in Hp;
        destruct Hp as [Hp1 Hp2]; apply In_enumerate in Hp1, Hp2; auto
      | apply NoDup_grid; rewrite map_fst_enumerate; apply seq_NoDup
      | reflexivity
      | exact Hg
      | clear Hg ]
  end.
  simpl in Hh4, Hr4, Hs4, Hd4.
  step_inv H. step_inv H. step_inv H.
  apply ret_ok in H. destruct H as [-> ->].
  apply Nat.eqb_eq in H0, H1.
  rewrite Hr1 in *.
  split.
  { intros c s f C sigma train test HC Hsig Hf.
    apply (Hdone c C s sigma f train test); [|exact Hf].
    apply in_prod_iff. split; now apply In_enumerate. }
  split; [exact H0|]. split; [exact H1|]. split; [lia|].
  split; [intros sigma Hs; destruct (Hin sigma Hs) as (km & Hk & _); eauto|].
  split; [congruence|]. split; [congruence|].
  split.
  { exists ms. split; [|exact Hms].
    rewrite Hd4, !decomposed_app, Htr1, decomposed_app. simpl.
    rewrite !app_nil_r. f_equal.
    clear. induction ms as [|m ms IH]; simpl; [reflexivity|]. now rewrite IH. }
  split.
  { rewrite Hs4, !submitted_app, Htr1, submitted_app. simpl.
    rewrite !app_nil_r, submitted_grid, Hlen.
    f_equal.
    replace (submitted (map EvEigh ms)) with (@nil (nat * nat * nat));
      [now rewrite app_nil_r|].
    clear. induction ms as [|m ms IH]; simpl; [reflexivity|]. exact IH. }
  match goal with
  | Ha : np_argmax _ = Ok ?b |- _ =>
      exists b; split; [|split; simpl; now apply item_ok]
  end.
  match goal with
  | Ha : np_argmax _ = Ok ?b |- _ => rewrite <- Ha
  end.
  f_equal. apply cv_means_ext. intros c s f. rewrite Hsc.
  destruct (existsb _ _) eqn:Hex; [reflexivity|].
  unfold expected_score, nan_table.
  destruct (nth_error Cs c) as [C|] eqn:HC; [|reflexivity].
  destruct (nth_error sigmas s) as [sigma|] eqn:Hsig; [|reflexivity].
  exfalso.
  assert (Hp : In ((c, C), (s, sigma)) (list_prod (enumerate Cs) (enumerate sigmas))).
  { apply in_prod_iff. split; now apply In_enumerate. }
  assert (Htrue : existsb
            (fun p : nat * R * (nat * R) =>
               ((c =? fst (fst p)) && (s =? fst (snd p)))%nat%bool)
            (list_prod (enumerate Cs) (enumerate sigmas)) = true).
  { apply existsb_exists. eexists. split; [exact Hp|]. simpl.
    now rewrite !Nat.eqb_refl. }
  congruence.
Qed.

Lemma scaled_sigmas_length scale divs Sl sigmas :
  scaled_sigmas scale divs Sl = Ok sigmas -> length sigmas = length Sl.
Proof.
  unfold scaled_sigmas. destruct scale.
  - destruct (median (positive_entries divs)); simpl; intros H; inversion H.
    apply length_map.
  - intros H. now inversion H.
Qed.

(** A grid search over grids passed as sequences that returns. *)
Lemma tune_params_sequences_ok {E : Externals} divs labels num_folds n_proc
    (Cl Sl : list R) scale wc cs tol mi sh (st : state) (sigmas : list R)
    (r : R * R) (st' : state) :
  scaled_sigmas scale divs Sl = Ok sigmas ->
  (2 <= length Cl \/ 2 <= length Sl)%nat ->
  tune_params divs labels num_folds n_proc (PySeq Cl) (PySeq Sl) scale
    wc cs tol mi sh st = (Ok r, st') ->
  let params := fun C => mkSvc C cs wc tol mi sh in
  let folds := kfold_splits (rows divs) num_folds (shuffle (rng st) (rows divs)) in
  let means := cv_means (expected_score divs labels folds Cl sigmas params)
                 (length Cl) (length sigmas) num_folds in
  (forall c s f C sigma train test,
     nth_error Cl c = Some C -> nth_error sigmas s = Some sigma ->
     nth_error folds f = Some (train, test) ->
     exists km v, kernel_of divs sigma = Ok km /\
       fst (try_params km labels train test C params fresh_state) = Ok v) /\
  cols divs = rows divs /\ length labels = rows divs /\
  (0 < num_folds <= rows divs)%nat /\
  (forall sigma, In sigma sigmas -> exists km, kernel_of divs sigma = Ok km) /\
  heap st' = heap st ++ [Cl; sigmas] /\ rng st' = S (rng st) /\
  (exists ms,
     decomposed (trace st') = decomposed (trace st) ++ ms /\
     Forall2 (fun sigma m =>
                exists s, iadd (pass_through_gaussian divs sigma)
                            (transpose (pass_through_gaussian divs sigma)) = Ok s /\
                          m = adiv s 2) sigmas ms) /\
  submitted (trace st')
  = submitted (trace st)
    ++ flat_map (fun c =>
         flat_map (fun s => map (fun f => (c, s, f)) (seq 0 num_folds))
           (seq 0 (length sigmas)))
         (seq 0 (length Cl)) /\
  exists best,
    np_argmax means = Ok best /\
    nth_error sigmas (best mod length sigmas) = Some (fst r) /\
    nth_error Cl (best / length sigmas) = Some (snd r).
Proof.
  intros Hsc Hgrid H. rewrite tune_params_on_sequences, Hsc in H.
  pose proof (scaled_sigmas_length _ _ _ _ Hsc) as Hlen.
  assert (Hnd : ((length Cl <=? 1) && (length sigmas <=? 1))%nat%bool = false).
  { apply andb_false_iff. rewrite !Nat.leb_gt. lia. }
  exact (tune_params_body_ok _ _ _ _ _ _ _ _ _ _ _ _ _ _ Hnd H).
Qed.

Lemma first_maximum_is_a_maximum (means : list npfloat) (best : nat) :
  first_maximum means best -> a_maximum means best.
Proof.
  intros (v & Hv & Hmax). exists v. split; [exact Hv|].
  intros j w Hj. exact (proj1 (Hmax j w Hj)).
Qed.

(** X6: the pair that a grid search over sequences returns. In a run that
    returns, every task of the grid has returned its accuracy: for the C of
    index [c], the sigma of index [s] (rescaled when rescaling is on) and
    the fold of index [f], the table of scores holds the accuracy of
    [try_params] on the kernel of [make_km]. The means of the table over
    the folds are laid out row by row, C major, and the pair returned is
    (sigma, C) at a position whose mean is the largest of the means, or at
    the first nan among the means if there is one. Which of several
    positions with the same largest mean is taken is not stated here: with
    float64 sums it depends on the rounding. *)
Theorem tune_params_picks_a_best_pair {E : Externals} divs labels
    num_folds n_proc (Cl Sl : list R) scale wc cs tol mi sh (st : state)
    (sigmas : list R) (r : R * R) (st' : state) :
  scaled_sigmas scale divs Sl = Ok sigmas ->
  (2 <= length Cl \/ 2 <= length Sl)%nat ->
  tune_params divs labels num_folds n_proc (PySeq Cl) (PySeq Sl) scale
    wc cs tol mi sh st = (Ok r, st') ->
  let params := fun C => mkSvc C cs wc tol mi sh in
  let folds := kfold_splits (rows divs) num_folds (shuffle (rng st) (rows divs)) in
  let table := expected_score divs labels folds Cl sigmas params in
  let means := cv_means table (length Cl) (length sigmas) num_folds in
  (forall c s f C sigma train test,
     nth_error Cl c = Some C -> nth_error sigmas s = Some sigma ->
     nth_error folds f = Some (train, test) ->
     exists km v, kernel_of divs sigma = Ok km /\
       fst (try_params km labels train test C params fresh_state) = Ok v /\
       table c s f = v) /\
  exists best,
    (first_nan means best \/ (~ In NaN means /\ a_maximum means best)) /\
    nth_error sigmas (best mod length sigmas) = Some (fst r) /\
    nth_error Cl (best / length sigmas) = Some (snd r).
Proof.
  intros Hsc Hgrid H.
  destruct (tune_params_sequences_ok _ _ _ _ _ _ _ _ _ _ _ _ _ _ _ _ Hsc Hgrid H)
    as (Hdone & _ & _ & _ & _ & _ & _ & _ & _ & best & Hbest & Hs & Hc).
  cbv zeta. split.
  - intros c s f C sigma train test HC Hsig Hf.
    destruct (Hdone c s f C sigma train test HC Hsig Hf) as (km & v & Hk & Hv).
    exists km, v. split; [exact Hk|]. split; [exact Hv|].
    unfold expected_score. rewrite HC, Hsig, Hf, Hk.
    unfold task_score. now rewrite Hv.
  - exists best. split; [|split; assumption].
    destruct (np_argmax_spec _ _ Hbest) as [Hn|[Hn Hm]]; [now left|right].
    split; [exact Hn|]. now apply first_maximum_is_a_maximum.
Qed.

Lemma tune_params_example_run :
  exists st' : state (E := four_world),
    tune_params (E := four_world) example_four_divs [0; 0; 1; 1]%Z 2 None
      (PySeq [1; 2]) (PySeq [1]) false false 1000 (1 / 1000) 1000%Z true
      four_start
    = (Ok (1, 1), st').
Proof. eexists. unfold tune_params. run. reflexivity. Qed.

Lemma tune_params_picks_a_best_pair_example :
  exists (st' : state (E := four_world)) (best : nat),
    tune_params (E := four_world) example_four_divs [0; 0; 1; 1]%Z 2 None
      (PySeq [1; 2]) (PySeq [1]) false false 1000 (1 / 1000) 1000%Z true
      four_start
    = (Ok (1, 1), st') /\
    nth_error [1] (best mod 1) = Some 1 /\
    nth_error [1; 2] (best / 1) = Some 1.
Proof.
  destruct tune_params_example_run as (st' & Hrun).
  destruct (tune_params_picks_a_best_pair (E := four_world)
              example_four_divs [0; 0; 1; 1]%Z 2 None [1; 2] [1] false
              false 1000 (1 / 1000) 1000%Z true four_start [1] (1, 1) st')
    as (_ & best & _ & Hs & Hc).
  - reflexivity.
  - left. simpl. lia.
  - exact Hrun.
  - exists st', best. split; [exact Hrun|]. split; [exact Hs | exact Hc].
Defined.

(** X7: the work of a grid search over sequences that returns: one task is
    submitted to the pool for every C, every sigma and every fold, each
    triple of indices once and in row-major order (C, then sigma, then
    fold). *)
Theorem tune_params_submits_each_task_once {E : Externals} divs labels
    num_folds n_proc (Cl Sl : list R) scale wc cs tol mi sh (st : state)
    (sigmas : list R) (r : R * R) (st' : state) :
  scaled_sigmas scale divs Sl = Ok sigmas ->
  (2 <= length Cl \/ 2 <= length Sl)%nat ->
  tune_params divs labels num_folds n_proc (PySeq Cl) (PySeq Sl) scale
    wc cs tol mi sh st = (Ok r, st') ->
  submitted (trace st')
  = submitted (trace st)
    ++ flat_map (fun c =>
         flat_map (fun s => map (fun f => (c, s, f)) (seq 0 num_folds))
           (seq 0 (length Sl)))
         (seq 0 (length Cl)) /\
  NoDup (flat_map (fun c =>
           flat_map (fun s => map (fun f => (c, s, f)) (seq 0 num_folds))
             (seq 0 (length Sl)))
           (seq 0 (length Cl))) /\
  (forall c s f, (c < length Cl)%nat -> (s < length Sl)%nat ->
     (f < num_folds)%nat ->
     In (c, s, f)
        (flat_map (fun c =>
           flat_map (fun s => map (fun f => (c, s, f)) (seq 0 num_folds))
             (seq 0 (length Sl)))
           (seq 0 (length Cl)))).
Proof.
  intros Hsc Hgrid H.
  destruct (tune_params_sequences_ok _ _ _ _ _ _ _ _ _ _ _ _ _ _ _ _ Hsc Hgrid H)
    as (_ & _ & _ & _ & _ & _ & _ & _ & Hsub & _).
  rewrite (scaled_sigmas_length _ _ _ _ Hsc) in Hsub.
  split; [exact Hsub|]. split.
  - clear. generalize (seq_NoDup (length Cl) 0).
    generalize (seq 0 (length Cl)) as lc.
    induction lc as [|c lc IH]; intros Hnd; simpl; [constructor|].
    inversion Hnd as [|? ? Hn Hd]; subst.
    apply NoDup_app.
    + generalize (seq_NoDup (length Sl) 0).
      generalize (seq 0 (length Sl)) as ls.
      induction ls as [|s ls IHs]; intros Hnds; simpl; [constructor|].
      inversion Hnds as [|? ? Hns Hds]; subst.
      apply NoDup_app.
      * apply (NoDup_map_pair (fun f => f) (c, s)).
        rewrite map_id. apply seq_NoDup.
      * now apply IHs.
      * intros [[c' s'] f] H1 H2.
        apply in_map_iff in H1. destruct H1 as (f1 & Heq & _).
        inversion Heq; subst.
        apply in_flat_map in H2. destruct H2 as (s2 & Hs2 & Hin).
        apply in_map_iff in Hin. destruct Hin as (f2 & Heq2 & _).
        inversion Heq2; subst. contradiction.
    + now apply IH.
    + intros [[c' s'] f] H1 H2.
      apply in_flat_map in H1. destruct H1 as (s1 & _ & Hin).
      apply in_map_iff in Hin. destruct Hin as (f1 & Heq & _).
      inversion Heq; subst.
      apply in_flat_map in H2. destruct H2 as (c2 & Hc2 & Hin).
      apply in_flat_map in Hin. destruct Hin as (s2 & _ & Hin).
      apply in_map_iff in Hin. destruct Hin as (f2 & Heq2 & _).
      inversion Heq2; subst. contradiction.
  - intros c s f Hc Hs Hf.
    apply in_flat_map. exists c. split; [apply in_seq; lia|].
    apply in_flat_map. exists s. split; [apply in_seq; lia|].
    apply in_map_iff. exists f. split; [reflexivity|apply in_seq; lia].
Qed.

Lemma tune_params_submits_each_task_once_example :
  exists st' : state (E := four_world),
    tune_params (E := four_world) example_four_divs [0; 0; 1; 1]%Z 2 None
      (PySeq [1; 2]) (PySeq [1]) false false 1000 (1 / 1000) 1000%Z true
      four_start
    = (Ok (1, 1), st') /\
    submitted (trace st')
    = [(0, 0, 0); (0, 0, 1); (1, 0, 0); (1, 0, 1)]%nat.
Proof.
  destruct tune_params_example_run as (st' & Hrun).
  destruct (tune_params_submits_each_task_once (E := four_world)
              example_four_divs [0; 0; 1; 1]%Z 2 None [1; 2] [1] false
              false 1000 (1 / 1000) 1000%Z true four_start [1] (1, 1) st')
    as (Hsub & _).
  - reflexivity.
  - left. simpl. lia.
  - exact Hrun.
  - exists st'. split; [exact Hrun | exact Hsub].
Defined.

(** X8: the kernels of a grid search over sequences that returns: the
    divergences are square, and [eigh] is called once for every candidate
    sigma, in the order of the grid, on the symmetrized Gaussian kernel of
    that sigma; the number of decompositions does not grow with the number
    of C candidates or of folds. *)
Theorem tune_params_decomposes_once_per_sigma {E : Externals} divs labels
    num_folds n_proc (Cl Sl : list R) scale wc cs tol mi sh (st : state)
    (sigmas : list R) (r : R * R) (st' : state) :
  scaled_sigmas scale divs Sl = Ok sigmas ->
  (2 <= length Cl \/ 2 <= length Sl)%nat ->
  tune_params divs labels num_folds n_proc (PySeq Cl) (PySeq Sl) scale
    wc cs tol mi sh st = (Ok r, st') ->
  cols divs = rows divs /\
  exists ms,
    decomposed (trace st') = decomposed (trace st) ++ ms /\
    length ms = length Sl /\
    Forall2 (fun sigma m =>
               rows m = rows divs /\ cols m = rows divs /\
               forall i j, (i < rows divs)%nat -> (j < rows divs)%nat ->
                 entry m i j
                 = (np_exp (- ((entry divs i j / sigma) ^ 2) / 2)
                    + np_exp (- ((entry divs j i / sigma) ^ 2) / 2)) / 2)
      sigmas ms.
Proof.
  intros Hsc Hgrid H.
  destruct (tune_params_sequences_ok _ _ _ _ _ _ _ _ _ _ _ _ _ _ _ _ Hsc Hgrid H)
    as (_ & Hsq & _ & _ & _ & _ & _ & (ms & Hdec & Hms) & _).
  split; [exact Hsq|]. exists ms. split; [exact Hdec|]. split.
  - rewrite <- (scaled_sigmas_length _ _ _ _ Hsc).
    symmetry. eapply Forall2_length; eauto.
  - eapply Forall2_impl; [|exact Hms].
    intros sigma m (s & Hs & ->).
    assert (Hsq' : rows (pass_through_gaussian divs sigma)
                   = cols (pass_through_gaussian divs sigma)) by (simpl; congruence).
    destruct (iadd_transpose _ Hsq') as (s' & Hs' & Hr & Hc & He).
    rewrite Hs in Hs'. inversion Hs'; subst s'.
    change (rows (pass_through_gaussian divs sigma)) with (rows divs) in *.
    unfold adiv at 1 2 3, amap. cbn [rows cols entry].
    split; [exact Hr|]. split; [exact Hc|].
    intros i j Hi Hj. rewrite (He i j Hi Hj), !gaussian_entry. reflexivity.
Qed.

Lemma tune_params_decomposes_once_per_sigma_example :
  exists (st' : state (E := four_world)) (m : ndarray2),
    tune_params (E := four_world) example_four_divs [0; 0; 1; 1]%Z 2 None
      (PySeq [1; 2]) (PySeq [1]) false false 1000 (1 / 1000) 1000%Z true
      four_start
    = (Ok (1, 1), st') /\
    decomposed (trace st') = [m] /\ rows m = 4%nat.
Proof.
  destruct tune_params_example_run as (st' & Hrun).
  destruct (tune_params_decomposes_once_per_sigma (E := four_world)
              example_four_divs [0; 0; 1; 1]%Z 2 None [1; 2] [1] false
              false 1000 (1 / 1000) 1000%Z true four_start [1] (1, 1) st')
    as (_ & ms & Hdec & Hlen & Hms).
  - reflexivity.
  - left. simpl. lia.
  - exact Hrun.
  - destruct ms as [|m [|m' ms]]; [discriminate| |discriminate].
    exists st', m. split; [exact Hrun|]. split; [exact Hdec|].
    inversion Hms as [|? ? ? ? (Hr & _) _]; subst. exact Hr.
Defined.

(** Grids passed as tuples or lists are copied by [np.asarray]: whatever
    the call does and however it ends, the arrays that the caller holds are
    as they were, the rescaling of line 174 having gone to the copy. *)
Lemma tune_params_on_sequences_keeps_the_callers_arrays {E : Externals}
    divs labels num_folds n_proc (Cl Sl : list R) scale wc cs tol mi sh
    (st : state) :
  exists fresh,
    heap (snd (tune_params divs labels num_folds n_proc (PySeq Cl) (PySeq Sl)
                 scale wc cs tol mi sh st))
    = heap st ++ fresh.
Proof.
  destruct (tune_params divs labels num_folds n_proc (PySeq Cl) (PySeq Sl)
              scale wc cs tol mi sh st) as [r st'] eqn:H.
  cbn [snd]. rewrite (tune_params_heap _ _ _ _ _ _ _ _ _ _ _ _ _ _ _ H).
  unfold after_scaling, after_asarray. simpl.
  destruct scale; [|rewrite <- app_assoc; eauto].
  destruct (median (positive_entries divs)) as [m|e];
    [|rewrite <- app_assoc; eauto].
  rewrite nth_error_snoc, update_snoc, <- app_assoc. eauto.
Qed.

(** X10: a grid search over an empty grid never returns a pair: with no C
    candidate, or with no sigma candidate, the call ends in an exception
    whatever else it is given. *)
Theorem tune_params_with_an_empty_grid_never_returns {E : Externals}
    divs labels num_folds n_proc (Cl Sl : list R) scale wc cs tol mi sh
    (st : state) :
  (exists e,
     fst (tune_params divs labels num_folds n_proc (PySeq []) (PySeq Sl) scale
            wc cs tol mi sh st) = Raise e) /\
  (exists e,
     fst (tune_params divs labels num_folds n_proc (PySeq Cl) (PySeq []) scale
            wc cs tol mi sh st) = Raise e).
Proof.
  split.
  - rewrite tune_params_on_sequences.
    destruct (scaled_sigmas scale divs Sl) as [sigmas|e] eqn:Hsc; [|simpl; eauto].
    match goal with
    | |- exists e, fst ?run = _ => destruct run as [[r|e] st'] eqn:H
    end; [exfalso|simpl; eauto].
    destruct ((length (@nil R) <=? 1) && (length sigmas <=? 1))%nat%bool eqn:Hnd.
    + unfold tune_params_body in H. rewrite Hnd in H. discriminate.
    + destruct (tune_params_body_ok _ _ _ _ _ _ _ _ _ _ _ _ _ _ Hnd H)
        as (_ & _ & _ & _ & _ & _ & _ & _ & _ & best & _ & _ & Hc).
      now rewrite nth_error_nil in Hc.
  - rewrite tune_params_on_sequences.
    destruct (scaled_sigmas scale divs []) as [sigmas|e] eqn:Hsc; [|simpl; eauto].
    pose proof (scaled_sigmas_length _ _ _ _ Hsc) as Hlen.
    destruct sigmas; [|discriminate].
    match goal with
    | |- exists e, fst ?run = _ => destruct run as [[r|e] st'] eqn:H
    end; [exfalso|simpl; eauto].
    destruct ((length Cl <=? 1) && (length (@nil R) <=? 1))%nat%bool eqn:Hnd.
    + unfold tune_params_body in H. rewrite Hnd in H.
      destruct Cl as [|c Cl]; [discriminate|]. discriminate.
    + destruct (tune_params_body_ok _ _ _ _ _ _ _ _ _ _ _ _ _ _ Hnd H)
        as (_ & _ & _ & _ & _ & _ & _ & _ & _ & best & _ & Hs & _).
      now rewrite nth_error_nil in Hs.
Qed.

(** ** The estimator outside its contract *)

(** X13: [fit] checks its labels before anything else: a label vector that does
    not have one entry per bag (or has a single entry, which [np.squeeze]
    turns into a scalar), a label below -1, or fewer than two labeled bags
    end the call in an AssertionError with nothing computed, nothing asked
    of the divergence estimator and no array touched. *)
Theorem fit_rejects_labels_outside_its_contract {E : Externals}
    (self : SupportDistributionMachine) (X : bagseq bag) (y : list Z)
    (divs : option ndarray2) (cache : option String.string) (st : state) :
  length y <> len X \/ length y = 1%nat \/
  (exists v, In v y /\ (v < -1)%Z) \/
  (length (select (labeled y) y) < 2)%nat ->
  fit self X y divs cache st = (Raise AssertionError, st).
Proof.
  intros H. unfold fit. cbv zeta.
  destruct (squeezed_shape_is y (len X)) eqn:Hshape.
  2:{ reflexivity. }
  destruct (forallb (fun v => (-1 <=? v)%Z) y) eqn:Hall.
  2:{ reflexivity. }
  destruct (2 <=? length (select (map (fun v => negb (v =? -1)%Z) y) y))%nat
    eqn:Hcount.
  2:{ reflexivity. }
  exfalso.
  unfold squeezed_shape_is in Hshape. apply andb_true_iff in Hshape.
  destruct Hshape as [Hlen Hone].
  apply Nat.eqb_eq in Hlen. apply negb_true_iff, Nat.eqb_neq in Hone.
  apply Nat.leb_le in Hcount.
  destruct H as [H|[H|[(v & Hin & Hv)|H]]]; try contradiction.
  - rewrite forallb_forall in Hall. specialize (Hall v Hin).
    apply Z.leb_le in Hall. lia.
  - unfold labeled in H. lia.
Qed.

Lemma fit_rejects_labels_outside_its_contract_example :
  fit (E := three_world) (__init__ three_options None) three_bags
    [0; -1; -1]%Z None None three_start
  = (Raise AssertionError, three_start).
Proof.
  apply (fit_rejects_labels_outside_its_contract (E := three_world)).
  right. right. right. simpl. lia.
Defined.

(** X14: an estimator built with one C candidate [c] and one sigma candidate [s]
    (given as sequences, no rescaling): [fit] takes the pair that the tuner
    returns as (sigma, C), so what it stores and uses is swapped. The
    kernel is built with bandwidth [c], the final SVM is trained with
    regularization [s], and the fitted estimator has [sigma_ = c] and
    [C_ = s]. *)
Theorem fit_with_single_candidates_swaps_sigma_and_C {E : Externals}
    (self : SupportDistributionMachine) (X : bagseq bag) (y : list Z)
    (divs : option ndarray2) (cache : option String.string) (c s : R)
    (st : state) (est : SupportDistributionMachine) (st' : state) :
  C_vals self = PySeq [c] -> sigma_vals self = PySeq [s] ->
  scale_sigma self = false ->
  fit self X y divs cache st = (Ok est, st') ->
  sigma_ est = Some c /\ C_ est = Some s /\
  exists D st1 km st2 train_km,
    make_km D c st1 = (Ok km, st2) /\
    trace st' = trace st2 ++
      [EvSvcFit (mkSvc s (cache_size self) (weight_classes self) (svm_tol self)
                   (svm_max_iter self) (svm_shrinking self))
         train_km (select (labeled y) y)].
Proof.
  intros HC HS Hscale Hrun.
  destruct (fit_ok self X y divs cache st est st' Hrun)
    as (bags & D & st0 & sub & sigma & C & st1 & km & st2 & train_km & clf
        & HX & Hlen & HD & Hsub & Htune & Hkm & Htk & Hfit & ->).
  rewrite HC, HS, Hscale in Htune.
  rewrite (tune_params_single _ _ _ _ c s false 0) in Htune
    by (intros; discriminate).
  inversion Htune; subst sigma C st1. clear Htune.
  split; [reflexivity|]. split; [reflexivity|].
  exists D. do 2 eexists. exists st2, train_km.
  split; [exact Hkm|].
  unfold call_svc_fit, bind, log, lift in Hfit. simpl in Hfit.
  destruct (svc_fit _ train_km _); inversion Hfit. reflexivity.
Qed.

Lemma fit_with_single_candidates_swaps_sigma_and_C_example :
  exists (est : SupportDistributionMachine (E := three_world))
         (st' : state (E := three_world)),
    fit (E := three_world) (__init__ swap_options None) three_bags
      [0; 1; -1]%Z None None three_start
    = (Ok est, st') /\
    sigma_ est = Some 2 /\ C_ est = Some 5.
Proof.
  assert (Hrun : exists est st',
             fit (E := three_world) (__init__ swap_options None) three_bags
               [0; 1; -1]%Z None None three_start = (Ok est, st')).
  { do 2 eexists. unfold fit. run. reflexivity. }
  destruct Hrun as (est & st' & Hrun).
  destruct (fit_with_single_candidates_swaps_sigma_and_C (E := three_world)
              (__init__ swap_options None) three_bags [0; 1; -1]%Z None None
              2 5 three_start est st')
    as (Hs & Hc & _); try reflexivity.
  - exact Hrun.
  - exists est, st'. split; [exact Hrun|]. split; [exact Hs | exact Hc].
Defined.

(** ** Prediction *)

(** X15: an estimator that has not been fitted has no training bags: [predict]
    ends in an AttributeError at its first line, whatever it is given, and
    nothing has happened. An estimator that [fit] returned has its training
    bags, its sigma, its C and its SVM set, and the parameters it was built
    with unchanged. *)
Theorem predict_needs_a_fitted_estimator {E : Externals}
    (o : options) (md : option R) (data : bagseq bag) (divs : option ndarray2)
    (st : state) :
  predict (__init__ o md) data divs st = (Raise AttributeError, st) /\
  forall X y d cache est st',
    fit (__init__ o md) X y d cache st = (Ok est, st') ->
    exists tb sigma C clf,
      train_bags_ est = Some tb /\ sigma_ est = Some sigma /\
      C_ est = Some C /\ svm_ est = Some clf /\
      est = fitted (__init__ o md) tb sigma C clf.
Proof.
  split; [reflexivity|].
  intros X y d cache est st' Hrun.
  apply fit_result in Hrun. destruct Hrun as (tb & sigma & C & clf & ->).
  exists tb, sigma, C, clf. repeat split; reflexivity.
Qed.

Lemma predict_needs_a_fitted_estimator_example :
  predict (E := three_world) (__init__ three_options None) three_bags None
    three_start
  = (Raise AttributeError, three_start) /\
  exists (est : SupportDistributionMachine (E := three_world))
         (st' : state (E := three_world)),
    fit (E := three_world) (__init__ three_options None) three_bags
      [0; 1; -1]%Z None None three_start = (Ok est, st') /\
    train_bags_ est = Some [20%nat; 21%nat].
Proof.
  destruct (predict_needs_a_fitted_estimator (E := three_world)
              three_options None three_bags None three_start) as [Hp Hf].
  split; [exact Hp|].
  destruct fit_example_run as (st' & Hrun & _).
  destruct (Hf _ _ _ _ _ _ Hrun) as (tb & sigma & C & clf & Htb & _).
  do 2 eexists. split; [exact Hrun | reflexivity].
Defined.

(** X16: [predict] on divergences that the caller computed, by an estimator that
    [fit] returned: the matrix has to have one row per new bag and one
    column per training bag, or the call ends in an AssertionError with
    nothing done. When it has, the divergence estimator is not asked,
    nothing is decomposed (the Gaussian of the divergences goes to the SVM
    as it is, without a projection), and there is one prediction per new
    bag. *)
Theorem predict_on_given_divergences {E : Externals}
    (self : SupportDistributionMachine) (tb : list bag) (sigma C : R)
    (clf : classifier) (data : bagseq bag) (d : ndarray2) (st : state) :
  let run := predict (fitted self tb sigma C clf) data (Some d) st in
  requested (trace (snd run)) = requested (trace st) /\
  decomposed (trace (snd run)) = decomposed (trace st) /\
  heap (snd run) = heap st /\
  (rows d <> len data \/ cols d <> length tb ->
   run = (Raise AssertionError, st)) /\
  (rows d = len data -> cols d = length tb ->
   trace (snd run) = trace st ++ [EvSvcPredict clf (pass_through_gaussian d sigma)]) /\
  (forall preds, fst run = Ok preds ->
     length preds = len data /\ rows d = len data /\ cols d = length tb).
Proof.
  cbv zeta. unfold predict, fitted. cbn [train_bags_ sigma_ svm_ attr].
  unfold call_svc_predict.
  destruct ((rows d =? len data) && (cols d =? length tb))%nat%bool eqn:Hshape.
  - apply andb_true_iff in Hshape. destruct Hshape as [Hr Hc].
    apply Nat.eqb_eq in Hr, Hc.
    cbv [bind ret lift log assert_]. rewrite <- Hr, <- Hc, !Nat.eqb_refl.
    cbn [andb fst snd trace heap].
    destruct (svc_predict clf (pass_through_gaussian d sigma)) as [f|e];
      cbn [fst snd trace heap];
      rewrite requested_app, decomposed_app; cbn; rewrite !app_nil_r;
      (split; [reflexivity|]); (split; [reflexivity|]);
      (split; [reflexivity|]); (split; [intros [?|?]; congruence|]);
      (split; [reflexivity|]); intros preds H; [|discriminate].
    inversion H. now rewrite length_map, length_seq.
  - cbv [bind ret lift log assert_ raise]. rewrite Hshape.
    cbn [fst snd].
    apply andb_false_iff in Hshape.
    split; [reflexivity|]. split; [reflexivity|]. split; [reflexivity|].
    split; [reflexivity|]. split; [|discriminate].
    intros Hr Hc. rewrite Hr, Hc, !Nat.eqb_refl in Hshape.
    destruct Hshape; discriminate.
Qed.

Lemma predict_on_given_divergences_example :
  exists (preds : list Z) (st' : state (E := cross_world)),
    predict (E := cross_world) example_fitted (BagList [20%nat; 20%nat; 20%nat])
      (Some (of_rows [[1; 2]; [3; 4]; [5; 6]]))
      (mkState (E := cross_world) [] 0 [])
    = (Ok preds, st') /\
    length preds = 3%nat /\ requested (trace st') = [].
Proof.
  do 2 eexists. split; [|].
  - unfold predict. run. reflexivity.
  - match goal with
    | |- length ?p = _ /\ requested (trace ?s) = _ =>
        destruct (predict_on_given_divergences (E := cross_world)
                    (__init__ example_options None) [20%nat; 20%nat] 1 1 0%Z
                    (BagList [20%nat; 20%nat; 20%nat])
                    (of_rows [[1; 2]; [3; 4]; [5; 6]])
                    (mkState (E := cross_world) [] 0 []))
          as (Hreq & _ & _ & _ & _ & Hlen)
    end.
    split.
    + apply Hlen. unfold predict. run. reflexivity.
    + reflexivity.
Defined.

(** X17: [predict] on one new bag: the matrix that goes through the Gaussian
    holds, for every training bag, the mean of the divergence from the new
    bag to it and of the divergence from it to the new bag. *)
Theorem predict_on_one_bag_averages_both_directions {E : Externals}
    (self : SupportDistributionMachine) (tb : list bag) (sigma C : R)
    (clf : classifier) (b : bag) (st : state) :
  let est := fitted self tb sigma C clf in
  let rq := mkRequest (BagList (tb ++ [b])) (Some (cross_mask (length tb) 1))
              (div_func self) (K self) (n_proc self)
              (fix_mode self) (tail self) (min_dist self) in
  rows (get_divs rq) = (length tb + 1)%nat ->
  cols (get_divs rq) = (length tb + 1)%nat ->
  exists B,
    trace (snd (predict est (BagList [b]) None st))
    = trace st ++ [EvGetDivs rq; EvSvcPredict clf (pass_through_gaussian B sigma)] /\
    rows B = 1%nat /\ cols B = length tb /\
    forall j, (j < length tb)%nat ->
      entry B 0 j
      = (entry (get_divs rq) (length tb) j + entry (get_divs rq) j (length tb)) / 2.
Proof.
  cbv zeta. intros Hr Hc.
  destruct (cross_block_entries _ (length tb) 1 Hr Hc (le_n 1))
    as (B & HB & HrB & HcB & He).
  exists B. split; [|split; [exact HrB|split; [exact HcB|]]].
  - apply (predict_trace (fitted self tb sigma C clf) tb sigma clf [b] st B);
      try reflexivity.
    exact HB.
  - intros j Hj. rewrite (He 0%nat j) by lia. now rewrite Nat.add_0_r.
Qed.

Lemma predict_on_one_bag_averages_both_directions_example :
  exists (B : ndarray2) (rq : div_request (bag (Externals := cross_world))
                                (fixmode (Externals := cross_world))),
    trace (snd (predict (E := cross_world)
                  (fitted (E := cross_world) (__init__ example_options None)
                     [20%nat; 20%nat; 20%nat] 1 1 0%Z)
                  (BagList [20%nat]) None (mkState (E := cross_world) [] 0 [])))
    = [EvGetDivs rq;
       EvSvcPredict (E := cross_world) 0%Z (pass_through_gaussian B 1)] /\
    entry B 0 0 = (8 + 3) / 2.
Proof.
  destruct (predict_on_one_bag_averages_both_directions (E := cross_world)
              (__init__ example_options None) [20%nat; 20%nat; 20%nat] 1 1 0%Z
              20%nat (mkState (E := cross_world) [] 0 []))
    as (B & Htr & _ & _ & He); try reflexivity.
  exists B. eexists. split; [exact Htr|].
  rewrite (He 0%nat) by (simpl; lia). reflexivity.
Defined.

(** Line 379 when there is no new bag: [-0] is [0], so the slices that
    should be empty are whole. *)
Lemma cross_block_no_test (D : ndarray2) (n : nat) :
  rows D = n -> cols D = n -> (1 <= n)%nat ->
  exists B, cross_block D n 0 = Ok B /\ rows B = n /\ cols B = n /\
    forall i j, (i < n)%nat -> (j < n)%nat ->
      entry B i j = (entry D i j + entry D j 0) / 2.
Proof.
  intros Hr Hc Hn. unfold cross_block, col_at. simpl.
  rewrite Hc.
  assert (Hin : ((0 <? Z.of_nat n)%Z = true)) by (apply Z.ltb_lt; lia).
  rewrite Hin. simpl.
  unfold badd. simpl.
  rewrite Hr, Hc, length_map, length_seq.
  change 0%Z with (Z.of_nat 0).
  rewrite !slice_bound_pos by lia. rewrite Nat.sub_0_r.
  rewrite broadcast_dim_one_r, broadcast_dim_same. simpl.
  eexists. split; [reflexivity|]. simpl.
  split; [reflexivity|]. split; [reflexivity|].
  intros i j Hi Hj.
  rewrite !bidx_lt by lia.
  f_equal. f_equal.
  rewrite (nth_indep _ 0 (entry D 0%nat 0%nat))
    by (rewrite length_map, length_seq; lia).
  rewrite (map_nth (fun i0 => entry D i0 _)).
  rewrite seq_nth by lia. reflexivity.
Qed.

(** X18: [predict] on an empty list of bags does not answer with an empty
    vector: the slices [-n_test:] and [-n_test] of line 379 are then [-0:]
    and [-0], the whole matrix and its first column, and the SVM is asked
    about a kernel with one row per training bag. A call that returns
    returns one label per training bag. *)
Theorem predict_on_no_bags_answers_for_the_training_bags {E : Externals}
    (self : SupportDistributionMachine) (tb : list bag) (sigma C : R)
    (clf : classifier) (st : state) (preds : list Z) (st' : state) :
  let est := fitted self tb sigma C clf in
  let rq := mkRequest (BagList (tb ++ [])) (Some (cross_mask (length tb) 0))
              (div_func self) (K self) (n_proc self)
              (fix_mode self) (tail self) (min_dist self) in
  rows (get_divs rq) = length tb -> cols (get_divs rq) = length tb ->
  (1 <= length tb)%nat ->
  predict est (BagList []) None st = (Ok preds, st') ->
  length preds = length tb /\
  exists B,
    cross_block (get_divs rq) (length tb) 0 = Ok B /\ rows B = length tb /\
    (forall i j, (i < length tb)%nat -> (j < length tb)%nat ->
       entry B i j = (entry (get_divs rq) i j + entry (get_divs rq) j 0) / 2) /\
    trace st' = trace st ++ [EvGetDivs rq;
                             EvSvcPredict clf (pass_through_gaussian B sigma)].
Proof.
  cbv zeta. intros Hr Hc Hn Hrun.
  destruct (cross_block_no_test _ (length tb) Hr Hc Hn)
    as (B & HB & HrB & HcB & He).
  pose proof (predict_trace (fitted self tb sigma C clf) tb sigma clf [] st B
                eq_refl eq_refl eq_refl HB) as Htr.
  rewrite Hrun in Htr. simpl in Htr.
  split.
  - unfold predict in Hrun. cbv zeta in Hrun.
    step_inv Hrun. bind_inv Hrun.
    match goal with
    | Hd : bind (lift (concat_bags _ _)) _ _ = (Ok ?d, _) |- _ =>
        step_inv Hd; bind_inv Hd; apply lift_ok in Hd; destruct Hd as [Hd _]
    end.
    cbn [train_bags_ sigma_ svm_ fitted] in *.
    repeat match goal with
    | Hx : Some _ = Some _ |- _ => inversion Hx; subst; clear Hx
    | Hx : concat_bags _ _ = Ok _ |- _ => inversion Hx; subst; clear Hx
    | Hx : call_get_divs _ _ = (Ok _, _) |- _ =>
        unfold call_get_divs, bind, log, ret in Hx; inversion Hx; subst; clear Hx
    end.
    cbn [len length] in *.
    match goal with
    | Hx : cross_block _ _ _ = Ok ?d |- _ =>
        lazymatch d with
        | B => fail
        | _ => assert (Hd : d = B) by congruence; subst d
        end
    end.
    step_inv Hrun. step_inv Hrun.
    unfold call_svc_predict in Hrun. bind_inv Hrun. step_inv Hrun.
    apply ret_ok in Hrun. destruct Hrun as [-> _].
    rewrite length_map, length_seq. exact HrB.
  - exists B. split; [exact HB|]. split; [exact HrB|]. split; [exact He|].
    exact Htr.
Qed.

Lemma predict_on_no_bags_answers_for_the_training_bags_example :
  exists (preds : list Z) (st' : state (E := cross_world)),
    predict (E := cross_world)
      (fitted (E := cross_world) (__init__ example_options None)
         [20%nat; 20%nat; 20%nat; 20%nat] 1 1 0%Z)
      (BagList []) None (mkState (E := cross_world) [] 0 [])
    = (Ok preds, st') /\
    length preds = 4%nat.
Proof.
  assert (Hrun : exists preds st',
             predict (E := cross_world)
               (fitted (E := cross_world) (__init__ example_options None)
                  [20%nat; 20%nat; 20%nat; 20%nat] 1 1 0%Z)
               (BagList []) None (mkState (E := cross_world) [] 0 [])
             = (Ok preds, st')).
  { do 2 eexists. unfold predict. run. reflexivity. }
  destruct Hrun as (preds & st' & Hrun).
  exists preds, st'. split; [exact Hrun|].
  destruct (predict_on_no_bags_answers_for_the_training_bags (E := cross_world)
              (__init__ example_options None) [20%nat; 20%nat; 20%nat; 20%nat]
              1 1 0%Z (mkState (E := cross_world) [] 0 []) preds st')
    as (Hlen & _); try reflexivity.
  - simpl. lia.
  - exact Hrun.
  - exact Hlen.
Defined.

(** ** Requests to the divergence estimator *)

Lemma emits_asks_nothing {E : Externals} {A} (c : M A) :
  emits (fun ev => requested [ev] = []) c -> asks_nothing c.
Proof.
  intros He st r st' H. destruct (He _ _ _ H) as (evs & -> & Hevs).
  rewrite requested_app.
  replace (requested evs) with (@nil (div_request bag fixmode));
    [now rewrite app_nil_r|].
  clear H. induction Hevs as [|ev evs H1 _ IH]; [reflexivity|].
  change (ev :: evs) with ([ev] ++ evs). now rewrite requested_app, H1, <- IH.
Qed.

Lemma asks_nothing_bind {E : Externals} {A B} (c : M A) (k : A -> M B) :
  asks_nothing c -> (forall a, asks_nothing (k a)) -> asks_nothing (bind c k).
Proof.
  intros Hc Hk st r st' H. apply bind_any in H.
  destruct H as [(a & st1 & H1 & H2)|(e & H1 & _)].
  - rewrite (Hk _ _ _ _ H2). eapply Hc; eauto.
  - eapply Hc; eauto.
Qed.

Lemma asks_at_most_first {E : Externals} {A B} rq (c : M A) (k : A -> M B) :
  asks_at_most rq c -> (forall a, asks_nothing (k a)) ->
  asks_at_most rq (bind c k).
Proof.
  intros Hc Hk st r st' H. apply bind_any in H.
  destruct H as [(a & st1 & H1 & H2)|(e & H1 & _)].
  - rewrite (Hk _ _ _ _ H2). eapply Hc; eauto.
  - eapply Hc; eauto.
Qed.

Lemma asks_at_most_later {E : Externals} {A B} rq (c : M A) (k : A -> M B) :
  asks_nothing c -> (forall a, asks_at_most rq (k a)) ->
  asks_at_most rq (bind c k).
Proof.
  intros Hc Hk st r st' H. apply bind_any in H.
  destruct H as [(a & st1 & H1 & H2)|(e & H1 & _)].
  - rewrite <- (Hc _ _ _ H1). eapply Hk; eauto.
  - left. eapply Hc; eauto.
Qed.

Lemma asks_nothing_lift {E : Externals} {A} (x : res A) : asks_nothing (lift x).
Proof. intros st r st' H. now inversion H. Qed.

Lemma asks_nothing_assert {E : Externals} (b : bool) : asks_nothing (assert_ b).
Proof. intros st r st' H. destruct b; now inversion H. Qed.

Lemma asks_nothing_ret {E : Externals} {A} (a : A) : asks_nothing (ret a).
Proof. intros st r st' H. now inversion H. Qed.

Lemma asks_nothing_for_each {E : Externals} {A S} (l : list A)
    (body : A -> S -> M S) (s : S) :
  (forall x s', asks_nothing (body x s')) -> asks_nothing (for_each l body s).
Proof.
  intros Hb. revert s. induction l as [|x l IH]; intros s; simpl.
  - apply asks_nothing_ret.
  - apply asks_nothing_bind; auto.
Qed.

(** The three ways in which [get_divs_cache] ends. *)
Lemma get_divs_cache_cases {E : Externals} (bags : bagseq bag)
    (df : String.string) (k : nat) (file : option String.string)
    (np : option nat) (fm : fixmode) (tl : R) (md : option R) (st : state) r st' :
  get_divs_cache bags df k file np fm tl md st = (r, st') ->
  (exists f d, truthy file = Some f /\ cache_exists f = true /\
     cache_get f df k = Some d /\
     r = Ok d /\ trace st' = trace st ++ [EvCacheLoad f]) \/
  (r = Ok (get_divs (mkRequest bags None df k np fm tl md)) /\
   trace st' = trace st ++ EvGetDivs (mkRequest bags None df k np fm tl md) ::
     match truthy file with
     | Some f => [EvCacheSave f df k (get_divs (mkRequest bags None df k np fm tl md))]
     | None => []
     end) \/
  (exists f e, truthy file = Some f /\ cache_exists f = true /\
     r = Raise e /\ trace st' = trace st).
Proof.
  unfold get_divs_cache.
  destruct (truthy file) as [f|] eqn:Hf.
  - destruct (cache_exists f) eqn:Hex.
    + destruct (first_dim bags) as [dim|e] eqn:Hdim.
      * destruct (check_h5_settings f (len bags) dim fm tl md) eqn:Hck.
        -- destruct (cache_get f df k) as [d|] eqn:Hget.
           ++ cbv [bind lift ret log]. simpl. rewrite Hck. simpl.
              intros H. inversion H. left. exists f, d. repeat split; auto.
           ++ cbv [bind lift ret log call_get_divs]. simpl. rewrite Hck. simpl.
              intros H. inversion H. right. left.
              rewrite <- app_assoc. split; reflexivity.
        -- cbv [bind lift ret raise log]. simpl. rewrite Hck. simpl.
           intros H. inversion H. right. right. exists f, CacheError.
           repeat split; auto; congruence.
      * cbv [bind lift]. intros H. inversion H. right. right. exists f, e.
        repeat split; auto; congruence.
    + cbv [bind lift ret log call_get_divs]. simpl.
      intros H. inversion H. right. left.
      rewrite <- app_assoc. split; reflexivity.
  - cbv [bind lift ret log call_get_divs]. simpl.
    intros H. inversion H. right. left. split; reflexivity.
Qed.

Lemma asks_at_most_get_divs_cache {E : Externals} bags df k file np fm tl md :
  asks_at_most (mkRequest bags None df k np fm tl md)
    (get_divs_cache bags df k file np fm tl md).
Proof.
  intros st r st' H.
  destruct (get_divs_cache_cases _ _ _ _ _ _ _ _ _ _ _ H)
    as [(f & d & _ & _ & _ & _ & ->)|[(_ & ->)|(f & e & _ & _ & _ & ->)]].
  - left. rewrite requested_app. simpl. now rewrite app_nil_r.
  - right. change (?a :: ?l) with ([a] ++ l). rewrite !requested_app.
    f_equal. destruct (truthy file); reflexivity.
  - left. reflexivity.
Qed.

Lemma asks_nothing_tune_params {E : Externals} divs labels num_folds n_proc Cv Sv
    scale wc cs tol mi sh :
  asks_nothing
    (tune_params divs labels num_folds n_proc Cv Sv scale wc cs tol mi sh).
Proof. apply emits_asks_nothing, emits_tune_params; reflexivity. Qed.

Lemma asks_nothing_make_km {E : Externals} divs sigma :
  asks_nothing (make_km divs sigma).
Proof. apply emits_asks_nothing, emits_make_km; reflexivity. Qed.

Lemma asks_nothing_call_svc_fit {E : Externals} p km ys :
  asks_nothing (call_svc_fit p km ys).
Proof. apply emits_asks_nothing, emits_call_svc_fit; reflexivity. Qed.

Lemma asks_nothing_call_svc_predict {E : Externals} clf km :
  asks_nothing (call_svc_predict clf km).
Proof. apply emits_asks_nothing, emits_call_svc_predict; reflexivity. Qed.

Lemma asks_nothing_KFold {E : Externals} n k : asks_nothing (KFold n k).
Proof. apply emits_asks_nothing, emits_KFold; reflexivity. Qed.

Lemma asks_at_most_lift {E : Externals} {A B} rq (a : A) (k : A -> M B) :
  asks_at_most rq (k a) -> asks_at_most rq (bind (lift (Ok a)) k).
Proof. intros Hk st r st' H. exact (Hk _ _ _ H). Qed.

(** What [transduct] does once it has its divergences. *)
Lemma asks_nothing_transduct_given {E : Externals} train_bags train_labels
    test_bags o md d cache :
  asks_nothing (transduct train_bags train_labels test_bags o md (Some d) cache).
Proof.
  unfold transduct. cbv zeta.
  repeat match goal with
  | |- asks_nothing (bind _ _) => apply asks_nothing_bind; [| intros ?]
  | |- asks_nothing (ret _) => apply asks_nothing_ret
  | |- asks_nothing (lift _) => apply asks_nothing_lift
  | |- asks_nothing (assert_ _) => apply asks_nothing_assert
  | |- asks_nothing (tune_params _ _ _ _ _ _ _ _ _ _ _ _) =>
      apply asks_nothing_tune_params
  | |- asks_nothing (make_km _ _) => apply asks_nothing_make_km
  | |- asks_nothing (call_svc_fit _ _ _) => apply asks_nothing_call_svc_fit
  | |- asks_nothing (call_svc_predict _ _) => apply asks_nothing_call_svc_predict
  | |- asks_nothing (match ?x with _ => _ end) => destruct x
  end.
Qed.

Ltac asks_go :=
  repeat match goal with
  | |- asks_nothing (ret _) => apply asks_nothing_ret
  | |- asks_nothing (lift _) => apply asks_nothing_lift
  | |- asks_nothing (assert_ _) => apply asks_nothing_assert
  | |- asks_nothing (tune_params _ _ _ _ _ _ _ _ _ _ _ _) =>
      apply asks_nothing_tune_params
  | |- asks_nothing (make_km _ _) => apply asks_nothing_make_km
  | |- asks_nothing (call_svc_fit _ _ _) => apply asks_nothing_call_svc_fit
  | |- asks_nothing (call_svc_predict _ _) => apply asks_nothing_call_svc_predict
  | |- asks_nothing (KFold _ _) => apply asks_nothing_KFold
  | |- asks_nothing (transduct _ _ _ _ _ (Some _) _) =>
      apply asks_nothing_transduct_given
  | |- asks_nothing (bind _ _) => apply asks_nothing_bind; [| intros ?]
  | |- asks_nothing (for_each _ _ _) => apply asks_nothing_for_each; intros ? ?
  | |- asks_nothing (match ?x with _ => _ end) => destruct x
  | |- asks_nothing ((match ?x with _ => _ end) _) => destruct x
  end.


(** ** Transduction *)

(** X19: [transduct] sends the divergence estimator at most one request, and
    none when it is given the divergences. The request is for all pairs of
    the training bags followed by the test bags, and carries the [n_proc],
    [fix_mode], [tail] and [min_dist] of the caller. *)
Theorem transduct_asks_for_divergences_at_most_once {E : Externals}
    (train_bags : bagseq bag) (train_labels : list Z) (test_bags : bagseq bag)
    (o : options) (md : option R) (cache : option String.string) :
  (forall d,
     asks_nothing
       (transduct train_bags train_labels test_bags o md (Some d) cache)) /\
  (forall all_bags, concat_bags train_bags test_bags = Ok all_bags ->
     asks_at_most
       (mkRequest all_bags None (opt_div_func o) (opt_K o) (opt_n_proc o)
          (opt_fix_mode o) (opt_tail o) md)
       (transduct train_bags train_labels test_bags o md None cache)) /\
  (forall e, concat_bags train_bags test_bags = Raise e ->
     asks_nothing (transduct train_bags train_labels test_bags o md None cache)).
Proof.
  split; [|split].
  - intros d. apply asks_nothing_transduct_given.
  - intros all_bags Hcat. unfold transduct. cbv zeta.
    apply asks_at_most_later; [asks_go|]. intros _.
    apply asks_at_most_first; [|intros divs; asks_go].
    rewrite Hcat. apply asks_at_most_lift.
    apply asks_at_most_get_divs_cache.
  - intros e Hcat. unfold transduct. cbv zeta.
    apply asks_nothing_bind; [asks_go|]. intros _.
    apply asks_nothing_bind; [|intros divs; asks_go].
    rewrite Hcat. intros st r st' H. now inversion H.
Qed.

Lemma transduct_asks_for_divergences_at_most_once_example :
  asks_at_most (E := four_world)
    (mkRequest (BagList [20%nat; 20%nat; 20%nat]) None "renyi:.9"%string 3 None
       false 0 None)
    (transduct (E := four_world) (BagList [20%nat; 20%nat]) [0; 1]%Z
       (BagList [20%nat]) four_options None None None).
Proof.
  apply (transduct_asks_for_divergences_at_most_once (E := four_world)
           (BagList [20%nat; 20%nat]) [0; 1]%Z (BagList [20%nat])
           four_options None None).
  reflexivity.
Defined.

(** ** Cross-validation *)

(** X22: [crossvalidate] with [project_all] sends the divergence estimator at
    most one request, before the first fold, and none when it is given the
    divergences: the folds run on sub-blocks of the one matrix. The request
    is for all pairs of the bags, with the [fix_mode], [tail] and
    [min_dist] of the caller, and without its [n_proc], which goes to the
    tuning only. *)
Theorem crossvalidate_asks_for_divergences_at_most_once {E : Externals}
    (bags : bagseq bag) (labels : list Z) (num_folds : nat) (o : options)
    (md : option R) (cache : option String.string) :
  (forall d,
     asks_nothing (crossvalidate bags labels num_folds true o md (Some d) cache)) /\
  asks_at_most
    (mkRequest bags None (opt_div_func o) (opt_K o) None
       (opt_fix_mode o) (opt_tail o) md)
    (crossvalidate bags labels num_folds true o md None cache).
Proof.
  split.
  - intros d. unfold crossvalidate. cbv beta iota zeta. asks_go.
  - unfold crossvalidate. cbv beta iota zeta.
    apply asks_at_most_later; [asks_go|]. intros dim.
    apply asks_at_most_later; [asks_go|]. intros ok.
    apply asks_at_most_later; [asks_go|]. intros _.
    apply asks_at_most_later; [asks_go|]. intros _.
    apply asks_at_most_first; [apply asks_at_most_get_divs_cache|].
    intros divs. asks_go.
Qed.

(** X23: [crossvalidate] without [project_all] never returns. With at least
    twice as many bags as folds every fold tests on two bags or more, which
    [itemgetter] hands over as a tuple; [predict] adds its argument to the
    list of training bags of the estimator, and a list plus a tuple is a
    TypeError. So a run that gets as far as the first [predict] ends
    there, and no run returns. *)
Theorem crossvalidate_without_project_all_never_returns {E : Externals}
    (bags : bagseq bag) (labels : list Z) (num_folds : nat) (o : options)
    (md : option R) (divs : option ndarray2) (cache : option String.string)
    (st : state) :
  (2 <= num_folds)%nat -> (2 * num_folds <= len bags)%nat ->
  (forall self tb sigma C clf l st1,
     predict (fitted self tb sigma C clf) (BagTuple l) None st1
     = (Raise TypeError, st1)) /\
  exists e,
    fst (crossvalidate bags labels num_folds false o md divs cache st) = Raise e.
Proof.
  intros _ _. split; [reflexivity|].
  destruct (crossvalidate bags labels num_folds false o md divs cache st)
    as [r st'] eqn:H.
  exact (crossvalidate_inductive_never_returns _ _ _ _ _ _ _ _ _ _ H).
Qed.

Lemma crossvalidate_without_project_all_never_returns_example :
  fst (crossvalidate (E := four_world) four_bags [0; 0; 1; 1]%Z 2 false
         four_options None None None four_start)
  = Raise TypeError.
Proof.
  destruct (crossvalidate_without_project_all_never_returns (E := four_world)
              four_bags [0; 0; 1; 1]%Z 2 four_options None None None
              four_start) as (_ & e & He).
  - lia.
  - simpl. lia.
  - rewrite He. f_equal.
    assert (Hrun : fst (crossvalidate (E := four_world) four_bags [0; 0; 1; 1]%Z
                          2 false four_options None None None four_start)
                   = Raise TypeError).
    { unfold crossvalidate. run. reflexivity. }
    rewrite He in Hrun. now inversion Hrun.
Defined.

(** *** Leave-one-out *)

Lemma filter_eqb_NoDup (x : nat) (l : list nat) :
  NoDup l -> (length (filter (fun i => existsb (Nat.eqb i) [x]) l) <= 1)%nat.
Proof.
  induction l as [|y l IH]; intros Hnd; simpl; [lia|].
  inversion Hnd as [|? ? Hn Hd]; subst.
  destruct (Nat.eqb_spec y x) as [->|Hne]; simpl.
  - assert (Hnil : filter (fun i => (i =? x)%nat || false) l = []).
    { clear IH Hd Hnd. induction l as [|z l IHl]; [reflexivity|]. simpl.
      destruct (Nat.eqb_spec z x) as [->|Hz]; simpl.
      - exfalso. apply Hn. now left.
      - apply IHl. intros Hin. apply Hn. now right. }
    simpl in Hnil. rewrite Hnil. simpl. lia.
  - now apply IH.
Qed.

(** With as many folds as bags, the first fold tests on one bag at most. *)
Lemma leave_one_out_first_fold (n : nat) (idxs : list nat) train test rest :
  kfold_splits n n idxs = (train, test) :: rest -> (length test <= 1)%nat.
Proof.
  destruct n as [|m]; [discriminate|].
  assert (Hsizes : exists tl, fold_sizes (S m) (S m) = 1%nat :: tl).
  { unfold fold_sizes. cbn [seq map].
    rewrite Nat.div_same, Nat.Div0.mod_same by lia. eexists. reflexivity. }
  destruct Hsizes as (tl & Hsizes).
  unfold kfold_splits. rewrite Hsizes. cbn [chunks map].
  unfold fold_of at 1. intros H. injection H as _ Htest _. subst test.
  destruct idxs as [|x idxs].
  - change (firstn 1 (@nil nat)) with (@nil nat).
    assert (Hnone : forall s, filter (in_chunk []) s = []).
    { intros s. induction s as [|y s IH]; simpl; [reflexivity|exact IH]. }
    change (length (filter (in_chunk []) (seq 0 (S m))) <= 1)%nat.
    rewrite Hnone. simpl. lia.
  - exact (filter_eqb_NoDup x (seq 0 (S m)) (seq_NoDup _ _)).
Qed.

(** X24: leave-one-out cross-validation does not run: with as many folds as
    bags, a fold's test set is one index, for which [itemgetter] returns
    the bag itself and not a sequence of one bag. [transduct] takes the
    length of that array, the number of its points, for the number of test
    bags, and its check of the shape of the divergences fails unless the
    bag has exactly one point. No run over bags of other sizes returns. *)
Theorem crossvalidate_leave_one_out_never_returns {E : Externals}
    (l : list bag) (labels : list Z) (o : options) (md : option R)
    (divs : option ndarray2) (cache : option String.string) (st : state) :
  (forall b, In b l -> bag_rows b <> 1%nat) ->
  exists e,
    fst (crossvalidate (BagList l) labels (length l) true o md divs cache st)
    = Raise e.
Proof.
  intros Hrows.
  destruct (crossvalidate (BagList l) labels (length l) true o md divs cache st)
    as [[[acc preds]|e] st'] eqn:H; [exfalso|simpl; eauto].
  unfold crossvalidate in H. cbv zeta in H.
  repeat step_inv H.
  match goal with
  | Hk : KFold _ _ _ = (Ok ?fs, _), Hl : for_each ?fs _ _ _ = (Ok _, _) |- _ =>
      pose proof (KFold_ok _ _ _ _ _ Hk) as (Hk0 & _ & Hfs);
      destruct (KFold_state _ _ _ _ _ Hk) as (_ & Hlen);
      destruct fs as [|[train test] rest]; [simpl in Hlen; cbn [len] in *; lia|];
      symmetry in Hfs; cbn [len] in Hfs;
      pose proof (leave_one_out_first_fold _ _ _ _ _ Hfs) as Htest;
      clear Hfs Hlen; cbn [for_each] in Hl; bind_inv Hl
  end.
  match goal with
  | Hb : bind (lift (itemgetter train _)) _ _ = (Ok _, _) |- _ =>
      repeat step_inv Hb
  end.
  match goal with
  | Ht : transduct ?trb ?trl ?teb _ _ _ _ _ = (Ok _, _),
    Hitr : itemgetter train _ = Ok ?trb,
    Hite : itemgetter test _ = Ok ?teb,
    Hlab : take labels train = Ok ?trl,
    Hsub : ix_ _ _ _ = Ok ?sub |- _ =>
      unfold transduct in Ht; cbv zeta in Ht;
      step_inv Ht; step_inv Ht;
      match goal with
      | Hshape : squeezed_shape_is trl _ = true,
        Hd : bind (assert_ _) _ _ = (Ok _, _) |- _ =>
          step_inv Hd; apply ret_ok in Hd; destruct Hd as [-> _];
          pose proof (take_length _ _ _ Hlab) as Hll;
          destruct (ix_shape _ _ _ _ Hsub) as (Hrs & _ & _);
          unfold squeezed_shape_is in Hshape;
          apply andb_true_iff in Hshape; destruct Hshape as [Hs1 Hs2];
          apply Nat.eqb_eq in Hs1; apply negb_true_iff, Nat.eqb_neq in Hs2
      end
  end.
  match goal with
  | Hd : (_ && _)%bool = true |- _ =>
      apply andb_true_iff in Hd; destruct Hd as [Hd _]; apply Nat.eqb_eq in Hd
  end.
  rewrite length_app in *.
  unfold itemgetter in *.
  destruct test as [|i [|i' test]]; [discriminate| |simpl in Htest; lia].
  destruct train as [|j [|j' train]]; [discriminate| |].
  - simpl in Hll. lia.
  - repeat match goal with
    | Hx : res_bind ?x _ = Ok _ |- _ =>
        let v := fresh "v" in
        let Hv := fresh "Hv" in
        destruct x as [v|] eqn:Hv; simpl in Hx; [|discriminate];
        inversion Hx; subst; clear Hx
    end.
    cbn [len] in *.
    match goal with
    | Hv : take l _ = Ok ?bs, Hi : item l i = Ok ?b |- _ =>
        pose proof (take_length _ _ _ Hv) as Hbs;
        apply item_ok in Hi; apply nth_error_In in Hi;
        specialize (Hrows b Hi)
    end.
    simpl in *. lia.
Qed.

Lemma crossvalidate_leave_one_out_never_returns_example :
  exists e,
    fst (crossvalidate (E := four_world) four_bags [0; 0; 1; 1]%Z 4 true
           four_options None None None four_start)
    = Raise e.
Proof.
  apply (crossvalidate_leave_one_out_never_returns (E := four_world)
           [20%nat; 20%nat; 20%nat; 20%nat] [0; 0; 1; 1]%Z four_options
           None None None four_start).
  intros b Hb. simpl in Hb.
  destruct Hb as [<-|[<-|[<-|[<-|[]]]]]; simpl; lia.
Defined.

(** ** What [transduct] trains on *)

(** X20: [transduct] on divergences given by the caller, when it returns: there
    is one label per training bag and the matrix is square over the
    training bags followed by the test bags. The parameters are tuned on
    the block of the training bags; the kernel is made, and projected, over
    all the bags, test bags included; the SVM is trained with the selected
    C on the block of the training bags and asked about the rows of the
    test bags against the columns of the training bags; and there is one
    prediction per test bag. *)
Theorem transduct_projects_all_bags_and_predicts_the_test_rows {E : Externals}
    (train_bags : bagseq bag) (train_labels : list Z) (test_bags : bagseq bag)
    (o : options) (md : option R) (d : ndarray2) (cache : option String.string)
    (st : state) (preds : list Z) (sigma C : R) (st' : state) :
  transduct train_bags train_labels test_bags o md (Some d) cache st
  = (Ok (preds, (sigma, C)), st') ->
  let n := len train_bags in
  length train_labels = n /\
  rows d = (n + len test_bags)%nat /\ cols d = (n + len test_bags)%nat /\
  length preds = len test_bags /\
  exists st1 km st2 train_km test_km clf,
    tune_params (cols_to (rows_to d (Z.of_nat n)) (Z.of_nat n)) train_labels
      (opt_tuning_folds o) (opt_n_proc o) (opt_C_vals o) (opt_sigma_vals o)
      (opt_scale_sigma o) (opt_weight_classes o) (opt_tuning_cache_size o)
      (opt_tuning_svm_tol o) (opt_tuning_svm_max_iter o) (opt_svm_shrinking o) st
    = (Ok (sigma, C), st1) /\
    make_km d sigma st1 = (Ok km, st2) /\
    rows train_km = n /\ cols train_km = n /\
    rows test_km = len test_bags /\ cols test_km = n /\
    (forall i j, (i < n)%nat -> (j < n)%nat ->
       entry train_km i j = entry km i j) /\
    (forall i j, (i < len test_bags)%nat -> (j < n)%nat ->
       entry test_km i j = entry km (n + i) j) /\
    trace st' = trace st2 ++
      [EvSvcFit (mkSvc C (opt_cache_size o) (opt_weight_classes o)
                   (opt_svm_tol o) (opt_svm_max_iter o) (opt_svm_shrinking o))
         train_km train_labels;
       EvSvcPredict clf test_km].
Proof.
  intros H. cbv zeta. unfold transduct in H. cbv zeta in H.
  step_inv H. bind_inv H.
  match goal with
  | Hd : bind (assert_ _) _ _ = (Ok _, _) |- _ =>
      step_inv Hd; apply ret_ok in Hd; destruct Hd as [-> ->]
  end.
  match goal with
  | Hs : squeezed_shape_is _ _ = true |- _ => apply squeezed_shape_length in Hs
  end.
  match goal with
  | Hd : (_ && _)%bool = true |- _ =>
      apply andb_true_iff in Hd; destruct Hd as [Hr Hc];
      apply Nat.eqb_eq in Hr, Hc
  end.
  bind_inv H.
  match type of H with
  | (let (_, _) := ?p in _) _ = _ => destruct p as [sigma0 C0]
  end.
  bind_inv H. step_inv H.
  match type of H with
  | (let (_, _) := ?p in _) _ = _ => destruct p as [train_km test_km]
  end.
  bind_inv H. bind_inv H. apply ret_ok in H. destruct H as [H ->].
  inversion H; subst. clear H.
  lazymatch goal with
  | Hf : call_svc_fit _ _ _ _ = (Ok ?clf, _),
    Hp : call_svc_predict _ _ _ = (Ok _, _),
    Hs : split_km _ _ _ = Ok _ |- _ =>
      unfold call_svc_fit in Hf; bind_inv Hf;
      apply lift_ok in Hf; destruct Hf as [Hfit ->];
      unfold call_svc_predict in Hp; bind_inv Hp; step_inv Hp;
      apply ret_ok in Hp; destruct Hp as [-> ->];
      unfold split_km in Hs;
      match type of Hs with
      | res_bind ?x _ = _ => destruct x as [tk|] eqn:Htk; [|discriminate]
      end;
      cbn [res_bind] in Hs;
      match type of Hs with
      | res_bind ?x _ = _ => destruct x as [sk|] eqn:Hsk; [|discriminate]
      end;
      cbn [res_bind] in Hs; inversion Hs; subst; clear Hs;
      destruct (ix_shape _ _ _ _ Htk) as (Hrt & Hct & Het);
      destruct (ix_shape _ _ _ _ Hsk) as (Hrs & Hcs & Hes)
  end.
  repeat match goal with
  | Hl : log _ _ = _ |- _ => apply log_ok in Hl; subst
  end.
  rewrite length_seq in Hrt, Hct, Hrs, Hcs.
  split; [assumption|]. split; [exact Hr|]. split; [exact Hc|].
  split; [rewrite length_map, length_seq, Hrs, Hr; lia|].
  do 6 eexists.
  split; [eassumption|]. split; [eassumption|].
  split; [exact Hrt|]. split; [exact Hct|].
  split; [rewrite Hrs, Hr; lia|]. split; [exact Hcs|].
  split; [|split].
  - intros i j Hi Hj. rewrite Het, !seq_nth by assumption. reflexivity.
  - intros i j Hi Hj. rewrite Hes, !seq_nth by (rewrite ?Hr; lia). reflexivity.
  - simpl. rewrite <- app_assoc. reflexivity.
Qed.

Lemma transduct_projects_all_bags_and_predicts_the_test_rows_example :
  exists (preds : list Z) (st' : state (E := four_world)),
    transduct (E := four_world) (BagList [20%nat; 20%nat]) [0; 1]%Z
      (BagList [20%nat; 20%nat]) four_options None (Some example_four_divs) None
      four_start
    = (Ok (preds, (1, 1)), st') /\
    length preds = 2%nat.
Proof.
  assert (Hrun : exists preds st',
             transduct (E := four_world) (BagList [20%nat; 20%nat]) [0; 1]%Z
               (BagList [20%nat; 20%nat]) four_options None
               (Some example_four_divs) None four_start
             = (Ok (preds, (1, 1)), st')).
  { do 2 eexists. unfold transduct. run. reflexivity. }
  destruct Hrun as (preds & st' & Hrun).
  exists preds, st'. split; [exact Hrun|].
  destruct (transduct_projects_all_bags_and_predicts_the_test_rows
              (E := four_world) _ _ _ _ _ _ _ _ _ _ _ _ Hrun)
    as (_ & _ & _ & Hlen & _).
  exact Hlen.
Defined.

(** ** The arrays of the caller *)



(** ** Checks made before any work *)

(** X9: when there is something to tune (two candidates or more in one of the
    grids), [tune_params] checks its divergences and labels before it
    builds a kernel: a matrix that is not square, or a label vector that
    does not have one entry per row, end the call in an AssertionError with
    nothing decomposed, no fold drawn and no task submitted. *)
Theorem tune_params_checks_shapes_before_it_tunes {E : Externals}
    divs labels num_folds n_proc (Cl Sl : list R) scale wc cs tol mi sh
    (st : state) (sigmas : list R) :
  scaled_sigmas scale divs Sl = Ok sigmas ->
  (2 <= length Cl \/ 2 <= length Sl)%nat ->
  cols divs <> rows divs \/ length labels <> rows divs ->
  tune_params divs labels num_folds n_proc (PySeq Cl) (PySeq Sl) scale
    wc cs tol mi sh st
  = (Raise AssertionError,
     mkState (heap st ++ [Cl; sigmas]) (rng st) (trace st)).
Proof.
  intros Hsc Hgrid Hbad. rewrite tune_params_on_sequences, Hsc.
  pose proof (scaled_sigmas_length _ _ _ _ Hsc) as Hlen.
  assert (Hnd : ((length Cl <=? 1) && (length sigmas <=? 1))%nat%bool = false).
  { apply andb_false_iff. rewrite !Nat.leb_gt. lia. }
  unfold tune_params_body. rewrite Hnd.
  destruct (Nat.eqb_spec (cols divs) (rows divs)) as [Hsq|Hsq]; [|reflexivity].
  destruct (Nat.eqb_spec (length labels) (rows divs)) as [Hl|Hl]; [|reflexivity].
  destruct Hbad; contradiction.
Qed.

Lemma tune_params_checks_shapes_before_it_tunes_example :
  tune_params (E := four_world) example_four_divs [0; 0; 1]%Z 2 None
    (PySeq [1; 2]) (PySeq [1]) false false 1000 (1 / 1000) 1000%Z true
    four_start
  = (Raise AssertionError, mkState (E := four_world) [[1; 2]; [1]] 0 []).
Proof.
  apply (tune_params_checks_shapes_before_it_tunes (E := four_world)
           example_four_divs [0; 0; 1]%Z 2 None [1; 2] [1] false
           false 1000 (1 / 1000) 1000%Z true four_start [1]).
  - reflexivity.
  - left. simpl. lia.
  - right. simpl. lia.
Defined.

(** X21: [crossvalidate] looks at its bags and labels before anything else. An
    empty list of bags is an IndexError. A bag of another dimension than
    the first, a bag without points, or a label vector that does not have
    one entry per bag (or has a single entry) is an AssertionError. Either
    way nothing has been computed and nothing asked of the estimator. *)
Theorem crossvalidate_checks_its_input_first {E : Externals}
    (l : list bag) (labels : list Z) (num_folds : nat) (project_all : bool)
    (o : options) (md : option R) (divs : option ndarray2)
    (cache : option String.string) (st : state) :
  (l = [] ->
   crossvalidate (BagList l) labels num_folds project_all o md divs cache st
   = (Raise IndexError, st)) /\
  (forall b0 rest, l = b0 :: rest ->
   (exists b, In b l /\ (bag_dim b <> bag_dim b0 \/ bag_rows b = 0%nat)) \/
   length labels <> length l \/ length labels = 1%nat ->
   crossvalidate (BagList l) labels num_folds project_all o md divs cache st
   = (Raise AssertionError, st)).
Proof.
  split.
  - intros ->. reflexivity.
  - intros b0 rest -> Hbad. unfold crossvalidate. cbv zeta.
    cbv [bind lift first_dim bags_ok]. cbn [len].
    destruct (forallb (bag_ok (bag_dim b0)) (b0 :: rest)) eqn:Hok;
      [|reflexivity].
    cbn [assert_ ret].
    destruct (squeezed_shape_is labels (length (b0 :: rest))) eqn:Hshape;
      [exfalso|reflexivity].
    unfold squeezed_shape_is in Hshape. apply andb_true_iff in Hshape.
    destruct Hshape as [Hlen Hone].
    apply Nat.eqb_eq in Hlen. apply negb_true_iff, Nat.eqb_neq in Hone.
    destruct Hbad as [(b & Hin & Hb)|[Hb|Hb]]; try contradiction.
    rewrite forallb_forall in Hok. specialize (Hok b Hin).
    unfold bag_ok in Hok. apply andb_true_iff in Hok. destruct Hok as [Hd Hr].
    apply Nat.eqb_eq in Hd. apply Nat.ltb_lt in Hr.
    destruct Hb; [contradiction|lia].
Qed.

Lemma crossvalidate_checks_its_input_first_example :
  crossvalidate (E := four_world) (BagList []) [0; 0; 1; 1]%Z 2 true
    four_options None None None four_start
  = (Raise IndexError, four_start) /\
  crossvalidate (E := four_world) (BagList [20%nat; 0%nat; 20%nat; 20%nat])
    [0; 0; 1; 1]%Z 2 true four_options None None None four_start
  = (Raise AssertionError, four_start).
Proof.
  split.
  - apply (crossvalidate_checks_its_input_first (E := four_world)
             [] [0; 0; 1; 1]%Z 2 true four_options None None None four_start).
    reflexivity.
  - apply (proj2 (crossvalidate_checks_its_input_first (E := four_world)
                    [20%nat; 0%nat; 20%nat; 20%nat] [0; 0; 1; 1]%Z 2 true
                    four_options None None None four_start)
             20%nat [0%nat; 20%nat; 20%nat] eq_refl).
    left. exists 0%nat. split; [simpl; auto|]. right. reflexivity.
Defined.

(** ** Cross-validation runs that do not return *)

(** C6: two runs of [crossvalidate] over four bags of twenty points, labels
    0, 0, 1, 1 and 2 <= k <= 4 folds, for which the claim fails. With four
    folds (leave-one-out) the test set of a fold is one index, for which
    [itemgetter] hands the bag itself to [transduct], and the first fold
    ends in the AssertionError of the shape check of line 441. With two
    folds and [project_all] unset, [predict] adds the tuple of test bags to
    the list of training bags on line 374, a TypeError in the first fold.
    In both runs no bag is given a prediction and no accuracy is
    returned. *)
Theorem crossvalidate_runs_that_raise :
  (2 <= 4 <= len four_bags)%nat /\
  fst (crossvalidate (E := four_world) four_bags [0; 0; 1; 1]%Z 4 true
         four_options None None None four_start)
  = Raise AssertionError /\
  fst (crossvalidate (E := four_world) four_bags [0; 0; 1; 1]%Z 2 false
         four_options None None None four_start)
  = Raise TypeError.
Proof.
  split; [simpl; lia|]. split.
  - unfold crossvalidate. run. reflexivity.
  - unfold crossvalidate. run. reflexivity.
Qed.

(** ** What the folds of [crossvalidate] assign *)

Lemma filled_by_filled (Q : list nat -> list nat -> list Z -> Prop)
    (folds : list (list nat * list nat)) (p p' : list Z) :
  filled_by Q folds p p' -> filled folds p p'.
Proof.
  induction 1 as [|train test rest p vals p1 p2 _ Ha _ IH]; [constructor|].
  econstructor; eauto.
Qed.

Lemma filled_by_written_once (Q : list nat -> list nat -> list Z -> Prop)
    (folds : list (list nat * list nat)) (p p' : list Z) (i : nat) (d : Z) :
  filled_by Q folds p p' -> tests_containing folds i = 1%nat ->
  exists train test before vals after,
    In (train, test) folds /\ In i test /\ Q train test vals /\
    assign before test vals = Ok after /\
    nth i p' d = nth i after d.
Proof.
  induction 1 as [|train test rest p vals p1 p2 HQ Ha Hf IH]; [discriminate|].
  unfold tests_containing. cbn [filter snd].
  destruct (existsb (Nat.eqb i) test) eqn:Hex.
  - cbn [length]. intros H1.
    exists train, test, p, vals, p1. split; [now left|].
    split; [now apply existsb_eqb_In|]. split; [exact HQ|]. split; [exact Ha|].
    eapply filled_untouched; [eapply filled_by_filled; exact Hf|].
    unfold tests_containing. lia.
  - intros H1.
    destruct (IH H1) as (tr & te & b & v & a & Hin & Hi & Hq & Has & Hn).
    exists tr, te, b, v, a. split; [now right|]. auto.
Qed.

Lemma for_each_filled_by {E : Externals}
    (Q : list nat -> list nat -> list Z -> Prop)
    (body : list nat * list nat -> list Z -> M (list Z)) :
  (forall train test preds st preds' st',
     body (train, test) preds st = (Ok preds', st') ->
     exists vals, Q train test vals /\ assign preds test vals = Ok preds') ->
  forall folds p0 st p st',
    for_each folds body p0 st = (Ok p, st') -> filled_by Q folds p0 p.
Proof.
  intros Hbody folds. induction folds as [|[train test] rest IH];
    intros p0 st p st' H; simpl in H.
  - apply ret_ok in H. destruct H as [-> _]. constructor.
  - bind_inv H.
    destruct (Hbody _ _ _ _ _ _ H0) as (vals & Hq & Hv).
    econstructor; eauto.
Qed.

Lemma nth_update_same {A} (l : list A) (i : nat) (x d : A) :
  (i < length l)%nat -> nth i (update l i x) d = x.
Proof.
  revert i. induction l as [|a l IH]; intros [|i] H; simpl in *; try lia; auto.
  apply IH. lia.
Qed.

(** [preds[idx] = vals] with one value per index and no index twice: the
    entry at the j-th index is the j-th value. *)
Lemma scatter_at (idx : list nat) :
  forall (vals p : list Z) (j i : nat) (d : Z),
  length vals = length idx -> NoDup idx ->
  (forall k, In k idx -> (k < length p)%nat) ->
  nth_error idx j = Some i ->
  nth i (fold_left (fun p iv => update p (fst iv) (snd iv)) (combine idx vals) p) d
  = nth j vals d.
Proof.
  induction idx as [|a idx IH]; intros vals p j i d Hlen Hnd Hin Hj.
  - destruct j; discriminate.
  - destruct vals as [|v vals]; [discriminate|].
    simpl in Hlen. inversion Hnd as [|? ? Hna Hnd']; subst.
    cbn [combine fold_left fst snd].
    destruct j as [|j]; cbn [nth_error] in Hj.
    + inversion Hj; subst. cbn [nth].
      rewrite scatter_other.
      * apply nth_update_same. apply Hin. now left.
      * intros Hc. apply Hna. apply in_map_iff in Hc.
        destruct Hc as ((x & y) & Hx & Hxy). simpl in Hx. subst x.
        eapply in_combine_l; eauto.
    + cbn [nth]. apply IH; [lia|exact Hnd'| |exact Hj].
      intros k Hk. rewrite update_length. apply Hin. now right.
Qed.

Lemma in_range_In (n : nat) (idx : list nat) :
  in_range n idx = true -> forall k, In k idx -> (k < n)%nat.
Proof.
  unfold in_range. intros H k Hk.
  rewrite forallb_forall in H. apply Nat.ltb_lt. now apply H.
Qed.

Lemma assign_at (p : list Z) (idx : list nat) (vals p' : list Z) (j i : nat) (d : Z) :
  assign p idx vals = Ok p' -> length vals = length idx -> NoDup idx ->
  nth_error idx j = Some i -> nth i p' d = nth j vals d.
Proof.
  unfold assign. destruct (in_range (length p) idx) eqn:Hr; [|discriminate].
  cbn [negb]. intros H Hlen Hnd Hj.
  rewrite Hlen, Nat.eqb_refl in H. inversion H; subst.
  apply scatter_at; auto. now apply in_range_In.
Qed.
(** The shapes in a [transduct] on given divergences that returns. *)
Lemma transduct_given_shapes {E : Externals}
    (train_bags : bagseq bag) (train_labels : list Z) (test_bags : bagseq bag)
    (o : options) (md : option R) (d : ndarray2) (cache : option String.string)
    (st : state) (preds : list Z) (cfg : R * R) (st' : state) :
  transduct train_bags train_labels test_bags o md (Some d) cache st
  = (Ok (preds, cfg), st') ->
  squeezed_shape_is train_labels (len train_bags) = true /\
  rows d = (len train_bags + len test_bags)%nat /\
  length preds = len test_bags.
Proof.
  intros H. unfold transduct in H. cbv zeta in H.
  step_inv H. bind_inv H.
  match goal with
  | Hd : bind (assert_ _) _ _ = (Ok _, _) |- _ =>
      step_inv Hd; apply ret_ok in Hd; destruct Hd as [-> ->]
  end.
  match goal with
  | Hd : (_ && _)%bool = true |- _ =>
      apply andb_true_iff in Hd; destruct Hd as [Hr Hc];
      apply Nat.eqb_eq in Hr, Hc
  end.
  bind_inv H.
  match type of H with
  | (let (_, _) := ?p in _) _ = _ => destruct p as [sigma0 C0]
  end.
  bind_inv H. step_inv H.
  match type of H with
  | (let (_, _) := ?p in _) _ = _ => destruct p as [train_km test_km]
  end.
  bind_inv H. bind_inv H. apply ret_ok in H. destruct H as [H ->].
  inversion H; subst. clear H.
  lazymatch goal with
  | Hp : call_svc_predict _ _ _ = (Ok _, _),
    Hs : split_km _ _ _ = Ok _ |- _ =>
      unfold call_svc_predict in Hp; bind_inv Hp; step_inv Hp;
      apply ret_ok in Hp; destruct Hp as [-> ->];
      unfold split_km in Hs;
      match type of Hs with
      | res_bind ?x _ = _ => destruct x as [tk|] eqn:Htk; [|discriminate]
      end;
      cbn [res_bind] in Hs;
      match type of Hs with
      | res_bind ?x _ = _ => destruct x as [sk|] eqn:Hsk; [|discriminate]
      end;
      cbn [res_bind] in Hs; inversion Hs; subst; clear Hs;
      destruct (ix_shape _ _ _ _ Hsk) as (Hrs & _ & _)
  end.
  rewrite length_seq in Hrs.
  split; [assumption|]. split; [exact Hr|].
  rewrite length_map, length_seq, Hrs, Hr. lia.
Qed.

Lemma itemgetter_len {E : Externals} (idx : list nat) (bags b : bagseq bag) :
  itemgetter idx bags = Ok b -> (2 <= length idx)%nat -> len b = length idx.
Proof.
  unfold itemgetter. intros H Hl.
  destruct bags as [bs|bs|one]; [| |discriminate];
    (destruct idx as [|i [|j idx]]; [simpl in Hl; lia|simpl in Hl; lia|]);
    match type of H with
    | res_bind ?x _ = _ => destruct x as [v|] eqn:Hv; simpl in H; [|discriminate]
    end;
    inversion H; subst; cbn [len]; eapply take_length; eauto.
Qed.

Lemma itemgetter_nonempty {E : Externals} (idx : list nat) (bags b : bagseq bag) :
  itemgetter idx bags = Ok b -> idx <> [].
Proof.
  unfold itemgetter. intros H ->.
  destruct bags; discriminate.
Qed.

(** A fold whose [transduct] returns has one prediction per test index: its
    training and test sets have two indices or more. *)
Lemma fold_predicts_length {E : Externals} (bags : bagseq bag) (labels : list Z)
    (o : options) (divs : ndarray2) (train test : list nat) (pv : list Z) :
  fold_predicts bags labels o divs train test pv ->
  (2 <= length train)%nat /\ length pv = length test.
Proof.
  intros (trb & trl & teb & sub & cfg & st1 & st2 & Htr & Hlab & Hte & Hsub & Hrun).
  destruct (transduct_given_shapes _ _ _ _ _ _ _ _ _ _ _ Hrun) as (Hsq & Hrows & Hlen).
  destruct (ix_shape _ _ _ _ Hsub) as (Hrs & _ & _).
  rewrite length_app in Hrs.
  pose proof (take_length _ _ _ Hlab) as Hll.
  unfold squeezed_shape_is in Hsq. apply andb_true_iff in Hsq.
  destruct Hsq as [Hs1 Hs2].
  apply Nat.eqb_eq in Hs1. apply negb_true_iff, Nat.eqb_neq in Hs2.
  pose proof (itemgetter_nonempty _ _ _ Htr) as Hne.
  assert (Htrain : (2 <= length train)%nat).
  { destruct train as [|a [|b train]]; [congruence|simpl in Hll; lia|simpl; lia]. }
  split; [exact Htrain|].
  rewrite (itemgetter_len _ _ _ Htr Htrain) in Hrows. lia.
Qed.
(** The loop of [crossvalidate] with [project_all] set: every fold assigns
    what [transduct] predicted for it. *)
Lemma crossvalidate_projecting_ok {E : Externals} bags labels num_folds o md
    divs cache (st : state) acc preds st' :
  crossvalidate bags labels num_folds true o md divs cache st
  = (Ok (acc, preds), st') ->
  exists D,
    (forall d, divs = Some d -> D = d) /\
    filled_by (fold_predicts bags labels o D)
      (kfold_splits (len bags) num_folds (shuffle (rng st) (len bags)))
      (repeat (-1)%Z (len bags)) preds.
Proof.
  unfold crossvalidate. cbv zeta. intros H.
  repeat step_inv H.
  match goal with
  | Hd : match divs with _ => _ end st = (Ok ?d, ?s0),
    Hk : KFold _ _ ?s0 = (Ok ?fs, ?s1),
    Hl : for_each ?fs _ _ ?s1 = (Ok ?p, _) |- _ =>
      assert (Hrng : rng s0 = rng st)
        by (destruct divs as [d0|];
            [ step_inv Hd; apply ret_ok in Hd; destruct Hd as [_ ->]; reflexivity
            | eapply get_divs_cache_rng; eauto ]);
      assert (HD : forall d0, divs = Some d0 -> d = d0)
        by (intros d0 ->; step_inv Hd; apply ret_ok in Hd;
            destruct Hd as [-> _]; reflexivity);
      apply KFold_ok in Hk; destruct Hk as (Hk0 & Hkn & ->);
      apply ret_ok in H; destruct H as [H _]; inversion H; subst; clear H;
      rewrite Hrng in Hl;
      exists d; split; [exact HD|];
      eapply for_each_filled_by; [|exact Hl]
  end.
  intros train test p s1 p' s2 Hb. cbv beta iota in Hb.
  repeat step_inv Hb.
  match goal with
  | Ht : transduct _ _ _ _ _ _ _ _ = (Ok ?x, _) |- _ => destruct x as [pv cfg]
  end.
  apply lift_ok in Hb. destruct Hb as [Hb _].
  exists pv. split; [|exact Hb].
  unfold fold_predicts. do 7 eexists.
  repeat (split; [eassumption|]). eassumption.
Qed.

(** X25: a [crossvalidate] run with [project_all] set that returns. The folds
    are those of [KFold] on the shuffle of the indices; every bag index is
    in the test set of exactly one fold; the prediction returned for it is
    the one that the [transduct] of that fold, run on the training bags and
    labels of the fold, its test bags and the block of the divergences
    over both, gave at the position of the index in the test set; and the
    accuracy returned is the fraction of the returned predictions that
    equal the labels, a number in [0, 1]. *)
Theorem crossvalidate_predictions_come_from_the_folds {E : Externals}
    (bags : bagseq bag) (labels : list Z) (num_folds : nat)
    (o : options) (md : option R) (divs : option ndarray2)
    (cache : option String.string) (st : state)
    (acc : npfloat) (preds : list Z) (st' : state) :
  crossvalidate bags labels num_folds true o md divs cache st
  = (Ok (acc, preds), st') ->
  Permutation (shuffle (rng st) (len bags)) (seq 0 (len bags)) ->
  let folds := kfold_splits (len bags) num_folds (shuffle (rng st) (len bags)) in
  (0 < num_folds <= len bags)%nat /\ length folds = num_folds /\
  length preds = len bags /\
  (exists D, (forall d, divs = Some d -> D = d) /\
     forall i, (i < len bags)%nat ->
       tests_containing folds i = 1%nat /\
       exists train test pv j,
         In (train, test) folds /\ nth_error test j = Some i /\
         fold_predicts bags labels o D train test pv /\
         length pv = length test /\
         nth i preds 0%Z = nth j pv 0%Z) /\
  acc = Fin (INR (agreements preds labels) / INR (len bags)) /\
  0 <= INR (agreements preds labels) / INR (len bags) <= 1.
Proof.
  intros Hrun Hperm. cbv zeta.
  destruct (crossvalidate_ok _ _ _ _ _ _ _ _ _ _ _ _ Hrun)
    as (Hk0 & Hkn & Hl & Hfilled & Hacc).
  destruct (crossvalidate_projecting_ok _ _ _ _ _ _ _ _ _ _ _ Hrun)
    as (D & HD & Hby).
  assert (Hlen : length preds = len bags).
  { rewrite (filled_length _ _ _ Hfilled). apply repeat_length. }
  split; [lia|]. split.
  { apply (kfold_partition (len bags) num_folds _ 0%nat); [lia|exact Hperm|lia]. }
  split; [exact Hlen|]. split.
  - exists D. split; [exact HD|]. intros i Hi.
    destruct (kfold_partition (len bags) num_folds _ i ltac:(lia) Hperm Hi)
      as [_ Hone].
    split; [exact Hone|].
    destruct (filled_by_written_once _ _ _ _ i 0%Z Hby Hone)
      as (train & test & before & vals & after & Hin & Hit & Hq & Has & Hnth).
    destruct (fold_predicts_length _ _ _ _ _ _ _ Hq) as [_ Hpl].
    destruct (kfold_tests_wellformed _ _ _ _ _ Hin) as [Hnd _].
    apply In_nth_error in Hit. destruct Hit as (j & Hj).
    exists train, test, vals, j.
    split; [exact Hin|]. split; [exact Hj|]. split; [exact Hq|].
    split; [exact Hpl|].
    rewrite Hnth. eapply assign_at; eauto.
  - destruct (accuracy_is_fraction preds labels (len bags) Hlen Hl ltac:(lia))
      as [Heq Hb].
    split; [congruence | exact Hb].
Qed.

Lemma crossvalidate_predictions_come_from_the_folds_example :
  exists st' : state (E := four_world),
    crossvalidate (E := four_world) four_bags [0; 0; 1; 1]%Z 2 true four_options
      None None None four_start
    = (Ok (Fin (INR 2 / INR 4), [0; 0; 0; 0]%Z), st') /\
    (forall i, (i < 4)%nat ->
       tests_containing (kfold_splits 4 2 (seq 0 4)) i = 1%nat) /\
    0 <= INR (agreements [0; 0; 0; 0]%Z [0; 0; 1; 1]%Z) / INR 4 <= 1.
Proof.
  destruct crossvalidate_example_run as (st' & Hrun).
  exists st'. split; [exact Hrun|].
  destruct (crossvalidate_predictions_come_from_the_folds (E := four_world)
              four_bags [0; 0; 1; 1]%Z 2 four_options None None None
              four_start _ _ st' Hrun)
    as (_ & _ & _ & (D & _ & Hone) & _ & Hb).
  - apply Permutation_refl.
  - split; [|exact Hb].
    intros i Hi. exact (proj1 (Hone i Hi)).
Defined.
